(** * fb-rpc: the envelope codec, the pending table, the timeout checker,
      the dispatcher and its guard chain (src/src/index.ts)

    A shallow embedding of the library code of [src/src/index.ts].

    - JavaScript numbers that the code only ever uses as integers are [Z];
      the conversions the operators perform (ToInt32, ToUint32, ToUint8)
      are written out.
    - A [Uint8Array] is a [list byte]; a store wraps its value to 8 bits
      and is ignored out of range, a load out of range yields [undefined],
      which the bit operators read as 0.
    - A JavaScript string is the list of its UTF-16 code units.
    - A [Map] is an insertion-ordered association list with unique keys.
    - The peer object, the handler entries it shares with its handles, the
      module's id counter and what the peer does to the outside (frames
      handed to the transport sink, promises settled, callbacks invoked,
      reactions on a handler's promise) are one state record, threaded
      through every operation.
    - Callbacks (handlers, guards, the sink, [pack] and the readers'
      constructors) are functions of their arguments: they do not call
      back into the peer, and each returns or throws.  A thrown value is
      [undefined], [null], or a value whose [message] and [toString()] read
      as strings.  Readings of [performance.now()] are integral ticks. *)

From Stdlib Require Import ZArith Lia List String Ascii Sorted.
From stdpp Require Import base option list gmap.
From coqutil Require Import Byte.

Local Open Scope Z_scope.

Ltac zlia := Z.div_mod_to_equations; lia.

(** ** JavaScript integer conversions and bit operators *)

Module Js.

(** ToInt32, ToUint32 and ToUint8 of an integral number. *)
Definition ToInt32 (v : Z) : Z := (v + 2147483648) mod 4294967296 - 2147483648.
Definition ToUint32 (v : Z) : Z := v mod 4294967296.
Definition ToUint8 (v : Z) : byte := byte.of_Z v.

(** [a >> k], [a << k], [a | b] and [a >>> 0]. *)
Definition shr (a k : Z) : Z := Z.shiftr (ToInt32 a) (Z.land k 31).
Definition shl (a k : Z) : Z := ToInt32 (Z.shiftl (ToInt32 a) (Z.land k 31)).
Definition bor (a b : Z) : Z := Z.lor (ToInt32 a) (ToInt32 b).
Definition ushr0 (a : Z) : Z := ToUint32 a.

(** A string is its sequence of UTF-16 code units. *)
Definition JsString : Type := list Z.

(** An ASCII literal of the source as a JavaScript string. *)
Definition lit (s : string) : JsString :=
  map (fun c => Z.of_N (N_of_ascii c)) (list_ascii_of_string s).

End Js.

(** ** Typed arrays *)

Definition Uint8Array : Type := list byte.

(** [buf[i]] as an operand of a bit operator. *)
Definition load (buf : Uint8Array) (i : nat) : Z :=
  match buf !! i with
  | Some b => byte.unsigned b
  | None => 0
  end.

(** [buf[i] = v]. *)
Definition store (buf : Uint8Array) (i : nat) (v : Z) : Uint8Array :=
  <[i := Js.ToUint8 v]> buf.

(** [dst.set(src, offset)], for a source that fits. *)
Fixpoint set_from (dst src : Uint8Array) (offset : nat) : Uint8Array :=
  match src with
  | [] => dst
  | b :: src' => set_from (<[offset := b]> dst) src' (S offset)
  end.

(** [buf.subarray(start, end)] and [buf.subarray(start)]. *)
Definition subarray (buf : Uint8Array) (start stop : nat) : Uint8Array :=
  take (stop - start) (drop start buf).
Definition subarray_from (buf : Uint8Array) (start : nat) : Uint8Array :=
  drop start buf.

(** ** Message types and errors *)

Inductive MessageType := Request | Notification | Response | ErrorResponse.

Definition MessageType_value (t : MessageType) : Z :=
  match t with
  | Request => 0
  | Notification => 1
  | Response => 2
  | ErrorResponse => 3
  end.

Record FbRpcError := mkFbRpcError {
  err_code : Z;
  err_message : Js.JsString;
  err_id : Z;
  err_errorMessage : Js.JsString;
}.

Record ErrorKind := { kind_code : Z; kind_message : Js.JsString }.

Module FB_RPC_ERRORS.
Definition PARSE_ERROR := {| kind_code := 1000; kind_message := Js.lit "Failed to parse message" |}.
Definition INVALID_REQUEST := {| kind_code := 1001; kind_message := Js.lit "Invalid request" |}.
Definition METHOD_NOT_FOUND := {| kind_code := 1002; kind_message := Js.lit "Method not found" |}.
Definition INTERNAL_ERROR := {| kind_code := 1004; kind_message := Js.lit "Internal error" |}.
Definition REQUEST_TIMEOUT := {| kind_code := 1005; kind_message := Js.lit "Request has timed-out" |}.
Definition GUARD_ERROR := {| kind_code := 1006; kind_message := Js.lit "Guard error" |}.
Definition APPLICATION_ERROR := {| kind_code := 1007; kind_message := Js.lit "Application error" |}.
End FB_RPC_ERRORS.

(** ** The envelope codec *)

Definition HEADER_SIZE : nat := 12.

Definition write16 (buf : Uint8Array) (offset : nat) (val : Z) : Uint8Array :=
  let buf := store buf offset val in
  store buf (offset + 1) (Js.shr val 8).

Definition write32 (buf : Uint8Array) (offset : nat) (val : Z) : Uint8Array :=
  let buf := store buf offset val in
  let buf := store buf (offset + 1) (Js.shr val 8) in
  let buf := store buf (offset + 2) (Js.shr val 16) in
  store buf (offset + 3) (Js.shr val 24).

Definition encodeMessage (type id method : Z) (body : Uint8Array) : Uint8Array :=
  let msg := replicate (HEADER_SIZE + length body) Byte.x00 in
  let msg := store msg 0 type in
  let msg := write16 msg 2 method in
  let msg := write32 msg 4 id in
  let msg := write32 msg 8 (Z.of_nat (length body)) in
  set_from msg body HEADER_SIZE.

Definition encodeVoidResponse (id method : Z) : Uint8Array :=
  let msg := replicate HEADER_SIZE Byte.x00 in
  let msg := store msg 0 (MessageType_value Response) in
  let msg := write16 msg 2 method in
  write32 msg 4 id.

Record DecodedMessage := mkDecodedMessage {
  msg_type : Z;
  msg_id : Z;
  msg_method : Z;
  msg_body : Uint8Array;
}.

Definition read16 (buf : Uint8Array) (offset : nat) : Z :=
  Js.bor (load buf offset) (Js.shl (load buf (offset + 1)) 8).

Definition readI32 (buf : Uint8Array) (offset : nat) : Z :=
  Js.bor (Js.bor (Js.bor (load buf offset)
                         (Js.shl (load buf (offset + 1)) 8))
                 (Js.shl (load buf (offset + 2)) 16))
         (Js.shl (load buf (offset + 3)) 24).

Definition read32 (buf : Uint8Array) (offset : nat) : Z :=
  Js.ushr0
    (Js.bor (Js.bor (Js.bor (load buf offset)
                            (Js.shl (load buf (offset + 1)) 8))
                    (Js.shl (load buf (offset + 2)) 16))
            (Js.shl (load buf (offset + 3)) 24)).

(** [inl e]: the call throws [e]. *)
Definition decodeMessage (data : Uint8Array) : FbRpcError + DecodedMessage :=
  if (length data <? HEADER_SIZE)%nat then
    inl (mkFbRpcError (kind_code FB_RPC_ERRORS.PARSE_ERROR)
                      (kind_message FB_RPC_ERRORS.PARSE_ERROR)
                      (-1) (Js.lit "Message too short"))
  else
    let type := load data 0 in
    let method := read16 data 2 in
    let id := read32 data 4 in
    let bodyLen := read32 data 8 in
    if Z.of_nat (length data) <? Z.of_nat HEADER_SIZE + bodyLen then
      inl (mkFbRpcError (kind_code FB_RPC_ERRORS.PARSE_ERROR)
                        (kind_message FB_RPC_ERRORS.PARSE_ERROR)
                        (-1) (Js.lit "Incomplete message"))
    else
      let body := subarray data HEADER_SIZE (HEADER_SIZE + Z.to_nat bodyLen) in
      inr (mkDecodedMessage type id method body).

(** ** The platform's text codec

    [new TextEncoder()] and [new TextDecoder()] are the host's UTF-8 codec
    (WHATWG Encoding Standard), not code of this library.  The encoder
    first converts the string to a scalar value string (an unpaired
    surrogate becomes U+FFFD); the decoder is the standard's UTF-8 decoder
    with error mode replacement, and, as [ignoreBOM] is false by default,
    without a leading U+FEFF in its output. *)

Module Encoding.

Definition is_lead (c : Z) : bool := (0xD800 <=? c) && (c <=? 0xDBFF).
Definition is_trail (c : Z) : bool := (0xDC00 <=? c) && (c <=? 0xDFFF).

(** The scalar value of a surrogate pair. *)
Definition pair_value (hi lo : Z) : Z :=
  0x10000 + Z.shiftl (hi - 0xD800) 10 + (lo - 0xDC00).

(** Web IDL: convert a string into a scalar value string. *)
Fixpoint scalar_values (s : Js.JsString) : list Z :=
  match s with
  | [] => []
  | c :: rest =>
      if is_lead c then
        match rest with
        | d :: rest' =>
            if is_trail d then pair_value c d :: scalar_values rest'
            else 0xFFFD :: scalar_values rest
        | [] => [0xFFFD]
        end
      else if is_trail c then 0xFFFD :: scalar_values rest
      else c :: scalar_values rest
  end.

(** The UTF-8 encoder's handler, for one scalar value. *)
Definition utf8_encode_one (cp : Z) : list Z :=
  if cp <=? 0x7F then [cp]
  else if cp <=? 0x7FF then
    [Z.shiftr cp 6 + 0xC0; Z.lor 0x80 (Z.land cp 0x3F)]
  else if cp <=? 0xFFFF then
    [Z.shiftr cp 12 + 0xE0;
     Z.lor 0x80 (Z.land (Z.shiftr cp 6) 0x3F);
     Z.lor 0x80 (Z.land cp 0x3F)]
  else
    [Z.shiftr cp 18 + 0xF0;
     Z.lor 0x80 (Z.land (Z.shiftr cp 12) 0x3F);
     Z.lor 0x80 (Z.land (Z.shiftr cp 6) 0x3F);
     Z.lor 0x80 (Z.land cp 0x3F)].

(** [textEncoder.encode(s)]. *)
Definition encode (s : Js.JsString) : Uint8Array :=
  map Js.ToUint8 (flat_map utf8_encode_one (scalar_values s)).

(** The UTF-8 decoder's state. *)
Record utf8_state := mkUtf8 {
  code_point : Z;
  bytes_seen : Z;
  bytes_needed : Z;
  lower_boundary : Z;
  upper_boundary : Z;
}.

Definition utf8_initial : utf8_state := mkUtf8 0 0 0 0x80 0xBF.

(** The handler on a byte when no bytes are needed: the code points it
    emits and the next state. *)
Definition utf8_lead (b : Z) : list Z * utf8_state :=
  if b <=? 0x7F then ([b], utf8_initial)
  else if (0xC2 <=? b) && (b <=? 0xDF) then
    ([], mkUtf8 (Z.land b 0x1F) 0 1 0x80 0xBF)
  else if (0xE0 <=? b) && (b <=? 0xEF) then
    ([], mkUtf8 (Z.land b 0xF) 0 2
                (if b =? 0xE0 then 0xA0 else 0x80)
                (if b =? 0xED then 0x9F else 0xBF))
  else if (0xF0 <=? b) && (b <=? 0xF4) then
    ([], mkUtf8 (Z.land b 0x7) 0 3
                (if b =? 0xF0 then 0x90 else 0x80)
                (if b =? 0xF4 then 0x8F else 0xBF))
  else ([0xFFFD], utf8_initial).

(** The handler on a byte.  A byte outside the boundaries of a sequence
    under way is an error, and the byte is read again from the initial
    state. *)
Definition utf8_step (st : utf8_state) (b : Z) : list Z * utf8_state :=
  if bytes_needed st =? 0 then utf8_lead b
  else if negb ((lower_boundary st <=? b) && (b <=? upper_boundary st)) then
    let '(out, st') := utf8_lead b in (0xFFFD :: out, st')
  else
    let cp := Z.lor (Z.shiftl (code_point st) 6) (Z.land b 0x3F) in
    let seen := bytes_seen st + 1 in
    if seen =? bytes_needed st then ([cp], utf8_initial)
    else ([], mkUtf8 cp seen (bytes_needed st) 0x80 0xBF).

Fixpoint utf8_run (st : utf8_state) (bytes : list Z) : list Z :=
  match bytes with
  | [] => if bytes_needed st =? 0 then [] else [0xFFFD]
  | b :: rest =>
      let '(out, st') := utf8_step st b in
      out ++ utf8_run st' rest
  end.

(** A code point as UTF-16 code units. *)
Definition utf16_units (cp : Z) : list Z :=
  if cp <? 0x10000 then [cp]
  else [0xD800 + Z.shiftr (cp - 0x10000) 10;
        0xDC00 + Z.land (cp - 0x10000) 0x3FF].

Definition strip_bom (cps : list Z) : list Z :=
  match cps with
  | c :: rest => if c =? 0xFEFF then rest else cps
  | [] => []
  end.

(** [textDecoder.decode(bytes)]. *)
Definition decode (bytes : Uint8Array) : Js.JsString :=
  flat_map utf16_units
    (strip_bom (utf8_run utf8_initial (map byte.unsigned bytes))).

(** A string without unpaired surrogates, of 16-bit code units. *)
Fixpoint well_formed (s : Js.JsString) : bool :=
  match s with
  | [] => true
  | c :: rest =>
      if is_lead c then
        match rest with
        | d :: rest' => is_trail d && well_formed rest'
        | [] => false
        end
      else (0 <=? c) && (c <=? 0xFFFF) && negb (is_trail c) && well_formed rest
  end.

Definition starts_with_bom (s : Js.JsString) : bool :=
  match s with
  | c :: _ => c =? 0xFEFF
  | [] => false
  end.

End Encoding.

Definition encodeErrorResponse (id code : Z) (message : Js.JsString) : Uint8Array :=
  let msgBytes := Encoding.encode message in
  let body := replicate (4 + length msgBytes) Byte.x00 in
  let body := write32 body 0 code in
  let body := set_from body msgBytes 4 in
  encodeMessage (MessageType_value ErrorResponse) id 0 body.

Definition decodeErrorResponse (body : Uint8Array) : Z * Js.JsString :=
  let code := readI32 body 0 in
  let message := Encoding.decode (subarray_from body 4) in
  (code, message).

(** ** JavaScript [Map]: iteration follows insertion order, [set] on a
    present key keeps the key's position. *)

Module JsMap.

Definition t (V : Type) : Type := list (Z * V).

Fixpoint get {V} (m : t V) (k : Z) : option V :=
  match m with
  | [] => None
  | (k', v) :: m' => if k' =? k then Some v else get m' k
  end.

Fixpoint set {V} (m : t V) (k : Z) (v : V) : t V :=
  match m with
  | [] => [(k, v)]
  | (k', v') :: m' => if k' =? k then (k', v) :: m' else (k', v') :: set m' k v
  end.

Fixpoint delete {V} (m : t V) (k : Z) : t V :=
  match m with
  | [] => []
  | (k', v') :: m' => if k' =? k then m' else (k', v') :: delete m' k
  end.

Definition size {V} (m : t V) : nat := length m.
Definition entries {V} (m : t V) : list (Z * V) := m.
Definition values {V} (m : t V) : list V := map snd m.
Definition keys {V} (m : t V) : list Z := map fst m.
Definition clear {V} (m : t V) : t V := [].

(** Keys are unique. *)
Definition wf {V} (m : t V) : Prop := NoDup (keys m).

End JsMap.

(** ** Thrown values, callbacks and the objects of the serialization toolkit *)

(** What the code reads of a caught value that is neither [null] nor
    [undefined]: the text of [e.message] and of [e.toString()], as the
    text encoder takes them. *)
Record JsError := mkJsError {
  error_message : Js.JsString;
  error_toString : Js.JsString;
}.

(** The TypeError of reading a property of [undefined] or of [null]. *)
Definition TypeError_undefined (property : string) : JsError :=
  mkJsError
    (Js.lit ("Cannot read properties of undefined (reading '" ++ property ++ "')")%string)
    (Js.lit ("TypeError: Cannot read properties of undefined (reading '"
             ++ property ++ "')")%string).

Definition TypeError_null (property : string) : JsError :=
  mkJsError
    (Js.lit ("Cannot read properties of null (reading '" ++ property ++ "')")%string)
    (Js.lit ("TypeError: Cannot read properties of null (reading '"
             ++ property ++ "')")%string).

(** A [throw] statement takes any value: what a callback throws and what
    a promise is rejected with may be [undefined] or [null]. *)
Inductive Thrown :=
| ThrownUndefined
| ThrownNull
| ThrownValue (e : JsError).

(** [(e as Error).message] and [err.toString()] in a [catch] block: the
    text, or the TypeError that the read itself throws. *)
Definition message_of (e : Thrown) : JsError + Js.JsString :=
  match e with
  | ThrownUndefined => inl (TypeError_undefined "message")
  | ThrownNull => inl (TypeError_null "message")
  | ThrownValue err => inr (error_message err)
  end.

Definition toString_of (e : Thrown) : JsError + Js.JsString :=
  match e with
  | ThrownUndefined => inl (TypeError_undefined "toString")
  | ThrownNull => inl (TypeError_null "toString")
  | ThrownValue err => inr (error_toString err)
  end.

(** An [FBPackable]: what [packFBWithBuilder] obtains from [obj.pack] on
    the cleared builder, the serialized bytes or the value thrown. *)
Record FBPackable := mkPackable {
  pack : Thrown + Uint8Array;
}.

Definition packFBWithBuilder (obj : FBPackable) : Thrown + Uint8Array := pack obj.

Inductive GuardType := Guard | RequestGuard | AppDataGuard.

Section Peer.

(** The application context type of the peer and the type of the
    readers that the schema's constructors build. *)
Context {AppDataType FBTable : Type}.

(** A reader class [new () => FBTable], by what [new Ctor().__init(i, bb)]
    returns or throws on the byte buffer's bytes. *)
Record Ctor := mkCtor {
  __init : Z -> Uint8Array -> Thrown + FBTable;
}.

(** [bb.readInt32(bb.position())] of a fresh [ByteBuffer] is the
    little-endian signed read at position 0. *)
Definition unpackFB (C : Ctor) (bytes : Uint8Array) : Thrown + FBTable :=
  __init C (readI32 bytes 0 + 0) bytes.

Record MethodDef := mkMethodDef {
  def_Req : Ctor;
  def_Res : option Ctor;
}.

Definition SchemaDef : Type := gmap Z MethodDef.

(** Values that handlers return; a promise is given by how it settles. *)
Inductive Settled :=
| Fulfilled (res : option FBPackable)
| Rejected (e : Thrown).

Inductive Value :=
| VUndefined
| VThenable (p : Settled)
| VObject (o : FBPackable).

Inductive Completion :=
| Return (v : Value)
| Throw (e : Thrown).

Inductive Arg :=
| ArgReq (req : FBTable)
| ArgAppData (appData : AppDataType).

Definition AnyFunction : Type := list Arg -> Completion.

(** The transport sink [(data, appData) => void]: [None] when the call
    returns, the value thrown otherwise. *)
Definition TransportCallback : Type := Uint8Array -> AppDataType -> option Thrown.

Record GuardEntry := mkGuard {
  guard_type : GuardType;
  guard_fn : AnyFunction;
}.

Record HandlerEntry := mkHandlerEntry {
  Req : Ctor;
  Res : option Ctor;
  fn : AnyFunction;
  guards : list GuardEntry;
}.

(** [resolve] and [reject] belong to one promise, named by [waiter]. *)
Record PendingRequest := mkPendingRequest {
  id : Z;
  method : Z;
  waiter : nat;
  timestamp : Z;
}.

(** A call of a waiter's [resolve] or [reject] by the peer. *)
Inductive Settlement :=
| Resolve (w : nat) (value : option FBTable)
| Reject (w : nat) (error : FbRpcError).

(** The reactions [.then(...).catch(...)] attached to a handler's
    promise: [job_result] is the settlement that the next reaction to run
    sees, the promise's own at first. *)
Record Job := mkJob {
  job_id : Z;
  job_method : Z;
  job_appData : AppDataType;
  job_hasRes : bool;
  job_result : Settled;
}.

(** The peer, the handler entries it shares with its handles, the
    module-level id counter (one variable for all the peers of the
    module) and the effects so far: the calls of the sink, of [resolve]
    and [reject], of handlers and guards, and the promises of [request]
    that the runtime rejected because the executor threw.  Clock readings
    are integral ticks. *)
Record FbRpc := mkFbRpc {
  requestTimeout : Z;
  toTransport : option TransportCallback;
  dispatcher : JsMap.t nat;
  pendingRequests : JsMap.t PendingRequest;
  schema : SchemaDef;
  timeoutCheckInterval : option nat;
  requestIdCounter : Z;
  heap : list HandlerEntry;
  timers : nat;
  promises : nat;
  jobs : list Job;
  sent : list (TransportCallback * Uint8Array * AppDataType);
  settlements : list Settlement;
  rejected_by_runtime : list (nat * Thrown);
  calls : list (AnyFunction * list Arg);
}.

Definition set_toTransport (v : option TransportCallback) (st : FbRpc) : FbRpc :=
  mkFbRpc (requestTimeout st) v (dispatcher st) (pendingRequests st) (schema st)
          (timeoutCheckInterval st) (requestIdCounter st) (heap st) (timers st) (promises st)
          (jobs st) (sent st) (settlements st) (rejected_by_runtime st) (calls st).

Definition set_dispatcher (v : JsMap.t nat) (st : FbRpc) : FbRpc :=
  mkFbRpc (requestTimeout st) (toTransport st) v (pendingRequests st) (schema st)
          (timeoutCheckInterval st) (requestIdCounter st) (heap st) (timers st) (promises st)
          (jobs st) (sent st) (settlements st) (rejected_by_runtime st) (calls st).

Definition set_pendingRequests (v : JsMap.t PendingRequest) (st : FbRpc) : FbRpc :=
  mkFbRpc (requestTimeout st) (toTransport st) (dispatcher st) v (schema st)
          (timeoutCheckInterval st) (requestIdCounter st) (heap st) (timers st) (promises st)
          (jobs st) (sent st) (settlements st) (rejected_by_runtime st) (calls st).

Definition set_timeoutCheckInterval (v : option nat) (st : FbRpc) : FbRpc :=
  mkFbRpc (requestTimeout st) (toTransport st) (dispatcher st) (pendingRequests st) (schema st)
          v (requestIdCounter st) (heap st) (timers st) (promises st)
          (jobs st) (sent st) (settlements st) (rejected_by_runtime st) (calls st).

Definition set_requestIdCounter (v : Z) (st : FbRpc) : FbRpc :=
  mkFbRpc (requestTimeout st) (toTransport st) (dispatcher st) (pendingRequests st) (schema st)
          (timeoutCheckInterval st) v (heap st) (timers st) (promises st)
          (jobs st) (sent st) (settlements st) (rejected_by_runtime st) (calls st).

Definition set_heap (v : list HandlerEntry) (st : FbRpc) : FbRpc :=
  mkFbRpc (requestTimeout st) (toTransport st) (dispatcher st) (pendingRequests st) (schema st)
          (timeoutCheckInterval st) (requestIdCounter st) v (timers st) (promises st)
          (jobs st) (sent st) (settlements st) (rejected_by_runtime st) (calls st).

Definition set_timers (v : nat) (st : FbRpc) : FbRpc :=
  mkFbRpc (requestTimeout st) (toTransport st) (dispatcher st) (pendingRequests st) (schema st)
          (timeoutCheckInterval st) (requestIdCounter st) (heap st) v (promises st)
          (jobs st) (sent st) (settlements st) (rejected_by_runtime st) (calls st).

Definition set_promises (v : nat) (st : FbRpc) : FbRpc :=
  mkFbRpc (requestTimeout st) (toTransport st) (dispatcher st) (pendingRequests st) (schema st)
          (timeoutCheckInterval st) (requestIdCounter st) (heap st) (timers st) v
          (jobs st) (sent st) (settlements st) (rejected_by_runtime st) (calls st).

Definition set_jobs (v : list Job) (st : FbRpc) : FbRpc :=
  mkFbRpc (requestTimeout st) (toTransport st) (dispatcher st) (pendingRequests st) (schema st)
          (timeoutCheckInterval st) (requestIdCounter st) (heap st) (timers st) (promises st)
          v (sent st) (settlements st) (rejected_by_runtime st) (calls st).

Definition set_sent (v : list (TransportCallback * Uint8Array * AppDataType)) (st : FbRpc) : FbRpc :=
  mkFbRpc (requestTimeout st) (toTransport st) (dispatcher st) (pendingRequests st) (schema st)
          (timeoutCheckInterval st) (requestIdCounter st) (heap st) (timers st) (promises st)
          (jobs st) v (settlements st) (rejected_by_runtime st) (calls st).

Definition set_settlements (v : list Settlement) (st : FbRpc) : FbRpc :=
  mkFbRpc (requestTimeout st) (toTransport st) (dispatcher st) (pendingRequests st) (schema st)
          (timeoutCheckInterval st) (requestIdCounter st) (heap st) (timers st) (promises st)
          (jobs st) (sent st) v (rejected_by_runtime st) (calls st).

Definition set_rejected_by_runtime (v : list (nat * Thrown)) (st : FbRpc) : FbRpc :=
  mkFbRpc (requestTimeout st) (toTransport st) (dispatcher st) (pendingRequests st) (schema st)
          (timeoutCheckInterval st) (requestIdCounter st) (heap st) (timers st) (promises st)
          (jobs st) (sent st) (settlements st) v (calls st).

Definition set_calls (v : list (AnyFunction * list Arg)) (st : FbRpc) : FbRpc :=
  mkFbRpc (requestTimeout st) (toTransport st) (dispatcher st) (pendingRequests st) (schema st)
          (timeoutCheckInterval st) (requestIdCounter st) (heap st) (timers st) (promises st)
          (jobs st) (sent st) (settlements st) (rejected_by_runtime st) v.

(** *** Construction and registration *)

(** [new FbRpc(schema, options)]; [counter] is the module's id counter
    at that moment. *)
Definition new_FbRpc (schema : SchemaDef) (options_requestTimeout : option Z)
    (counter : Z) : FbRpc :=
  mkFbRpc (match options_requestTimeout with Some t => t | None => 5000 end)
          None [] [] schema None counter [] 0 0 [] [] [] [] [].

Definition registerToTransportCallback (cb : TransportCallback) (st : FbRpc) : FbRpc :=
  set_toTransport (Some cb) st.

(** The handle holds a reference to the entry. *)
Record DispatcherHandler := mkDispatcherHandler { entry : nat }.

(** [inl e]: reading [this.schema[method].Req] throws. *)
Definition registerHandler (method : Z) (handler : AnyFunction) (st : FbRpc)
    : (JsError + DispatcherHandler) * FbRpc :=
  match schema st !! method with
  | None => (inl (TypeError_undefined "Req"), st)
  | Some def =>
      let entry := mkHandlerEntry (def_Req def) (def_Res def) handler [] in
      let ref := length (heap st) in
      let st := set_heap (heap st ++ [entry]) st in
      let st := set_dispatcher (JsMap.set (dispatcher st) method ref) st in
      (inr (mkDispatcherHandler ref), st)
  end.

Definition push_guard (h : DispatcherHandler) (g : GuardEntry) (st : FbRpc) : FbRpc :=
  match heap st !! entry h with
  | Some e =>
      set_heap (<[entry h := mkHandlerEntry (Req e) (Res e) (fn e) (guards e ++ [g])]> (heap st)) st
  | None => st
  end.

Definition addGuard (h : DispatcherHandler) (fn : AnyFunction) (st : FbRpc) : FbRpc :=
  push_guard h (mkGuard Guard fn) st.

Definition addRequestGuard (h : DispatcherHandler) (fn : AnyFunction) (st : FbRpc) : FbRpc :=
  push_guard h (mkGuard RequestGuard fn) st.

Definition addAppDataGuard (h : DispatcherHandler) (fn : AnyFunction) (st : FbRpc) : FbRpc :=
  push_guard h (mkGuard AppDataGuard fn) st.

(** *** Private helpers *)

Definition packFB (obj : FBPackable) : Thrown + Uint8Array := packFBWithBuilder obj.

(** The call of the sink, when one is set, is recorded whether it returns
    or throws; what it throws is thrown on. *)
Definition callToTransport (data : Uint8Array) (appData : AppDataType) (st : FbRpc)
    : option Thrown * FbRpc :=
  match toTransport st with
  | Some cb => (cb data appData, set_sent (sent st ++ [(cb, data, appData)]) st)
  | None => (None, st)
  end.

Definition stopTimeoutChecker (st : FbRpc) : FbRpc :=
  match timeoutCheckInterval st with
  | Some _ => set_timeoutCheckInterval None st
  | None => st
  end.

Definition do_resolve (request : PendingRequest) (value : option FBTable) (st : FbRpc) : FbRpc :=
  set_settlements (settlements st ++ [Resolve (waiter request) value]) st.

Definition do_reject (request : PendingRequest) (error : FbRpcError) (st : FbRpc) : FbRpc :=
  set_settlements (settlements st ++ [Reject (waiter request) error]) st.

Definition rejectPendingRequests (error : FbRpcError) (st : FbRpc) : FbRpc :=
  let st := fold_left (fun st request => do_reject request error st)
                      (JsMap.values (pendingRequests st)) st in
  let st := set_pendingRequests (JsMap.clear (pendingRequests st)) st in
  stopTimeoutChecker st.

(** [handler.guards.length = 0] on an entry of the heap. *)
Definition clear_guards (ref : nat) (st : FbRpc) : FbRpc :=
  match heap st !! ref with
  | Some e => set_heap (<[ref := mkHandlerEntry (Req e) (Res e) (fn e) []]> (heap st)) st
  | None => st
  end.

Definition resetDispatcher (st : FbRpc) : FbRpc :=
  let st := fold_left (fun st handler => clear_guards handler st)
                      (JsMap.values (dispatcher st)) st in
  set_dispatcher (JsMap.clear (dispatcher st)) st.

(** *** The timeout checker *)

(** The first loop of the interval callback, with its [break]. *)
Fixpoint timedOutRequests (now timeout : Z) (entries : list (Z * PendingRequest)) : list Z :=
  match entries with
  | [] => []
  | (id, request) :: rest =>
      if now - timestamp request >=? timeout
      then id :: timedOutRequests now timeout rest
      else []
  end.

(** The body of the second loop. *)
Definition expire (st : FbRpc) (id : Z) : FbRpc :=
  match JsMap.get (pendingRequests st) id with
  | Some request =>
      let st := set_pendingRequests (JsMap.delete (pendingRequests st) id) st in
      do_reject request
        (mkFbRpcError (kind_code FB_RPC_ERRORS.REQUEST_TIMEOUT)
                      (kind_message FB_RPC_ERRORS.REQUEST_TIMEOUT) (-1) [])
        st
  | None => st
  end.

(** The interval callback, at clock reading [now]. *)
Definition timeoutCheck (now : Z) (st : FbRpc) : FbRpc :=
  let timedOut := timedOutRequests now (requestTimeout st)
                                   (JsMap.entries (pendingRequests st)) in
  let st := fold_left expire timedOut st in
  if (JsMap.size (pendingRequests st) =? 0)%nat then stopTimeoutChecker st else st.

(** A tick of the clock: the callback runs while the interval is set. *)
Definition tick (now : Z) (st : FbRpc) : FbRpc :=
  match timeoutCheckInterval st with
  | Some _ => timeoutCheck now st
  | None => st
  end.

Definition startTimeoutChecker (st : FbRpc) : FbRpc :=
  match timeoutCheckInterval st with
  | Some _ => st
  | None =>
      let st := set_timeoutCheckInterval (Some (timers st)) st in
      set_timers (S (timers st)) st
  end.

(** *** Outbound operations *)

(** The module-level [generateRequestId], on the module-level counter. *)
Definition generateRequestId (st : FbRpc) : Z * FbRpc :=
  let id := Js.ushr0 (requestIdCounter st + 1) in
  (id, set_requestIdCounter id st).

(** [request(method, req, appData)] at clock reading [now]: the promise
    returned, or the value that [req.pack] throws.  The executor runs
    inside [new Promise]: what the sink throws there does not leave
    [request], the runtime rejects the promise with it. *)
Definition request (method : Z) (req : FBPackable) (appData : AppDataType)
    (now : Z) (st : FbRpc) : (Thrown + nat) * FbRpc :=
  let '(id, st) := generateRequestId st in
  match packFB req with
  | inl e => (inl e, st)
  | inr body =>
      let msg := encodeMessage (MessageType_value Request) id method body in
      let promise := promises st in
      let st := set_promises (S promise) st in
      let st := set_pendingRequests
                  (JsMap.set (pendingRequests st) id
                             (mkPendingRequest id method promise now)) st in
      let st := if (JsMap.size (pendingRequests st) =? 1)%nat
                then startTimeoutChecker st else st in
      let '(thrown, st) := callToTransport msg appData st in
      let st := match thrown with
                | Some e => set_rejected_by_runtime (rejected_by_runtime st ++ [(promise, e)]) st
                | None => st
                end in
      (inr promise, st)
  end.

Definition notify (method : Z) (req : FBPackable) (appData : AppDataType)
    (st : FbRpc) : option Thrown * FbRpc :=
  match packFB req with
  | inl e => (Some e, st)
  | inr body =>
      callToTransport (encodeMessage (MessageType_value Notification) 0 method body) appData st
  end.

Definition encodeNotification (method : Z) (req : FBPackable) : Thrown + Uint8Array :=
  match packFB req with
  | inl e => inl e
  | inr body => inr (encodeMessage (MessageType_value Notification) 0 method body)
  end.

(** *** Inbound dispatch *)

(** A call of a callback: its completion, and the call recorded. *)
Definition call (f : AnyFunction) (args : list Arg) (st : FbRpc) : Completion * FbRpc :=
  (f args, set_calls (calls st ++ [(f, args)]) st).

(** The arguments the [switch] on the guard's type passes. *)
Definition guard_args (guard : GuardEntry) (req : FBTable) (appData : AppDataType) : list Arg :=
  match guard_type guard with
  | Guard => [ArgReq req; ArgAppData appData]
  | RequestGuard => [ArgReq req]
  | AppDataGuard => [ArgAppData appData]
  end.

(** The guard loop inside its [try]: the caught value, if any. *)
Fixpoint run_guards (gs : list GuardEntry) (req : FBTable) (appData : AppDataType)
    (st : FbRpc) : option Thrown * FbRpc :=
  match gs with
  | [] => (None, st)
  | guard :: gs' =>
      let '(c, st) := call (guard_fn guard) (guard_args guard req appData) st in
      match c with
      | Throw e => (Some e, st)
      | Return _ => run_guards gs' req appData st
      end
  end.

(** [this.callToTransport(encodeErrorResponse(id, code, text), appData)]
    in a [catch] block or [catch] reaction, where [text] reads a property
    of the caught value: the arguments are evaluated first, so that the
    TypeError of the read is thrown whether or not a sink is set. *)
Definition sendError (id code : Z) (text : JsError + Js.JsString) (appData : AppDataType)
    (st : FbRpc) : option Thrown * FbRpc :=
  match text with
  | inl typeError => (Some (ThrownValue typeError), st)
  | inr message => callToTransport (encodeErrorResponse id code message) appData st
  end.

(** What both the synchronous path and the [then] reaction do with a
    value that is not a promise; what [packFB] or the sink throws is
    thrown on, to the enclosing [catch]. *)
Definition respond (id method : Z) (hasRes : bool) (res : option FBPackable)
    (appData : AppDataType) (st : FbRpc) : option Thrown * FbRpc :=
  match res with
  | None => callToTransport (encodeVoidResponse id method) appData st
  | Some obj =>
      if negb hasRes then callToTransport (encodeVoidResponse id method) appData st
      else
        match packFB obj with
        | inr body =>
            callToTransport
              (encodeMessage (MessageType_value Response) id method body) appData st
        | inl e => (Some e, st)
        end
  end.

(** The [try] block around the handler call: the value caught, if any. *)
Definition try_handler (msg : DecodedMessage) (appData : AppDataType) (handler : HandlerEntry)
    (req : FBTable) (st : FbRpc) : option Thrown * FbRpc :=
  let isNotif := msg_type msg =? MessageType_value Notification in
  let hasRes := match Res handler with Some _ => true | None => false end in
  let '(c, st) := call (fn handler) [ArgReq req; ArgAppData appData] st in
  match c with
  | Throw err => (Some err, st)
  | Return result =>
      if isNotif then (None, st)
      else
        match result with
        | VThenable p =>
            (None, set_jobs (jobs st ++ [mkJob (msg_id msg) (msg_method msg)
                                               appData hasRes p]) st)
        | VUndefined => respond (msg_id msg) (msg_method msg) hasRes None appData st
        | VObject obj => respond (msg_id msg) (msg_method msg) hasRes (Some obj) appData st
        end
  end.

(** [handleRequest]: the value that leaves it uncaught, if any. *)
Definition handleRequest (msg : DecodedMessage) (appData : AppDataType) (st : FbRpc)
    : option Thrown * FbRpc :=
  let isNotif := msg_type msg =? MessageType_value Notification in
  match JsMap.get (dispatcher st) (msg_method msg) with
  | None =>
      if negb isNotif then
        callToTransport
          (encodeErrorResponse (msg_id msg) (kind_code FB_RPC_ERRORS.METHOD_NOT_FOUND)
                               (kind_message FB_RPC_ERRORS.METHOD_NOT_FOUND))
          appData st
      else (None, st)
  | Some ref =>
      match heap st !! ref with
      | None => (None, st) (* no reference dangles *)
      | Some handler =>
          match unpackFB (Req handler) (msg_body msg) with
          | inl e =>
              if negb isNotif then
                sendError (msg_id msg) (kind_code FB_RPC_ERRORS.INVALID_REQUEST)
                          (message_of e) appData st
              else (None, st)
          | inr req =>
              match run_guards (guards handler) req appData st with
              | (Some err, st) =>
                  if isNotif then (None, st)
                  else
                    sendError (msg_id msg) (kind_code FB_RPC_ERRORS.GUARD_ERROR)
                              (toString_of err) appData st
              | (None, st) =>
                  match try_handler msg appData handler req st with
                  | (Some err, st) =>
                      if isNotif then (None, st)
                      else
                        sendError (msg_id msg) (kind_code FB_RPC_ERRORS.APPLICATION_ERROR)
                                  (message_of err) appData st
                  | (None, st) => (None, st)
                  end
              end
          end
      end
  end.

(** One reaction on the promise of the reaction record at index [i], in
    whatever order the promises settle.  On a fulfilled promise the [then]
    reaction runs; what it throws rejects the promise that [then]
    returned, and the [catch] reaction is left to run later.  On a rejected
    one the [catch] reaction runs; what it throws is an unhandled
    rejection, returned here. *)
Definition run_job (i : nat) (st : FbRpc) : option Thrown * FbRpc :=
  match jobs st !! i with
  | None => (None, st)
  | Some j =>
      match job_result j with
      | Fulfilled res =>
          match respond (job_id j) (job_method j) (job_hasRes j) res (job_appData j) st with
          | (None, st) => (None, set_jobs (delete i (jobs st)) st)
          | (Some e, st) =>
              (None, set_jobs (<[i := mkJob (job_id j) (job_method j) (job_appData j)
                                            (job_hasRes j) (Rejected e)]> (jobs st)) st)
          end
      | Rejected e =>
          sendError (job_id j) (kind_code FB_RPC_ERRORS.APPLICATION_ERROR) (message_of e)
                    (job_appData j) (set_jobs (delete i (jobs st)) st)
      end
  end.

(** The [try] block of [handleResponse]: the value to resolve with, or
    the value caught. *)
Definition try_response (pendingRequest : PendingRequest) (msg : DecodedMessage) (st : FbRpc)
    : Thrown + option FBTable :=
  match schema st !! method pendingRequest with
  | None => inl (ThrownValue (TypeError_undefined "Res"))
  | Some def =>
      match def_Res def with
      | None => inr None
      | Some Res =>
          match unpackFB Res (msg_body msg) with
          | inr res => inr (Some res)
          | inl e => inl e
          end
      end
  end.

(** [handleResponse]: the value that leaves it uncaught, if any. *)
Definition handleResponse (msg : DecodedMessage) (st : FbRpc) : option Thrown * FbRpc :=
  match JsMap.get (pendingRequests st) (msg_id msg) with
  | None => (None, st)
  | Some pendingRequest =>
      let st := set_pendingRequests (JsMap.delete (pendingRequests st) (msg_id msg)) st in
      let st := if (JsMap.size (pendingRequests st) =? 0)%nat
                then stopTimeoutChecker st else st in
      if (length (msg_body msg) =? 0)%nat then (None, do_resolve pendingRequest None st)
      else
        match try_response pendingRequest msg st with
        | inr value => (None, do_resolve pendingRequest value st)
        | inl e =>
            match message_of e with
            | inr message =>
                (None, do_reject pendingRequest
                         (mkFbRpcError (kind_code FB_RPC_ERRORS.INVALID_REQUEST)
                                       message (msg_id msg) [])
                         st)
            | inl typeError => (Some (ThrownValue typeError), st)
            end
        end
  end.

Definition handleErrorResponse (msg : DecodedMessage) (st : FbRpc) : FbRpc :=
  match JsMap.get (pendingRequests st) (msg_id msg) with
  | None => st
  | Some pendingRequest =>
      let st := set_pendingRequests (JsMap.delete (pendingRequests st) (msg_id msg)) st in
      let st := if (JsMap.size (pendingRequests st) =? 0)%nat
                then stopTimeoutChecker st else st in
      let '(code, message) := decodeErrorResponse (msg_body msg) in
      do_reject pendingRequest (mkFbRpcError code message (msg_id msg) []) st
  end.

(** [fromTransport]: the value that it throws, if any. *)
Definition fromTransport (data : Uint8Array) (appData : AppDataType) (st : FbRpc)
    : option Thrown * FbRpc :=
  match decodeMessage data with
  | inl _ =>
      callToTransport
        (encodeErrorResponse (-1) (kind_code FB_RPC_ERRORS.PARSE_ERROR)
                             (kind_message FB_RPC_ERRORS.PARSE_ERROR))
        appData st
  | inr msg =>
      if (msg_type msg =? MessageType_value Request)
         || (msg_type msg =? MessageType_value Notification)
      then handleRequest msg appData st
      else if msg_type msg =? MessageType_value Response then handleResponse msg st
      else if msg_type msg =? MessageType_value ErrorResponse
           then (None, handleErrorResponse msg st)
      else (None, st)
  end.

Definition clean (reason : Js.JsString) (st : FbRpc) : FbRpc :=
  let st := rejectPendingRequests
              (mkFbRpcError (kind_code FB_RPC_ERRORS.INTERNAL_ERROR)
                            (kind_message FB_RPC_ERRORS.INTERNAL_ERROR) (-1) reason) st in
  let st := resetDispatcher st in
  let st := stopTimeoutChecker st in
  set_toTransport None st.

(** *** Operations of a peer and the states they reach *)

(** What happens to a peer: the calls of its methods, the ticks of its
    interval, the reactions on its handlers' promises, and the calls of
    [request] on the other peers of the module, which take an id from the
    same counter. *)
Inductive Op :=
| OpRegisterToTransportCallback (cb : TransportCallback)
| OpRegisterHandler (method : Z) (handler : AnyFunction)
| OpAddGuard (h : DispatcherHandler) (fn : AnyFunction)
| OpAddRequestGuard (h : DispatcherHandler) (fn : AnyFunction)
| OpAddAppDataGuard (h : DispatcherHandler) (fn : AnyFunction)
| OpRequest (method : Z) (req : FBPackable) (appData : AppDataType) (now : Z)
| OpNotify (method : Z) (req : FBPackable) (appData : AppDataType)
| OpFromTransport (data : Uint8Array) (appData : AppDataType)
| OpClean (reason : Js.JsString)
| OpTick (now : Z)
| OpRunJob (i : nat)
| OpGenerateRequestId.

(** The state after an operation; what the operation throws goes to its
    caller. *)
Definition step (op : Op) (st : FbRpc) : FbRpc :=
  match op with
  | OpRegisterToTransportCallback cb => registerToTransportCallback cb st
  | OpRegisterHandler method handler => snd (registerHandler method handler st)
  | OpAddGuard h fn => addGuard h fn st
  | OpAddRequestGuard h fn => addRequestGuard h fn st
  | OpAddAppDataGuard h fn => addAppDataGuard h fn st
  | OpRequest method req appData now => snd (request method req appData now st)
  | OpNotify method req appData => snd (notify method req appData st)
  | OpFromTransport data appData => snd (fromTransport data appData st)
  | OpClean reason => clean reason st
  | OpTick now => tick now st
  | OpRunJob i => snd (run_job i st)
  | OpGenerateRequestId => snd (generateRequestId st)
  end.

(** The state after a history of operations, oldest first. *)
Definition run (ops : list Op) (st : FbRpc) : FbRpc :=
  fold_left (fun st op => step op st) ops st.

(** The timeout-checker invariant. *)
Definition checker_invariant (st : FbRpc) : Prop :=
  timeoutCheckInterval st <> None <-> pendingRequests st <> [].

End Peer.

Arguments Ctor : clear implicits.
Arguments MethodDef : clear implicits.
Arguments SchemaDef : clear implicits.
Arguments Arg : clear implicits.
Arguments AnyFunction : clear implicits.
Arguments GuardEntry : clear implicits.
Arguments HandlerEntry : clear implicits.
Arguments Settlement : clear implicits.
Arguments Job : clear implicits.
Arguments FbRpc : clear implicits.
Arguments Op : clear implicits.
Arguments Completion : clear implicits.
Arguments TransportCallback : clear implicits.

(** ** Auxiliary definitions for the statements *)

(** The twelve header bytes that [encodeMessage] writes. *)
Definition header (type id method len : Z) : Uint8Array :=
  [ Js.ToUint8 type; Byte.x00;
    Js.ToUint8 method; Js.ToUint8 (Js.shr method 8);
    Js.ToUint8 id; Js.ToUint8 (Js.shr id 8);
    Js.ToUint8 (Js.shr id 16); Js.ToUint8 (Js.shr id 24);
    Js.ToUint8 len; Js.ToUint8 (Js.shr len 8);
    Js.ToUint8 (Js.shr len 16); Js.ToUint8 (Js.shr len 24) ].

(** A Unicode scalar value. *)
Definition is_scalar (cp : Z) : Prop :=
  0 <= cp <= 0x10FFFF /\ ~ (0xD800 <= cp <= 0xDFFF).

(** The body that [encodeErrorResponse] builds. *)
Definition error_body (code : Z) (message : Js.JsString) : Uint8Array :=
  [ Js.ToUint8 code; Js.ToUint8 (Js.shr code 8);
    Js.ToUint8 (Js.shr code 16); Js.ToUint8 (Js.shr code 24) ]
  ++ Encoding.encode message.

Section Auxiliary.

Context {AppDataType FBTable : Type}.

(** The entries that a sweep at [now] marks: the longest prefix of the
    table whose entries are all expired. *)
Fixpoint expired_prefix (now timeout : Z) (entries : list (Z * @PendingRequest))
    : list (Z * PendingRequest) :=
  match entries with
  | [] => []
  | (id, request) :: rest =>
      if now - timestamp request >=? timeout
      then (id, request) :: expired_prefix now timeout rest
      else []
  end.

(** [st'] differs from [st] at most in the effects recorded (frames sent,
    callbacks called, continuations scheduled), and sent nothing if [st]
    has no sink. *)
Definition only_effects (st st' : FbRpc AppDataType FBTable) : Prop :=
  requestTimeout st' = requestTimeout st
  /\ toTransport st' = toTransport st
  /\ dispatcher st' = dispatcher st
  /\ pendingRequests st' = pendingRequests st
  /\ schema st' = schema st
  /\ timeoutCheckInterval st' = timeoutCheckInterval st
  /\ heap st' = heap st
  /\ settlements st' = settlements st
  /\ (toTransport st = None -> sent st' = sent st).

(** Operations other than the registration of a sink. *)
Definition keeps_sink (op : Op AppDataType FBTable) : Prop :=
  match op with
  | OpRegisterToTransportCallback _ => False
  | _ => True
  end.

End Auxiliary.

(** ** A small peer configuration *)

Module Demo.

(** Readers are the first byte of the buffer; the application context
    tells whether the session is authenticated. *)
Definition reader : Ctor Z := mkCtor (fun _ bytes => inr (load bytes 0)).

(** A sink that takes every frame. *)
Definition sink : TransportCallback bool := fun _ _ => None.

Definition demo_schema : SchemaDef Z :=
  <[0 := mkMethodDef reader (Some reader)]> (<[3 := mkMethodDef reader None]> ∅).

Definition add_handler : AnyFunction bool Z := fun _ => Return VUndefined.

Definition authenticated : AnyFunction bool Z :=
  fun args =>
    match args with
    | [ArgAppData true] => Return VUndefined
    | _ => Throw (ThrownValue (mkJsError (Js.lit "Unauthorized")
                                         (Js.lit "Error: Unauthorized")))
    end.

Definition small_operand : AnyFunction bool Z :=
  fun args =>
    match args with
    | [ArgReq r] =>
        if r <? 128 then Return VUndefined
        else Throw (ThrownValue (mkJsError (Js.lit "Too large") (Js.lit "Error: Too large")))
    | _ => Return VUndefined
    end.

(** A peer with a sink, a handler for method 0 and two guards on it. *)
Definition server : FbRpc bool Z :=
  run [ OpRegisterToTransportCallback sink;
        OpRegisterHandler 0 add_handler;
        OpAddAppDataGuard (mkDispatcherHandler 0) authenticated;
        OpAddRequestGuard (mkDispatcherHandler 0) small_operand ]
      (new_FbRpc demo_schema None 0).

(** A peer with two requests pending, sent at clock readings 100 and 150. *)
Definition client : FbRpc bool Z :=
  run [ OpRegisterToTransportCallback sink;
        OpRequest 0 (mkPackable (inr [Byte.x2a])) true 100;
        OpRequest 3 (mkPackable (inr [])) true 150 ]
      (new_FbRpc demo_schema None 0).

(** The client after a tick at clock reading 5120. *)
Definition swept_client : FbRpc bool Z :=
  run [ OpRegisterToTransportCallback sink;
        OpRequest 0 (mkPackable (inr [Byte.x2a])) true 100;
        OpRequest 3 (mkPackable (inr [])) true 150;
        OpTick 5120 ]
      (new_FbRpc demo_schema None 0).

(** The same handler and guards on a peer whose sink was never set. *)
Definition silent_server : FbRpc bool Z :=
  run [ OpRegisterHandler 0 add_handler;
        OpAddAppDataGuard (mkDispatcherHandler 0) authenticated;
        OpAddRequestGuard (mkDispatcherHandler 0) small_operand ]
      (new_FbRpc demo_schema None 0).

(** A response class whose constructor throws [null], and a peer with one
    request pending for a method that answers with it. *)
Definition throwing_reader : Ctor Z := mkCtor (fun _ _ => inl ThrownNull).

Definition throwing_schema : SchemaDef Z :=
  <[0 := mkMethodDef reader (Some throwing_reader)]> ∅.

Definition unlucky_client : FbRpc bool Z :=
  run [ OpRegisterToTransportCallback sink;
        OpRequest 0 (mkPackable (inr [Byte.x2a])) true 100 ]
      (new_FbRpc throwing_schema None 0).

End Demo.

(** ** Further auxiliary definitions *)

Section Invariants.

Context {AppDataType FBTable : Type}.

(** [st'] is [st] with other frames sent, continuations scheduled and
    callbacks called. *)
Definition effects_of (st st' : FbRpc AppDataType FBTable) : Prop :=
  exists s j c, st' = set_sent s (set_jobs j (set_calls c st)).

(** Enqueue timestamps do not decrease along the pending table. *)
Definition timestamps_sorted (st : FbRpc AppDataType FBTable) : Prop :=
  StronglySorted (fun a b => timestamp (snd a) <= timestamp (snd b)) (pendingRequests st).

(** The promise that a call of [resolve] or [reject] settles. *)
Definition settled_waiter (s : Settlement FBTable) : nat :=
  match s with
  | Resolve w _ => w
  | Reject w _ => w
  end.

(** The promises of the pending entries followed by the promises settled
    so far. *)
Definition waiters (st : FbRpc AppDataType FBTable) : list nat :=
  map waiter (JsMap.values (pendingRequests st)) ++ map settled_waiter (settlements st).

(** Keys of the pending table are unique; no promise is both pending and
    settled, pending twice or settled twice; every promise was created. *)
Definition waiters_ok (st : FbRpc AppDataType FBTable) : Prop :=
  JsMap.wf (pendingRequests st)
  /\ NoDup (waiters st)
  /\ Forall (fun w => (w < promises st)%nat) (waiters st).

(** [st'] is [st] after some pending entries left the table, each with
    at most one call of [resolve] or [reject] on its promise. *)
Definition settles (st st' : FbRpc AppDataType FBTable) : Prop :=
  exists gone new,
    pendingRequests st ≡ₚ gone ++ pendingRequests st'
    /\ pendingRequests st' `sublist_of` pendingRequests st
    /\ settlements st' = settlements st ++ new
    /\ map settled_waiter new `sublist_of` map (fun e => waiter (snd e)) gone
    /\ promises st' = promises st
    /\ requestIdCounter st' = requestIdCounter st.


End Invariants.

(** ** A second configuration: a peer that answers *)

Module Answering.

(** A request constructor that refuses an empty buffer. *)
Definition picky : Ctor Z :=
  mkCtor (fun _ bytes =>
            match bytes with
            | [] => inl (ThrownValue (mkJsError (Js.lit "empty buffer")
                                                (Js.lit "Error: empty buffer")))
            | b :: _ => inr (byte.unsigned b)
            end).

Definition picky_schema : SchemaDef Z :=
  <[0 := mkMethodDef picky (Some picky)]> (<[3 := mkMethodDef picky None]> ∅).

(** Method 0 answers with the successor of its operand, now or later. *)
Definition sink : TransportCallback bool := fun _ _ => None.

Definition successor (r : Z) : FBPackable := mkPackable (inr [byte.of_Z (r + 1)]).

Definition succ_handler : AnyFunction bool Z :=
  fun args =>
    match args with
    | ArgReq r :: _ => Return (VObject (successor r))
    | _ => Return VUndefined
    end.

Definition later_handler : AnyFunction bool Z :=
  fun args =>
    match args with
    | ArgReq r :: _ => Return (VThenable (Fulfilled (Some (successor r))))
    | _ => Return VUndefined
    end.

Definition ping_handler : AnyFunction bool Z := fun _ => Return VUndefined.

Definition server : FbRpc bool Z :=
  run [ OpRegisterToTransportCallback sink;
        OpRegisterHandler 0 succ_handler;
        OpRegisterHandler 3 ping_handler ]
      (new_FbRpc picky_schema None 0).

Definition later_server : FbRpc bool Z :=
  run [ OpRegisterToTransportCallback sink;
        OpRegisterHandler 0 later_handler ]
      (new_FbRpc picky_schema None 0).

End Answering.


(** * Bit arithmetic of the little-endian reads and writes *)

Lemma testbit_small (lo n i : Z) : 0 <= lo < 2 ^ n -> n <= i -> Z.testbit lo i = false.
Proof.
  intros Hlo Hi.
  assert (0 <= n \/ n < 0) as [Hn|Hn] by lia.
  - apply Z.testbit_false; [lia|].
    rewrite Z.div_small; [reflexivity|].
    split; [lia|]. apply Z.lt_le_trans with (2 ^ n); [lia|].
    apply Z.pow_le_mono_r; lia.
  - rewrite Z.pow_neg_r in Hlo by lia. lia.
Qed.

Lemma lor_add (k lo n : Z) : 0 <= lo < 2 ^ n -> Z.lor (k * 2 ^ n) lo = k * 2 ^ n + lo.
Proof.
  intros Hlo.
  assert (Z.land (k * 2 ^ n) lo = 0) as Hdisj.
  { apply Z.bits_inj'; intros i Hi. rewrite Z.land_spec, Z.bits_0.
    destruct (Z.lt_ge_cases i n) as [Hlt|Hge].
    - rewrite Z.mul_pow2_bits_low by lia. reflexivity.
    - rewrite (testbit_small lo n i) by lia. apply andb_false_r. }
  rewrite <- Z.lxor_lor, <- Z.add_nocarry_lxor; auto.
Qed.

Lemma ToInt32_small v : -2147483648 <= v < 2147483648 -> Js.ToInt32 v = v.
Proof. unfold Js.ToInt32. intros. zlia. Qed.

Lemma ToInt32_range v : -2147483648 <= Js.ToInt32 v < 2147483648.
Proof. unfold Js.ToInt32. zlia. Qed.

Lemma shr_div v k : 0 <= k < 32 -> Js.shr v k = Js.ToInt32 v / 2 ^ k.
Proof.
  intros Hk. unfold Js.shr.
  change 31 with (Z.ones 5). rewrite Z.land_ones by lia.
  rewrite Z.mod_small by (change (2^5) with 32; lia).
  apply Z.shiftr_div_pow2. lia.
Qed.

Lemma shl_mul v k : 0 <= k < 32 -> Js.shl v k = Js.ToInt32 (Js.ToInt32 v * 2 ^ k).
Proof.
  intros Hk. unfold Js.shl.
  change 31 with (Z.ones 5). rewrite Z.land_ones by lia.
  rewrite Z.mod_small by (change (2^5) with 32; lia).
  rewrite Z.shiftl_mul_pow2 by lia. reflexivity.
Qed.

Lemma lor_shifted (lo k m n : Z) :
  m = 2 ^ n -> 0 <= lo < m -> Z.lor lo (k * m) = lo + k * m.
Proof. intros -> Hlo. rewrite Z.lor_comm, lor_add by assumption. lia. Qed.

(** The little-endian combination computed by [readI32]'s expression. *)
Lemma combine_bytes (b0 b1 b2 b3 : Z) :
  0 <= b0 < 256 -> 0 <= b1 < 256 -> 0 <= b2 < 256 -> 0 <= b3 < 256 ->
  Js.bor (Js.bor (Js.bor b0 (Js.shl b1 8)) (Js.shl b2 16)) (Js.shl b3 24)
  = Js.ToInt32 (b0 + 256 * b1 + 65536 * b2 + 16777216 * b3).
Proof.
  intros H0 H1 H2 H3.
  rewrite !shl_mul by lia.
  change (2 ^ 8) with 256. change (2 ^ 16) with 65536. change (2 ^ 24) with 16777216.
  rewrite (ToInt32_small b1), (ToInt32_small b2), (ToInt32_small b3) by lia.
  rewrite (ToInt32_small (b1 * 256)), (ToInt32_small (b2 * 65536)) by lia.
  unfold Js.bor.
  rewrite (ToInt32_small b0), (ToInt32_small (b1 * 256)) by lia.
  rewrite (lor_shifted b0 b1 256 8) by (reflexivity || lia).
  rewrite (ToInt32_small (b0 + b1 * 256)), (ToInt32_small (b2 * 65536)) by lia.
  rewrite (lor_shifted _ b2 65536 16) by (reflexivity || lia).
  rewrite (ToInt32_small (b0 + _ + _)) by lia.
  rewrite (ToInt32_small (Js.ToInt32 _)) by apply ToInt32_range.
  assert (exists k, Js.ToInt32 (b3 * 16777216) = k * 16777216 /\ (b3 < 128 /\ k = b3 \/ 128 <= b3 /\ k = b3 - 256)) as (k & Hk & Hk').
  { unfold Js.ToInt32.
    assert (b3 < 128 \/ 128 <= b3) as [?|?] by lia.
    - exists b3. split; [zlia | auto].
    - exists (b3 - 256). split; [zlia | auto]. }
  rewrite Hk, (lor_shifted _ k 16777216 24) by (reflexivity || lia).
  unfold Js.ToInt32. destruct Hk' as [[? ->]|[? ->]]; zlia.
Qed.

Lemma split_bytes (v : Z) :
  byte.wrap v + 256 * byte.wrap (Js.shr v 8) + 65536 * byte.wrap (Js.shr v 16)
  + 16777216 * byte.wrap (Js.shr v 24) = v mod 4294967296.
Proof.
  rewrite !shr_div by lia. unfold byte.wrap, Js.ToInt32.
  change (2 ^ 8) with 256. change (2 ^ 16) with 65536. change (2 ^ 24) with 16777216.
  zlia.
Qed.

Lemma combine_bytes16 (v : Z) :
  Js.bor (byte.wrap v) (Js.shl (byte.wrap (Js.shr v 8)) 8) = v mod 65536.
Proof.
  rewrite shl_mul, shr_div by lia. unfold byte.wrap, Js.bor.
  change (2 ^ 8) with 256.
  set (hi := (Js.ToInt32 v / 256) mod 256).
  assert (0 <= hi < 256) by (subst hi; zlia).
  assert (0 <= v mod 256 < 256) by zlia.
  rewrite (ToInt32_small hi), (ToInt32_small (hi * 256)) by lia.
  rewrite (ToInt32_small (v mod 256)), (ToInt32_small (hi * 256)) by lia.
  rewrite (lor_shifted _ hi 256 8) by (reflexivity || lia).
  subst hi. unfold Js.ToInt32. zlia.
Qed.

Lemma wrap_range256 v : 0 <= byte.wrap v < 256.
Proof. unfold byte.wrap. change (2 ^ 8) with 256. zlia. Qed.

Lemma combine_split_I32 (v : Z) :
  Js.bor (Js.bor (Js.bor (byte.wrap v) (Js.shl (byte.wrap (Js.shr v 8)) 8))
                 (Js.shl (byte.wrap (Js.shr v 16)) 16))
         (Js.shl (byte.wrap (Js.shr v 24)) 24)
  = Js.ToInt32 v.
Proof.
  rewrite combine_bytes by apply wrap_range256.
  rewrite split_bytes. unfold Js.ToInt32. zlia.
Qed.

Lemma ToUint32_ToInt32 v : Js.ToUint32 (Js.ToInt32 v) = v mod 4294967296.
Proof. unfold Js.ToUint32, Js.ToInt32. zlia. Qed.

Lemma set_from_app (pre mid post src : Uint8Array) :
  length mid = length src ->
  set_from (pre ++ mid ++ post) src (length pre) = pre ++ src ++ post.
Proof.
  revert pre mid. induction src as [|b src IH]; intros pre mid Hlen.
  - destruct mid; [reflexivity | discriminate].
  - destruct mid as [|m mid]; [discriminate|]. simpl in Hlen.
    simpl set_from.
    replace (<[length pre := b]> (pre ++ (m :: mid) ++ post))
      with ((pre ++ [b]) ++ mid ++ post).
    + replace (S (length pre)) with (length (pre ++ [b])) by (rewrite length_app; simpl; lia).
      rewrite IH by lia. rewrite <- app_assoc. reflexivity.
    + rewrite insert_app_r_alt by lia. rewrite Nat.sub_diag. simpl.
      rewrite <- app_assoc. reflexivity.
Qed.

Lemma encodeMessage_header (type id method : Z) (body : Uint8Array) :
  encodeMessage type id method body
  = header type id method (Z.of_nat (length body)) ++ body.
Proof.
  unfold encodeMessage, write32, write16, store, HEADER_SIZE.
  cbn [replicate Nat.add insert list_insert].
  pose proof (set_from_app (header type id method (Z.of_nat (length body)))
                (replicate (length body) Byte.x00) [] body
                (length_replicate _ _)) as E.
  rewrite !app_nil_r in E. exact E.
Qed.

Lemma load_header_body (type id method len : Z) (rest : Uint8Array) :
  let data := header type id method len ++ rest in
  load data 0 = byte.wrap type /\
  read16 data 2 = method mod 65536 /\
  read32 data 4 = id mod 4294967296 /\
  read32 data 8 = len mod 4294967296.
Proof.
  unfold read16, read32, load, header, Js.ToUint8, Js.ushr0.
  cbn [app lookup list_lookup Nat.add].
  rewrite !byte.unsigned_of_Z.
  rewrite combine_bytes16, !combine_split_I32, !ToUint32_ToInt32. auto.
Qed.

Lemma decodeMessage_header (type id method len : Z) (rest : Uint8Array) :
  decodeMessage (header type id method len ++ rest)
  = if Z.of_nat (length rest) <? len mod 4294967296
    then inl (mkFbRpcError 1000 (Js.lit "Failed to parse message") (-1)
                           (Js.lit "Incomplete message"))
    else inr (mkDecodedMessage (byte.wrap type) (id mod 4294967296) (method mod 65536)
                               (take (Z.to_nat (len mod 4294967296)) rest)).
Proof.
  unfold decodeMessage.
  destruct (load_header_body type id method len rest) as (Ht & Hm & Hi & Hl).
  cbv zeta in Ht, Hm, Hi, Hl. rewrite Ht, Hm, Hi, Hl.
  replace (length (header type id method len ++ rest) <? HEADER_SIZE)%nat with false
    by (symmetry; apply Nat.ltb_ge; rewrite length_app; unfold HEADER_SIZE; simpl; lia).
  rewrite length_app. change (length (header type id method len)) with 12%nat.
  unfold HEADER_SIZE.
  replace (Z.of_nat (12 + length rest) <? Z.of_nat 12 + len mod 4294967296)
    with (Z.of_nat (length rest) <? len mod 4294967296).
  2:{ destruct (Z.ltb_spec (Z.of_nat (length rest)) (len mod 4294967296));
      destruct (Z.ltb_spec (Z.of_nat (12 + length rest)) (Z.of_nat 12 + len mod 4294967296)); lia. }
  destruct (_ <? _); [reflexivity|].
  unfold subarray. f_equal. f_equal.
  replace (12 + Z.to_nat (len mod 4294967296) - 12)%nat with (Z.to_nat (len mod 4294967296)) by lia.
  reflexivity.
Qed.

Lemma ToUint8_wrap (a b : Z) : byte.wrap a = byte.wrap b -> Js.ToUint8 a = Js.ToUint8 b.
Proof.
  intros H. unfold Js.ToUint8.
  rewrite <- (byte.of_Z_unsigned (byte.of_Z a)), <- (byte.of_Z_unsigned (byte.of_Z b)).
  rewrite !byte.unsigned_of_Z. congruence.
Qed.

Lemma header_normal (type id method len : Z) :
  header (byte.wrap type) (id mod 4294967296) (method mod 65536) len
  = header type id method len.
Proof.
  unfold header.
  repeat (apply (f_equal2 cons); [try reflexivity; apply ToUint8_wrap|]); try reflexivity.
  all: rewrite ?shr_div by lia; unfold byte.wrap, Js.ToInt32;
    change (2 ^ 8) with 256; change (2 ^ 16) with 65536; change (2 ^ 24) with 16777216;
    zlia.
Qed.

(** Decoding an encoded frame, for arbitrary arguments. *)
Lemma decode_encode (type id method : Z) (body : Uint8Array) :
  decodeMessage (encodeMessage type id method body)
  = inr (mkDecodedMessage (byte.wrap type) (id mod 4294967296) (method mod 65536)
           (take (Z.to_nat (Z.of_nat (length body) mod 4294967296)) body)).
Proof.
  rewrite encodeMessage_header, decodeMessage_header.
  destruct (Z.ltb_spec (Z.of_nat (length body)) (Z.of_nat (length body) mod 4294967296)) as [H|H].
  - exfalso. zlia.
  - reflexivity.
Qed.


(** * The text codec *)

Lemma shiftr_div (x n d : Z) : 0 <= n -> d = 2 ^ n -> Z.shiftr x n = x / d.
Proof. intros Hn ->. apply Z.shiftr_div_pow2, Hn. Qed.

Lemma shiftl_mul (x n d : Z) : 0 <= n -> d = 2 ^ n -> Z.shiftl x n = x * d.
Proof. intros Hn ->. apply Z.shiftl_mul_pow2, Hn. Qed.

Lemma land_mod (x m n : Z) : 0 <= n -> m = Z.ones n -> Z.land x m = x mod (m + 1).
Proof.
  intros Hn ->. rewrite Z.land_ones by exact Hn.
  rewrite Z.ones_equiv. f_equal. lia.
Qed.

Lemma lor_continuation (y : Z) : 0 <= y < 64 -> Z.lor 128 y = 128 + y.
Proof.
  intros Hy. rewrite Z.lor_comm. change 128 with (2 * 64).
  rewrite (lor_shifted y 2 64 6) by (reflexivity || exact Hy). lia.
Qed.

Lemma lor_accumulate (c y : Z) : 0 <= y < 64 -> Z.lor (c * 64) y = c * 64 + y.
Proof.
  intros Hy. rewrite Z.lor_comm, (lor_shifted y c 64 6) by (reflexivity || exact Hy). lia.
Qed.

Ltac bits :=
  repeat first
    [ rewrite (shiftr_div _ 6 64) by (reflexivity || lia)
    | rewrite (shiftr_div _ 10 1024) by (reflexivity || lia)
    | rewrite (shiftr_div _ 12 4096) by (reflexivity || lia)
    | rewrite (shiftr_div _ 18 262144) by (reflexivity || lia)
    | rewrite (shiftl_mul _ 6 64) by (reflexivity || lia)
    | rewrite (shiftl_mul _ 10 1024) by (reflexivity || lia)
    | rewrite (land_mod _ 63 6) by (reflexivity || lia)
    | rewrite (land_mod _ 31 5) by (reflexivity || lia)
    | rewrite (land_mod _ 15 4) by (reflexivity || lia)
    | rewrite (land_mod _ 7 3) by (reflexivity || lia)
    | rewrite (land_mod _ 1023 10) by (reflexivity || lia)
    | rewrite lor_continuation by zlia
    | rewrite lor_accumulate by zlia ];
  change (63 + 1) with 64; change (31 + 1) with 32; change (15 + 1) with 16;
  change (7 + 1) with 8; change (1023 + 1) with 1024.

Lemma utf8_encode_one_eq (cp : Z) :
  Encoding.utf8_encode_one cp =
    if cp <=? 127 then [cp]
    else if cp <=? 2047 then [cp / 64 + 192; 128 + cp mod 64]
    else if cp <=? 65535 then [cp / 4096 + 224; 128 + (cp / 64) mod 64; 128 + cp mod 64]
    else [cp / 262144 + 240; 128 + (cp / 4096) mod 64; 128 + (cp / 64) mod 64; 128 + cp mod 64].
Proof. unfold Encoding.utf8_encode_one. bits. reflexivity. Qed.

Lemma utf8_lead_eq (b : Z) :
  Encoding.utf8_lead b =
    if b <=? 127 then ([b], Encoding.utf8_initial)
    else if (194 <=? b) && (b <=? 223) then ([], Encoding.mkUtf8 (b mod 32) 0 1 128 191)
    else if (224 <=? b) && (b <=? 239) then
      ([], Encoding.mkUtf8 (b mod 16) 0 2 (if b =? 224 then 160 else 128)
                           (if b =? 237 then 159 else 191))
    else if (240 <=? b) && (b <=? 244) then
      ([], Encoding.mkUtf8 (b mod 8) 0 3 (if b =? 240 then 144 else 128)
                           (if b =? 244 then 143 else 191))
    else ([65533], Encoding.utf8_initial).
Proof. unfold Encoding.utf8_lead. bits. reflexivity. Qed.

Lemma utf8_step_continue (st : Encoding.utf8_state) (b : Z) :
  Encoding.bytes_needed st <> 0 ->
  Encoding.lower_boundary st <= b <= Encoding.upper_boundary st ->
  Encoding.utf8_step st b =
    let cp := Encoding.code_point st * 64 + b mod 64 in
    if Encoding.bytes_seen st + 1 =? Encoding.bytes_needed st
    then ([cp], Encoding.utf8_initial)
    else ([], Encoding.mkUtf8 cp (Encoding.bytes_seen st + 1) (Encoding.bytes_needed st) 128 191).
Proof.
  intros Hn Hb. unfold Encoding.utf8_step.
  destruct (Z.eqb_spec (Encoding.bytes_needed st) 0) as [?|_]; [contradiction|].
  replace ((Encoding.lower_boundary st <=? b) && (b <=? Encoding.upper_boundary st)) with true
    by (symmetry; apply andb_true_iff; split; apply Z.leb_le; lia).
  cbn [negb]. bits. reflexivity.
Qed.

Ltac decide_tests :=
  repeat match goal with
    | |- context [?a <=? ?b] => destruct (Z.leb_spec a b); try (exfalso; zlia)
    | |- context [?a <? ?b] => destruct (Z.ltb_spec a b); try (exfalso; zlia)
    | |- context [?a =? ?b] => destruct (Z.eqb_spec a b); try (exfalso; zlia)
    end; cbn [andb negb orb].

Lemma utf8_lead_ascii (b : Z) :
  b <= 127 -> Encoding.utf8_lead b = ([b], Encoding.utf8_initial).
Proof. intros. rewrite utf8_lead_eq. decide_tests. reflexivity. Qed.

Lemma utf8_lead_two (b : Z) :
  194 <= b <= 223 -> Encoding.utf8_lead b = ([], Encoding.mkUtf8 (b mod 32) 0 1 128 191).
Proof. intros. rewrite utf8_lead_eq. decide_tests. reflexivity. Qed.

Lemma utf8_lead_three (b : Z) :
  224 <= b <= 239 ->
  Encoding.utf8_lead b =
    ([], Encoding.mkUtf8 (b mod 16) 0 2 (if b =? 224 then 160 else 128)
                         (if b =? 237 then 159 else 191)).
Proof.
  intros. rewrite utf8_lead_eq.
  destruct (Z.leb_spec b 127); [lia|].
  destruct (Z.leb_spec 194 b); [|lia]. destruct (Z.leb_spec b 223); [lia|].
  destruct (Z.leb_spec 224 b); [|lia]. destruct (Z.leb_spec b 239); [|lia].
  reflexivity.
Qed.

Lemma utf8_lead_four (b : Z) :
  240 <= b <= 244 ->
  Encoding.utf8_lead b =
    ([], Encoding.mkUtf8 (b mod 8) 0 3 (if b =? 240 then 144 else 128)
                         (if b =? 244 then 143 else 191)).
Proof.
  intros. rewrite utf8_lead_eq.
  destruct (Z.leb_spec b 127); [lia|].
  destruct (Z.leb_spec 194 b); [|lia]. destruct (Z.leb_spec b 223); [lia|].
  destruct (Z.leb_spec 224 b); [|lia]. destruct (Z.leb_spec b 239); [lia|].
  destruct (Z.leb_spec 240 b); [|lia]. destruct (Z.leb_spec b 244); [|lia].
  reflexivity.
Qed.

Lemma utf8_run_cons_initial (b : Z) (rest : list Z) :
  Encoding.utf8_run Encoding.utf8_initial (b :: rest)
  = fst (Encoding.utf8_lead b) ++ Encoding.utf8_run (snd (Encoding.utf8_lead b)) rest.
Proof.
  cbn [Encoding.utf8_run]. change (Encoding.utf8_step Encoding.utf8_initial b) with (Encoding.utf8_lead b).
  destruct (Encoding.utf8_lead b). reflexivity.
Qed.

Lemma utf8_run_cons_continue (st : Encoding.utf8_state) (b : Z) (rest : list Z) :
  Encoding.bytes_needed st <> 0 ->
  Encoding.lower_boundary st <= b <= Encoding.upper_boundary st ->
  Encoding.utf8_run st (b :: rest) =
    let cp := Encoding.code_point st * 64 + b mod 64 in
    if Encoding.bytes_seen st + 1 =? Encoding.bytes_needed st
    then cp :: Encoding.utf8_run Encoding.utf8_initial rest
    else Encoding.utf8_run
           (Encoding.mkUtf8 cp (Encoding.bytes_seen st + 1) (Encoding.bytes_needed st) 128 191)
           rest.
Proof.
  intros Hn Hb. cbn [Encoding.utf8_run]. rewrite utf8_step_continue by assumption.
  cbv zeta. destruct (_ =? _); reflexivity.
Qed.

Lemma utf8_run_last (c seen needed lo hi b : Z) (rest : list Z) :
  lo <= b <= hi -> needed <> 0 -> seen + 1 = needed ->
  Encoding.utf8_run (Encoding.mkUtf8 c seen needed lo hi) (b :: rest)
  = (c * 64 + b mod 64) :: Encoding.utf8_run Encoding.utf8_initial rest.
Proof.
  intros Hb Hn Hs. rewrite utf8_run_cons_continue by (cbn; lia).
  cbn [Encoding.bytes_seen Encoding.bytes_needed Encoding.code_point].
  rewrite (proj2 (Z.eqb_eq _ _) Hs). reflexivity.
Qed.

Lemma utf8_run_more (c seen needed lo hi b : Z) (rest : list Z) :
  lo <= b <= hi -> needed <> 0 -> seen + 1 <> needed ->
  Encoding.utf8_run (Encoding.mkUtf8 c seen needed lo hi) (b :: rest)
  = Encoding.utf8_run (Encoding.mkUtf8 (c * 64 + b mod 64) (seen + 1) needed 128 191) rest.
Proof.
  intros Hb Hn Hs. rewrite utf8_run_cons_continue by (cbn; lia).
  cbn [Encoding.bytes_seen Encoding.bytes_needed Encoding.code_point].
  rewrite (proj2 (Z.eqb_neq _ _) Hs). reflexivity.
Qed.

Ltac boundary :=
  repeat match goal with
    | |- context [?a =? ?b] => destruct (Z.eqb_spec a b)
    end; zlia.

Lemma utf8_run_encode_one (cp : Z) (rest : list Z) :
  is_scalar cp ->
  Encoding.utf8_run Encoding.utf8_initial (Encoding.utf8_encode_one cp ++ rest)
  = cp :: Encoding.utf8_run Encoding.utf8_initial rest.
Proof.
  intros [Hr Hs]. rewrite utf8_encode_one_eq.
  destruct (Z.leb_spec cp 127).
  { cbn [app]. rewrite utf8_run_cons_initial, utf8_lead_ascii by lia. reflexivity. }
  destruct (Z.leb_spec cp 2047).
  { cbn [app]. rewrite utf8_run_cons_initial, utf8_lead_two by zlia. cbn [fst snd app].
    rewrite utf8_run_last by zlia. f_equal. zlia. }
  destruct (Z.leb_spec cp 65535).
  { cbn [app]. rewrite utf8_run_cons_initial, utf8_lead_three by zlia. cbn [fst snd app].
    rewrite utf8_run_more by boundary.
    rewrite utf8_run_last by zlia. f_equal. zlia. }
  cbn [app]. rewrite utf8_run_cons_initial, utf8_lead_four by zlia. cbn [fst snd app].
  rewrite utf8_run_more by boundary.
  rewrite utf8_run_more by zlia.
  rewrite utf8_run_last by zlia. f_equal. zlia.
Qed.

Lemma utf8_encode_one_bytes (cp : Z) :
  is_scalar cp -> Forall (fun b => 0 <= b < 256) (Encoding.utf8_encode_one cp).
Proof.
  intros [Hr Hs]. rewrite utf8_encode_one_eq.
  destruct (Z.leb_spec cp 127); [|destruct (Z.leb_spec cp 2047); [|destruct (Z.leb_spec cp 65535)]];
    repeat constructor; zlia.
Qed.

Lemma bytes_back (l : list Z) :
  Forall (fun b => 0 <= b < 256) l -> map byte.unsigned (map Js.ToUint8 l) = l.
Proof.
  induction 1 as [|b l Hb _ IH]; [reflexivity|].
  cbn [map]. rewrite IH. f_equal.
  unfold Js.ToUint8. rewrite byte.unsigned_of_Z. unfold byte.wrap.
  apply Z.mod_small. change (2 ^ 8) with 256. exact Hb.
Qed.

Lemma utf8_roundtrip (cps : list Z) :
  Forall is_scalar cps ->
  Encoding.utf8_run Encoding.utf8_initial
    (map byte.unsigned (map Js.ToUint8 (flat_map Encoding.utf8_encode_one cps))) = cps.
Proof.
  intros Hs. rewrite bytes_back.
  - induction Hs as [|cp cps Hcp _ IH]; [reflexivity|].
    cbn [flat_map]. rewrite utf8_run_encode_one by exact Hcp. f_equal. exact IH.
  - rewrite flat_map_concat_map. apply Forall_concat, Forall_map.
    eapply Forall_impl; [exact Hs|]. intros cp Hcp. apply utf8_encode_one_bytes, Hcp.
Qed.

Lemma pair_value_eq (hi lo : Z) :
  Encoding.pair_value hi lo = 65536 + (hi - 55296) * 1024 + (lo - 56320).
Proof. unfold Encoding.pair_value. bits. reflexivity. Qed.

Lemma utf16_units_eq (cp : Z) :
  Encoding.utf16_units cp =
    if cp <? 65536 then [cp]
    else [55296 + (cp - 65536) / 1024; 56320 + (cp - 65536) mod 1024].
Proof. unfold Encoding.utf16_units. bits. reflexivity. Qed.

Lemma is_lead_spec (c : Z) : Encoding.is_lead c = true <-> 55296 <= c <= 56319.
Proof. unfold Encoding.is_lead. rewrite andb_true_iff, !Z.leb_le. reflexivity. Qed.

Lemma is_trail_spec (c : Z) : Encoding.is_trail c = true <-> 56320 <= c <= 57343.
Proof. unfold Encoding.is_trail. rewrite andb_true_iff, !Z.leb_le. reflexivity. Qed.

(** On a well-formed string the conversion to scalar values loses nothing. *)
Lemma scalar_values_well_formed (s : Js.JsString) :
  Encoding.well_formed s = true ->
  Forall is_scalar (Encoding.scalar_values s)
  /\ flat_map Encoding.utf16_units (Encoding.scalar_values s) = s
  /\ (Encoding.starts_with_bom s = false ->
      Encoding.strip_bom (Encoding.scalar_values s) = Encoding.scalar_values s).
Proof.
  remember (length s) as n eqn:Hn. revert s Hn.
  induction n as [n IH] using lt_wf_ind. intros s Hn Hwf.
  destruct s as [|c rest]; [repeat split; constructor|].
  cbn [Encoding.well_formed Encoding.scalar_values] in *.
  destruct (Encoding.is_lead c) eqn:Hlead.
  - apply is_lead_spec in Hlead.
    destruct rest as [|d rest']; [discriminate|].
    apply andb_true_iff in Hwf as [Htrail Hwf].
    rewrite Htrail. apply is_trail_spec in Htrail.
    destruct (IH (length rest') ltac:(subst n; simpl; lia) rest' eq_refl Hwf) as (Hs & Hu & _).
    repeat split.
    + constructor; [|exact Hs]. unfold is_scalar. rewrite pair_value_eq. lia.
    + cbn [flat_map]. rewrite Hu, utf16_units_eq, pair_value_eq.
      destruct (Z.ltb_spec (65536 + (c - 55296) * 1024 + (d - 56320)) 65536); [lia|].
      cbn [app]. f_equal; [zlia|]. f_equal. zlia.
    + intros _. cbn [Encoding.strip_bom]. rewrite pair_value_eq.
      destruct (Z.eqb_spec (65536 + (c - 55296) * 1024 + (d - 56320)) 65279); [lia|reflexivity].
  - rewrite !andb_true_iff in Hwf. destruct Hwf as [[[Hlo Hhi] Htrail] Hwf].
    apply Z.leb_le in Hlo, Hhi. apply negb_true_iff in Htrail. rewrite Htrail.
    destruct (IH (length rest) ltac:(subst n; simpl; lia) rest eq_refl Hwf) as (Hs & Hu & _).
    assert (~ 55296 <= c <= 56319) by (rewrite <- is_lead_spec, Hlead; discriminate).
    assert (~ 56320 <= c <= 57343) by (rewrite <- is_trail_spec, Htrail; discriminate).
    repeat split.
    + constructor; [|exact Hs]. unfold is_scalar. lia.
    + cbn [flat_map]. rewrite Hu, utf16_units_eq.
      destruct (Z.ltb_spec c 65536); [reflexivity|lia].
    + cbn [Encoding.starts_with_bom Encoding.strip_bom]. intros ->. reflexivity.
Qed.

(** The text codec gives back a well-formed string that has no leading
    byte order mark. *)
Lemma text_roundtrip (s : Js.JsString) :
  Encoding.well_formed s = true ->
  Encoding.starts_with_bom s = false ->
  Encoding.decode (Encoding.encode s) = s.
Proof.
  intros Hwf Hbom.
  destruct (scalar_values_well_formed s Hwf) as (Hs & Hu & Hb).
  unfold Encoding.decode, Encoding.encode.
  rewrite utf8_roundtrip by exact Hs. rewrite Hb by exact Hbom. exact Hu.
Qed.


(** The codec on small inputs. *)

Example encodeMessage_bytes :
  encodeMessage 2 7 513 [Byte.xaa; Byte.xbb]
  = [Byte.x02; Byte.x00; Byte.x01; Byte.x02; Byte.x07; Byte.x00; Byte.x00; Byte.x00;
     Byte.x02; Byte.x00; Byte.x00; Byte.x00; Byte.xaa; Byte.xbb].
Proof. reflexivity. Qed.

Example decodeMessage_trailing_bytes :
  decodeMessage [Byte.x01; Byte.xff; Byte.x03; Byte.x00; Byte.xff; Byte.xff; Byte.xff; Byte.xff;
                 Byte.x01; Byte.x00; Byte.x00; Byte.x00; Byte.x2a; Byte.x2b]
  = inr (mkDecodedMessage 1 4294967295 3 [Byte.x2a]).
Proof. reflexivity. Qed.

Example encode_euro_sign : Encoding.encode [0x20AC] = [Byte.xe2; Byte.x82; Byte.xac].
Proof. reflexivity. Qed.

Example encode_surrogate_pair :
  Encoding.encode [0xD83D; 0xDE00] = [Byte.xf0; Byte.x9f; Byte.x98; Byte.x80].
Proof. reflexivity. Qed.

Example decode_surrogate_pair :
  Encoding.decode [Byte.xf0; Byte.x9f; Byte.x98; Byte.x80] = [0xD83D; 0xDE00].
Proof. reflexivity. Qed.

Example encode_unpaired_surrogate :
  Encoding.encode [0xD800; 0x41] = [Byte.xef; Byte.xbf; Byte.xbd; Byte.x41].
Proof. reflexivity. Qed.

Example decode_overlong : Encoding.decode [Byte.xc0; Byte.x80] = [0xFFFD; 0xFFFD].
Proof. reflexivity. Qed.

Example decode_truncated : Encoding.decode [Byte.x41; Byte.xe2; Byte.x82] = [0x41; 0xFFFD].
Proof. reflexivity. Qed.

(** * The error frame *)

Lemma encodeErrorResponse_eq (id code : Z) (message : Js.JsString) :
  encodeErrorResponse id code message
  = header 3 id 0 (Z.of_nat (length (error_body code message))) ++ error_body code message.
Proof.
  unfold encodeErrorResponse. rewrite encodeMessage_header.
  assert (set_from (write32 (replicate (4 + length (Encoding.encode message)) Byte.x00) 0 code)
                   (Encoding.encode message) 4 = error_body code message) as ->; [|reflexivity].
  unfold write32, store, error_body.
  cbn [replicate Nat.add insert list_insert].
  pose proof (set_from_app [Js.ToUint8 code; Js.ToUint8 (Js.shr code 8);
                            Js.ToUint8 (Js.shr code 16); Js.ToUint8 (Js.shr code 24)]
                (replicate (length (Encoding.encode message)) Byte.x00) []
                (Encoding.encode message) (length_replicate _ _)) as E.
  rewrite !app_nil_r in E. exact E.
Qed.

Lemma decodeErrorResponse_error_body (code : Z) (message : Js.JsString) :
  decodeErrorResponse (error_body code message)
  = (Js.ToInt32 code, Encoding.decode (Encoding.encode message)).
Proof.
  unfold decodeErrorResponse, readI32, load, error_body, subarray_from, Js.ToUint8.
  cbn [app lookup list_lookup Nat.add drop].
  rewrite !byte.unsigned_of_Z, combine_split_I32. reflexivity.
Qed.

Lemma error_frame_fields (id code : Z) (message : Js.JsString) :
  let frame := encodeErrorResponse id code message in
  load frame 0 = 3 /\ read16 frame 2 = 0 /\ read32 frame 4 = id mod 4294967296
  /\ subarray_from frame HEADER_SIZE = error_body code message.
Proof.
  cbv zeta. rewrite encodeErrorResponse_eq.
  destruct (load_header_body 3 id 0 (Z.of_nat (length (error_body code message)))
              (error_body code message)) as (Ht & Hm & Hi & _).
  cbv zeta in Ht, Hm, Hi. rewrite Ht, Hm, Hi. repeat split; reflexivity.
Qed.

(** * The peer *)

Lemma decodeMessage_inr (data : Uint8Array) (msg : DecodedMessage) :
  decodeMessage data = inr msg ->
  (HEADER_SIZE <= length data)%nat
  /\ Z.of_nat HEADER_SIZE + read32 data 8 <= Z.of_nat (length data)
  /\ msg = mkDecodedMessage (load data 0) (read32 data 4) (read16 data 2)
             (subarray data HEADER_SIZE (HEADER_SIZE + Z.to_nat (read32 data 8))).
Proof.
  unfold decodeMessage.
  destruct (Nat.ltb_spec (length data) HEADER_SIZE); [discriminate|].
  destruct (Z.ltb_spec (Z.of_nat (length data)) (Z.of_nat HEADER_SIZE + read32 data 8));
    [discriminate|].
  intros [= <-]. auto.
Qed.

Lemma decodeMessage_inl (data : Uint8Array) :
  (length data < HEADER_SIZE)%nat
  \/ Z.of_nat (length data) - Z.of_nat HEADER_SIZE < read32 data 8 ->
  exists e, decodeMessage data = inl e /\ err_code e = 1000.
Proof.
  intros H. unfold decodeMessage.
  destruct (Nat.ltb_spec (length data) HEADER_SIZE); [eexists; split; reflexivity|].
  destruct (Z.ltb_spec (Z.of_nat (length data)) (Z.of_nat HEADER_SIZE + read32 data 8));
    [eexists; split; reflexivity|].
  lia.
Qed.

Lemma read32_range (buf : Uint8Array) (offset : nat) : 0 <= read32 buf offset < 4294967296.
Proof. unfold read32, Js.ushr0, Js.ToUint32. zlia. Qed.

Section PeerFacts.

Context {AppDataType FBTable : Type}.
Local Abbreviation FbRpc := (FbRpc AppDataType FBTable).
Implicit Types st : FbRpc.

Lemma sent_callToTransport (data : Uint8Array) (appData : AppDataType) st :
  sent (snd (callToTransport data appData st))
  = sent st ++ match toTransport st with
               | Some cb => [(cb, data, appData)]
               | None => []
               end.
Proof.
  unfold callToTransport. destruct (toTransport st); [reflexivity|].
  symmetry. apply app_nil_r.
Qed.

(** What the call of the sink throws is what [callToTransport] throws. *)
Lemma thrown_callToTransport (data : Uint8Array) (appData : AppDataType) st :
  fst (callToTransport data appData st)
  = match toTransport st with
    | Some cb => cb data appData
    | None => None
    end.
Proof. unfold callToTransport. destruct (toTransport st); reflexivity. Qed.

Lemma callToTransport_frame (data : Uint8Array) (appData : AppDataType) st :
  pendingRequests (snd (callToTransport data appData st)) = pendingRequests st
  /\ dispatcher (snd (callToTransport data appData st)) = dispatcher st
  /\ heap (snd (callToTransport data appData st)) = heap st
  /\ toTransport (snd (callToTransport data appData st)) = toTransport st
  /\ timeoutCheckInterval (snd (callToTransport data appData st)) = timeoutCheckInterval st
  /\ settlements (snd (callToTransport data appData st)) = settlements st
  /\ calls (snd (callToTransport data appData st)) = calls st
  /\ jobs (snd (callToTransport data appData st)) = jobs st.
Proof.
  unfold callToTransport. destruct (toTransport st) eqn:E;
    repeat match goal with |- _ /\ _ => split end; try reflexivity; exact E.
Qed.

Lemma sendError_frame (id code : Z) (text : JsError + Js.JsString) (appData : AppDataType) st :
  pendingRequests (snd (sendError id code text appData st)) = pendingRequests st
  /\ dispatcher (snd (sendError id code text appData st)) = dispatcher st
  /\ heap (snd (sendError id code text appData st)) = heap st
  /\ toTransport (snd (sendError id code text appData st)) = toTransport st
  /\ timeoutCheckInterval (snd (sendError id code text appData st)) = timeoutCheckInterval st
  /\ settlements (snd (sendError id code text appData st)) = settlements st
  /\ calls (snd (sendError id code text appData st)) = calls st
  /\ jobs (snd (sendError id code text appData st)) = jobs st.
Proof.
  unfold sendError. destruct text; [repeat split | apply callToTransport_frame].
Qed.

Lemma sent_sendError (id code : Z) (text : JsError + Js.JsString) (appData : AppDataType) st :
  sent (snd (sendError id code text appData st))
  = sent st ++ match text, toTransport st with
               | inr message, Some cb => [(cb, encodeErrorResponse id code message, appData)]
               | _, _ => []
               end.
Proof.
  unfold sendError. destruct text as [e|message].
  - symmetry. apply app_nil_r.
  - apply sent_callToTransport.
Qed.

End PeerFacts.


Lemma JsMap_get_delete {V} (m : JsMap.t V) (k : Z) :
  JsMap.wf m -> JsMap.get (JsMap.delete m k) k = None.
Proof.
  unfold JsMap.wf, JsMap.keys.
  induction m as [|[k' v] m IH]; intros Hwf; [reflexivity|].
  cbn [map fst] in Hwf. apply NoDup_cons in Hwf as [Hnotin Hwf].
  cbn [JsMap.delete]. destruct (Z.eqb_spec k' k) as [->|Hne].
  - clear IH Hwf. induction m as [|[k2 v2] m IH]; [reflexivity|].
    cbn [JsMap.get]. cbn [map fst] in Hnotin.
    apply not_elem_of_cons in Hnotin as [Hne Hnotin].
    destruct (Z.eqb_spec k2 k); [congruence|]. apply IH, Hnotin.
  - cbn [JsMap.get]. destruct (Z.eqb_spec k' k); [contradiction|]. apply IH, Hwf.
Qed.


Section GuardFacts.

Context {AppDataType FBTable : Type}.
Local Abbreviation FbRpc := (FbRpc AppDataType FBTable).
Implicit Types st : FbRpc.

Lemma set_calls_same st : set_calls (calls st) st = st.
Proof. destruct st. reflexivity. Qed.

Lemma run_guards_return (gs : list (GuardEntry AppDataType FBTable)) (req : FBTable)
    (appData : AppDataType) st :
  Forall (fun g => exists v, guard_fn g (guard_args g req appData) = Return v) gs ->
  run_guards gs req appData st
  = (None, set_calls (calls st ++ map (fun g => (guard_fn g, guard_args g req appData)) gs) st).
Proof.
  intros Hgs. revert st. induction Hgs as [|g gs [v Hg] _ IH]; intros st.
  - cbn [run_guards map]. rewrite app_nil_r, set_calls_same. reflexivity.
  - cbn [run_guards call map]. rewrite Hg, IH. cbn [calls set_calls].
    rewrite <- app_assoc. reflexivity.
Qed.

Lemma run_guards_throw (pre post : list (GuardEntry AppDataType FBTable))
    (g : GuardEntry AppDataType FBTable) (e : Thrown) (req : FBTable)
    (appData : AppDataType) st :
  Forall (fun g => exists v, guard_fn g (guard_args g req appData) = Return v) pre ->
  guard_fn g (guard_args g req appData) = Throw e ->
  run_guards (pre ++ g :: post) req appData st
  = (Some e, set_calls (calls st ++ map (fun g => (guard_fn g, guard_args g req appData))
                                        (pre ++ [g])) st).
Proof.
  intros Hpre Hg. revert st. induction Hpre as [|g' pre [v Hg'] _ IH]; intros st.
  - cbn [app run_guards call map]. rewrite Hg. reflexivity.
  - cbn [app run_guards call map]. rewrite Hg', IH. cbn [calls set_calls].
    rewrite <- app_assoc. reflexivity.
Qed.

Lemma respond_frame (id method : Z) (hasRes : bool) (res : option FBPackable)
    (appData : AppDataType) st :
  calls (snd (respond id method hasRes res appData st)) = calls st.
Proof.
  unfold respond. destruct res as [obj|]; [destruct (negb hasRes); [|destruct (packFB obj)]|];
    try apply callToTransport_frame. reflexivity.
Qed.

Lemma try_handler_calls (msg : DecodedMessage) (appData : AppDataType)
    (handler : HandlerEntry AppDataType FBTable) (req : FBTable) st :
  calls (snd (try_handler msg appData handler req st))
  = calls st ++ [(fn handler, [ArgReq req; ArgAppData appData])].
Proof.
  unfold try_handler. cbn [call].
  destruct (fn handler [ArgReq req; ArgAppData appData]) as [[|p|obj]|err];
    try destruct (_ =? _); rewrite ?respond_frame; reflexivity.
Qed.

Lemma push_guard_lookup (h : DispatcherHandler) (g : GuardEntry AppDataType FBTable) st
    (e : HandlerEntry AppDataType FBTable) :
  heap st !! entry h = Some e ->
  heap (push_guard h g st) !! entry h
  = Some (mkHandlerEntry (Req e) (Res e) (fn e) (guards e ++ [g])).
Proof.
  intros He. unfold push_guard. rewrite He. cbn [heap set_heap].
  apply list_lookup_insert_eq. eapply lookup_lt_Some, He.
Qed.

End GuardFacts.


Section StateFacts.

Context {AppDataType FBTable : Type}.
Local Abbreviation FbRpc := (FbRpc AppDataType FBTable).
Implicit Types st : FbRpc.

Lemma set_settlements_same st : set_settlements (settlements st) st = st.
Proof. destruct st. reflexivity. Qed.

Lemma reject_all (rs : list PendingRequest) (err : FbRpcError) st :
  fold_left (fun st request => do_reject request err st) rs st
  = set_settlements (settlements st ++ map (fun r => Reject (waiter r) err) rs) st.
Proof.
  revert st. induction rs as [|r rs IH]; intros st.
  - cbn [fold_left map]. rewrite app_nil_r, set_settlements_same. reflexivity.
  - cbn [fold_left map]. rewrite IH. unfold do_reject. cbn [settlements set_settlements].
    rewrite <- app_assoc. reflexivity.
Qed.

Lemma clear_guards_fold_frame (refs : list nat) st :
  let st' := fold_left (fun st handler => clear_guards handler st) refs st in
  toTransport st' = toTransport st
  /\ dispatcher st' = dispatcher st
  /\ pendingRequests st' = pendingRequests st
  /\ timeoutCheckInterval st' = timeoutCheckInterval st
  /\ settlements st' = settlements st
  /\ sent st' = sent st
  /\ jobs st' = jobs st.
Proof.
  revert st. induction refs as [|r refs IH]; intros st; [cbn; repeat split|].
  cbn [fold_left]. cbv zeta in IH |- *.
  destruct (IH (clear_guards r st)) as (H1 & H2 & H3 & H4 & H5 & H6 & H7).
  rewrite H1, H2, H3, H4, H5, H6, H7.
  unfold clear_guards. destruct (heap st !! r); repeat split.
Qed.

Lemma clear_guards_fold_heap (refs : list nat) st (ref : nat)
    (e : HandlerEntry AppDataType FBTable) :
  heap st !! ref = Some e ->
  exists e',
    heap (fold_left (fun st handler => clear_guards handler st) refs st) !! ref = Some e'
    /\ Req e' = Req e /\ Res e' = Res e /\ fn e' = fn e
    /\ (ref ∈ refs -> guards e' = [])
    /\ (ref ∉ refs -> guards e' = guards e).
Proof.
  revert st e. induction refs as [|r refs IH]; intros st e He.
  - exists e. cbn [fold_left]. repeat split; auto. intros Hin. inversion Hin.
  - cbn [fold_left].
    assert (exists e1, heap (clear_guards r st) !! ref = Some e1
                       /\ Req e1 = Req e /\ Res e1 = Res e /\ fn e1 = fn e
                       /\ (ref = r -> guards e1 = [])
                       /\ (ref <> r -> guards e1 = guards e)) as (e1 & He1 & HReq & HRes & Hfn & Heq & Hne).
    { unfold clear_guards. destruct (decide (ref = r)) as [->|Hneq].
      - rewrite He. cbn [heap set_heap].
        rewrite list_lookup_insert_eq by (eapply lookup_lt_Some, He).
        eexists. repeat split; auto. congruence.
      - destruct (heap st !! r) as [er|].
        + cbn [heap set_heap]. rewrite list_lookup_insert_ne by congruence.
          exists e. repeat split; auto. congruence.
        + exists e. repeat split; auto. congruence. }
    destruct (IH _ _ He1) as (e' & He' & HReq' & HRes' & Hfn' & Hin & Hnotin).
    exists e'. split; [exact He'|].
    split; [congruence|]. split; [congruence|]. split; [congruence|]. split.
    + intros Hmem. destruct (decide (ref ∈ refs)) as [Hr|Hr]; [auto|].
      apply elem_of_cons in Hmem as [->|Hmem]; [|contradiction].
      rewrite Hnotin by exact Hr. auto.
    + intros Hmem. apply not_elem_of_cons in Hmem as [Hneq Hmem].
      rewrite Hnotin by exact Hmem. auto.
Qed.

Lemma JsMap_get_values {V} (m : JsMap.t V) (k : Z) (v : V) :
  JsMap.get m k = Some v -> v ∈ JsMap.values m.
Proof.
  unfold JsMap.values. induction m as [|[k' v'] m IH]; [discriminate|].
  cbn [JsMap.get map snd]. destruct (k' =? k).
  - intros [= ->]. apply elem_of_cons. auto.
  - intros H. apply elem_of_cons. right. apply IH, H.
Qed.

Lemma timedOutRequests_prefix (now timeout : Z) (entries : list (Z * PendingRequest)) :
  timedOutRequests now timeout entries = map fst (expired_prefix now timeout entries).
Proof.
  induction entries as [|[k r] entries IH]; [reflexivity|].
  cbn [timedOutRequests expired_prefix]. destruct (_ >=? _); [|reflexivity].
  cbn [map fst]. rewrite IH. reflexivity.
Qed.

(** The table is its marked prefix followed by entries of which the first
    has not expired. *)
Lemma expired_prefix_split (now timeout : Z) (entries : list (Z * PendingRequest)) :
  exists rest,
    entries = expired_prefix now timeout entries ++ rest
    /\ Forall (fun e => timeout <= now - timestamp (snd e)) (expired_prefix now timeout entries)
    /\ match rest with
       | e :: _ => now - timestamp (snd e) < timeout
       | [] => True
       end.
Proof.
  induction entries as [|[k r] entries (rest & Hsplit & Hall & Hhead)].
  - exists []. repeat split. constructor.
  - cbn [expired_prefix]. destruct (Z.geb_spec (now - timestamp r) timeout) as [Hge|Hlt].
    + exists rest. split; [cbn [app]; congruence|]. split; [|exact Hhead].
      constructor; [cbn [snd]; lia | exact Hall].
    + exists ((k, r) :: entries). repeat split; [constructor | cbn [snd]; lia].
Qed.

Lemma expire_fold (pre rest : list (Z * PendingRequest)) st :
  pendingRequests st = pre ++ rest ->
  fold_left expire (map fst pre) st
  = set_settlements
      (settlements st
       ++ map (fun e => Reject (waiter (snd e)) (mkFbRpcError 1005 (Js.lit "Request has timed-out") (-1) []))
              pre)
      (set_pendingRequests rest st).
Proof.
  revert st. induction pre as [|[k r] pre IH]; intros st Hp.
  - cbn [map fold_left app] in *. rewrite app_nil_r, <- Hp. destruct st. reflexivity.
  - cbn [map fold_left fst]. unfold expire at 2. rewrite Hp.
    cbn [app JsMap.get JsMap.delete]. rewrite Z.eqb_refl.
    rewrite IH by reflexivity. unfold do_reject.
    cbn [settlements set_settlements set_pendingRequests pendingRequests snd].
    rewrite <- app_assoc. reflexivity.
Qed.

End StateFacts.


Section EffectFacts.

Context {AppDataType FBTable : Type}.
Local Abbreviation FbRpc := (FbRpc AppDataType FBTable).
Implicit Types st : FbRpc.

Lemma only_effects_refl st : only_effects st st.
Proof. unfold only_effects. repeat split. Qed.

Lemma only_effects_trans st1 st2 st3 :
  only_effects st1 st2 -> only_effects st2 st3 -> only_effects st1 st3.
Proof.
  unfold only_effects.
  intros (A1 & A2 & A3 & A4 & A5 & A6 & A7 & A8 & A9) (B1 & B2 & B3 & B4 & B5 & B6 & B7 & B8 & B9).
  repeat split; try congruence.
  intros Hnone. rewrite B9 by congruence. auto.
Qed.

Lemma only_effects_callToTransport (data : Uint8Array) (appData : AppDataType) st :
  only_effects st (snd (callToTransport data appData st)).
Proof.
  unfold only_effects, callToTransport.
  destruct (toTransport st) eqn:E; repeat split; try exact E. discriminate.
Qed.

Lemma only_effects_set_calls c st : only_effects st (set_calls c st).
Proof. unfold only_effects. repeat split. Qed.

Lemma only_effects_set_jobs j st : only_effects st (set_jobs j st).
Proof. unfold only_effects. repeat split. Qed.

Lemma only_effects_sendError (id code : Z) (text : JsError + Js.JsString)
    (appData : AppDataType) st :
  only_effects st (snd (sendError id code text appData st)).
Proof.
  unfold sendError. destruct text;
    [apply only_effects_refl | apply only_effects_callToTransport].
Qed.

Lemma only_effects_respond (id method : Z) (hasRes : bool) (res : option FBPackable)
    (appData : AppDataType) st :
  only_effects st (snd (respond id method hasRes res appData st)).
Proof.
  unfold respond. destruct res as [obj|]; [destruct (negb hasRes); [|destruct (packFB obj)]|];
    try apply only_effects_callToTransport. apply only_effects_refl.
Qed.

Lemma only_effects_run_guards (gs : list (GuardEntry AppDataType FBTable)) (req : FBTable)
    (appData : AppDataType) st :
  only_effects st (snd (run_guards gs req appData st)).
Proof.
  revert st. induction gs as [|g gs IH]; intros st; [apply only_effects_refl|].
  cbn [run_guards call]. destruct (guard_fn g _).
  - eapply only_effects_trans; [|apply IH]. apply only_effects_set_calls.
  - apply only_effects_set_calls.
Qed.

Lemma only_effects_try_handler (msg : DecodedMessage) (appData : AppDataType)
    (handler : HandlerEntry AppDataType FBTable) (req : FBTable) st :
  only_effects st (snd (try_handler msg appData handler req st)).
Proof.
  unfold try_handler. cbn [call].
  eapply only_effects_trans; [apply (only_effects_set_calls
      (calls st ++ [(fn handler, [ArgReq req; ArgAppData appData])]))|].
  destruct (fn handler [ArgReq req; ArgAppData appData]) as [[|p|obj]|err];
    try destruct (_ =? _); try apply only_effects_refl;
    first [apply only_effects_respond | apply only_effects_set_jobs].
Qed.

Lemma only_effects_handleRequest (msg : DecodedMessage) (appData : AppDataType) st :
  only_effects st (snd (handleRequest msg appData st)).
Proof.
  unfold handleRequest.
  destruct (JsMap.get (dispatcher st) (msg_method msg)) as [ref|].
  2:{ destruct (negb _); [apply only_effects_callToTransport | apply only_effects_refl]. }
  destruct (heap st !! ref) as [handler|]; [|apply only_effects_refl].
  destruct (unpackFB (Req handler) (msg_body msg)) as [e|req].
  { destruct (negb _); [apply only_effects_sendError | apply only_effects_refl]. }
  pose proof (only_effects_run_guards (guards handler) req appData st) as Hg.
  destruct (run_guards (guards handler) req appData st) as [[err|] st1]; cbn [snd] in Hg.
  { destruct (_ =? _); [exact Hg|].
    eapply only_effects_trans; [exact Hg | apply only_effects_sendError]. }
  eapply only_effects_trans; [exact Hg|].
  pose proof (only_effects_try_handler msg appData handler req st1) as Hh.
  destruct (try_handler msg appData handler req st1) as [[err|] st2]; cbn [snd] in Hh |- *;
    [|exact Hh].
  destruct (_ =? _); [exact Hh|].
  eapply only_effects_trans; [exact Hh | apply only_effects_sendError].
Qed.

Lemma only_effects_run_job (i : nat) st : only_effects st (snd (run_job i st)).
Proof.
  unfold run_job. destruct (jobs st !! i) as [j|]; [|apply only_effects_refl].
  destruct (job_result j) as [res|e].
  - pose proof (only_effects_respond (job_id j) (job_method j) (job_hasRes j) res
                  (job_appData j) st) as Hr.
    destruct (respond _ _ _ _ _ st) as [[e|] st1]; cbn [snd] in Hr |- *;
      (eapply only_effects_trans; [exact Hr | apply only_effects_set_jobs]).
  - eapply only_effects_trans; [apply (only_effects_set_jobs (delete i (jobs st)))|].
    apply only_effects_sendError.
Qed.

Lemma only_effects_notify (method : Z) (req : FBPackable) (appData : AppDataType) st :
  only_effects st (snd (notify method req appData st)).
Proof.
  unfold notify. destruct (packFB req);
    [apply only_effects_refl | apply only_effects_callToTransport].
Qed.

Lemma stopTimeoutChecker_eq st :
  stopTimeoutChecker st = set_timeoutCheckInterval None st.
Proof.
  unfold stopTimeoutChecker. destruct (timeoutCheckInterval st) eqn:E; [reflexivity|].
  destruct st. cbn in E. subst. reflexivity.
Qed.

Lemma clean_eq (reason : Js.JsString) st :
  let err := mkFbRpcError 1004 (Js.lit "Internal error") (-1) reason in
  let st' := clean reason st in
  settlements st'
  = settlements st ++ map (fun r => Reject (waiter r) err) (JsMap.values (pendingRequests st))
  /\ pendingRequests st' = []
  /\ dispatcher st' = []
  /\ timeoutCheckInterval st' = None
  /\ toTransport st' = None
  /\ sent st' = sent st
  /\ jobs st' = jobs st
  /\ forall ref e, heap st !! ref = Some e ->
       exists e', heap st' !! ref = Some e'
         /\ Req e' = Req e /\ Res e' = Res e /\ fn e' = fn e
         /\ (ref ∈ JsMap.values (dispatcher st) -> guards e' = [])
         /\ (ref ∉ JsMap.values (dispatcher st) -> guards e' = guards e).
Proof.
  intros err st'. subst st'. unfold clean, rejectPendingRequests, resetDispatcher.
  rewrite reject_all. rewrite !stopTimeoutChecker_eq.
  fold err.
  set (st1 := set_timeoutCheckInterval None (set_pendingRequests _ (set_settlements _ st))).
  destruct (clear_guards_fold_frame (JsMap.values (dispatcher st1)) st1)
    as (H1 & H2 & H3 & H4 & H5 & H6 & H7).
  cbv zeta in *. cbn [settlements pendingRequests dispatcher timeoutCheckInterval toTransport
                       sent jobs heap set_toTransport set_timeoutCheckInterval set_dispatcher].
  rewrite H3, H5, H6, H7.
  repeat match goal with |- _ /\ _ => split end; try reflexivity.
  intros ref e He.
  apply (clear_guards_fold_heap (JsMap.values (dispatcher st1)) st1 ref e He).
Qed.

End EffectFacts.


Section CheckerFacts.

Context {AppDataType FBTable : Type}.
Local Abbreviation FbRpc := (FbRpc AppDataType FBTable).
Implicit Types st : FbRpc.

Lemma checker_invariant_same st st' :
  pendingRequests st' = pendingRequests st ->
  timeoutCheckInterval st' = timeoutCheckInterval st ->
  checker_invariant st -> checker_invariant st'.
Proof. unfold checker_invariant. intros -> ->. auto. Qed.

Lemma checker_invariant_only_effects st st' :
  only_effects st st' -> checker_invariant st -> checker_invariant st'.
Proof.
  intros (_ & _ & _ & Hp & _ & Hi & _). apply checker_invariant_same; assumption.
Qed.

(** What the completion of a waiter leaves of the table and the checker. *)
Lemma checker_invariant_remove (p : JsMap.t PendingRequest) st :
  (p <> [] -> timeoutCheckInterval st <> None) ->
  let st1 := set_pendingRequests p st in
  let st2 := if (JsMap.size (pendingRequests st1) =? 0)%nat
             then stopTimeoutChecker st1 else st1 in
  checker_invariant st2
  /\ pendingRequests st2 = p
  /\ toTransport st2 = toTransport st
  /\ sent st2 = sent st
  /\ settlements st2 = settlements st
  /\ (p = [] -> timeoutCheckInterval st2 = None).
Proof.
  intros Hrun st1 st2. subst st2 st1. cbn [pendingRequests set_pendingRequests].
  rewrite stopTimeoutChecker_eq. unfold checker_invariant.
  destruct p as [|e p]; cbn [JsMap.size length Nat.eqb pendingRequests timeoutCheckInterval
                              set_pendingRequests set_timeoutCheckInterval toTransport sent
                              settlements].
  - repeat split; auto; congruence.
  - repeat split; auto; try discriminate.
Qed.

Lemma JsMap_set_nonempty {V} (m : JsMap.t V) (k : Z) (v : V) : JsMap.set m k v <> [].
Proof. destruct m as [|[k' v'] m]; cbn [JsMap.set]; [|destruct (k' =? k)]; discriminate. Qed.

Lemma JsMap_set_size {V} (m : JsMap.t V) (k : Z) (v : V) :
  JsMap.size (JsMap.set m k v) <> 1%nat -> m <> [].
Proof. destruct m; [cbn; congruence | discriminate]. Qed.

(** A Response settles its waiter with at most one call. *)
Lemma handleResponse_shape (msg : DecodedMessage) st :
  match JsMap.get (pendingRequests st) (msg_id msg) with
  | None => snd (handleResponse msg st) = st
  | Some w =>
      exists outcomes,
        let st1 := set_pendingRequests (JsMap.delete (pendingRequests st) (msg_id msg)) st in
        let st2 := if (JsMap.size (pendingRequests st1) =? 0)%nat
                   then stopTimeoutChecker st1 else st1 in
        snd (handleResponse msg st) = set_settlements (settlements st2 ++ outcomes) st2
  end.
Proof.
  unfold handleResponse.
  destruct (JsMap.get (pendingRequests st) (msg_id msg)) as [w|]; [|reflexivity].
  cbv zeta.
  destruct (length (msg_body msg) =? 0)%nat; [eexists [_]; reflexivity|].
  destruct (try_response w msg _) as [e|value]; [|eexists [_]; reflexivity].
  destruct (message_of e); [|eexists [_]; reflexivity].
  exists []. cbn [snd]. rewrite app_nil_r, set_settlements_same. reflexivity.
Qed.

Lemma handleErrorResponse_shape (msg : DecodedMessage) st :
  match JsMap.get (pendingRequests st) (msg_id msg) with
  | None => handleErrorResponse msg st = st
  | Some w =>
      exists outcomes,
        let st1 := set_pendingRequests (JsMap.delete (pendingRequests st) (msg_id msg)) st in
        let st2 := if (JsMap.size (pendingRequests st1) =? 0)%nat
                   then stopTimeoutChecker st1 else st1 in
        handleErrorResponse msg st = set_settlements (settlements st2 ++ outcomes) st2
  end.
Proof.
  unfold handleErrorResponse.
  destruct (JsMap.get (pendingRequests st) (msg_id msg)) as [w|]; [|reflexivity].
  cbv zeta. destruct (decodeErrorResponse (msg_body msg)). eexists [_]. reflexivity.
Qed.

Lemma JsMap_get_nonempty {V} (m : JsMap.t V) (k : Z) (v : V) :
  JsMap.get m k = Some v -> m <> [].
Proof. destruct m; discriminate. Qed.

(** A completion path keeps the invariant, the sink and the frames sent. *)
Lemma completion_facts (handle : DecodedMessage -> FbRpc -> FbRpc) (msg : DecodedMessage) st :
  match JsMap.get (pendingRequests st) (msg_id msg) with
  | None => handle msg st = st
  | Some w =>
      exists outcomes,
        let st1 := set_pendingRequests (JsMap.delete (pendingRequests st) (msg_id msg)) st in
        let st2 := if (JsMap.size (pendingRequests st1) =? 0)%nat
                   then stopTimeoutChecker st1 else st1 in
        handle msg st = set_settlements (settlements st2 ++ outcomes) st2
  end ->
  (checker_invariant st -> checker_invariant (handle msg st))
  /\ toTransport (handle msg st) = toTransport st
  /\ sent (handle msg st) = sent st
  /\ (forall w, pendingRequests st = [(msg_id msg, w)] ->
      timeoutCheckInterval (handle msg st) = None /\ pendingRequests (handle msg st) = []).
Proof.
  destruct (JsMap.get (pendingRequests st) (msg_id msg)) as [w|] eqn:Hget.
  - intros (outcome & ->). cbv zeta.
    pose proof (fun Hrun =>
      checker_invariant_remove (JsMap.delete (pendingRequests st) (msg_id msg)) st Hrun) as H.
    cbv zeta in H.
    set (st2 := if (_ =? 0)%nat then _ else _) in *.
    assert (toTransport st2 = toTransport st /\ sent st2 = sent st) as [Ht Hs].
    { subst st2. destruct (_ =? 0)%nat; [rewrite stopTimeoutChecker_eq|]; split; reflexivity. }
    split; [|split; [|split]].
    + intros Hinv.
      destruct (H (fun _ => proj2 Hinv (JsMap_get_nonempty _ _ _ Hget))) as (Hc & _).
      revert Hc. apply checker_invariant_same; reflexivity.
    + exact Ht.
    + exact Hs.
    + intros w' Hp.
      assert (JsMap.delete (pendingRequests st) (msg_id msg) = []) as Hd.
      { rewrite Hp. cbn [JsMap.delete]. rewrite Z.eqb_refl. reflexivity. }
      assert (st2 = set_timeoutCheckInterval None (set_pendingRequests [] st)) as ->.
      { subst st2. rewrite Hd. cbn [pendingRequests set_pendingRequests JsMap.size length Nat.eqb].
        apply stopTimeoutChecker_eq. }
      split; reflexivity.
  - intros ->. split; [auto|]. split; [reflexivity|]. split; [reflexivity|].
    intros w Hp. rewrite Hp in Hget. cbn in Hget. rewrite Z.eqb_refl in Hget. discriminate.
Qed.

End CheckerFacts.


Section StepFacts.

Context {AppDataType FBTable : Type}.
Local Abbreviation FbRpc := (FbRpc AppDataType FBTable).
Implicit Types st : FbRpc.

Lemma timeoutCheck_eq (now : Z) st :
  exists rest,
    pendingRequests st = expired_prefix now (requestTimeout st) (pendingRequests st) ++ rest
    /\ match rest with
       | e :: _ => now - timestamp (snd e) < requestTimeout st
       | [] => True
       end
    /\ timeoutCheck now st
       = let st1 :=
           set_settlements
             (settlements st
              ++ map (fun e => Reject (waiter (snd e))
                                 (mkFbRpcError 1005 (Js.lit "Request has timed-out") (-1) []))
                     (expired_prefix now (requestTimeout st) (pendingRequests st)))
             (set_pendingRequests rest st) in
         match rest with
         | [] => set_timeoutCheckInterval None st1
         | _ :: _ => st1
         end.
Proof.
  destruct (expired_prefix_split now (requestTimeout st) (pendingRequests st))
    as (rest & Hsplit & _ & Hhead).
  exists rest. split; [exact Hsplit|]. split; [exact Hhead|].
  unfold timeoutCheck, JsMap.entries. rewrite timedOutRequests_prefix.
  rewrite (expire_fold _ rest st Hsplit).
  cbn [pendingRequests set_settlements set_pendingRequests].
  destruct rest; cbn [JsMap.size length Nat.eqb]; [apply stopTimeoutChecker_eq | reflexivity].
Qed.

Lemma tick_facts (now : Z) st :
  (checker_invariant st -> checker_invariant (tick now st))
  /\ toTransport (tick now st) = toTransport st
  /\ sent (tick now st) = sent st
  /\ (timeoutCheckInterval st <> None ->
      Forall (fun e => requestTimeout st <= now - timestamp (snd e)) (pendingRequests st) ->
      timeoutCheckInterval (tick now st) = None /\ pendingRequests (tick now st) = []).
Proof.
  unfold tick. destruct (timeoutCheckInterval st) as [t|] eqn:Hint.
  2:{ split; [auto|]. split; [reflexivity|]. split; [reflexivity|]. intros H; contradiction. }
  destruct (timeoutCheck_eq now st) as (rest & Hsplit & Hhead & ->).
  cbv zeta. split; [|split; [|split]].
  - intros _. unfold checker_invariant. destruct rest; cbn; [tauto|].
    rewrite Hint. split; discriminate.
  - destruct rest; reflexivity.
  - destruct rest; reflexivity.
  - intros _ Hall. destruct rest as [|e rest]; [split; reflexivity|].
    exfalso. rewrite Hsplit in Hall. apply Forall_app in Hall as [_ Hall].
    apply Forall_cons in Hall as [He _]. lia.
Qed.

Lemma request_facts (method : Z) (req : FBPackable) (appData : AppDataType) (now : Z) st :
  let st' := snd (request method req appData now st) in
  (checker_invariant st -> checker_invariant st')
  /\ (toTransport st = None -> toTransport st' = None /\ sent st' = sent st)
  /\ (forall body, pendingRequests st = [] -> packFB req = inr body ->
      timeoutCheckInterval st' <> None /\ JsMap.size (pendingRequests st') = 1%nat).
Proof.
  cbv zeta. unfold request, generateRequestId.
  destruct (packFB req) as [e|body]; cbn [snd].
  { split; [|split]; [exact (fun H => H) | auto | discriminate]. }
  set (k := Js.ushr0 (requestIdCounter st + 1)).
  set (w := mkPendingRequest k method _ now).
  set (st1 := set_pendingRequests _ _).
  assert (pendingRequests st1 = JsMap.set (pendingRequests st) k w) as Hp1 by reflexivity.
  set (st2 := if (JsMap.size (pendingRequests st1) =? 1)%nat then startTimeoutChecker st1 else st1).
  assert (pendingRequests st2 = JsMap.set (pendingRequests st) k w
          /\ toTransport st2 = toTransport st /\ sent st2 = sent st
          /\ (timeoutCheckInterval st2 = timeoutCheckInterval st
              \/ timeoutCheckInterval st2 <> None)
          /\ ((JsMap.size (pendingRequests st1) =? 1)%nat = true ->
              timeoutCheckInterval st2 <> None)
          /\ ((JsMap.size (pendingRequests st1) =? 1)%nat = false ->
              timeoutCheckInterval st2 = timeoutCheckInterval st))
    as (Hp & Ht & Hs & _ & Hstart & Hkeep).
  { subst st2. destruct (_ =? 1)%nat.
    - unfold startTimeoutChecker. destruct (timeoutCheckInterval st1) eqn:Hi.
      + split; [exact Hp1|]. split; [reflexivity|]. split; [reflexivity|].
        split; [left; reflexivity|]. split; [intros _; rewrite Hi; discriminate|].
        discriminate.
      + split; [exact Hp1|]. split; [reflexivity|]. split; [reflexivity|].
        split; [right; discriminate|]. split; [intros _; discriminate|].
        discriminate.
    - split; [exact Hp1|]. split; [reflexivity|]. split; [reflexivity|].
      split; [left; reflexivity|]. split; [discriminate|]. reflexivity. }
  destruct (callToTransport_frame (encodeMessage (MessageType_value Request) k method body)
              appData st2) as (Hp' & _ & _ & Ht' & Hi' & _).
  pose proof (sent_callToTransport (encodeMessage (MessageType_value Request) k method body)
                appData st2) as Hs'.
  destruct (callToTransport (encodeMessage (MessageType_value Request) k method body)
              appData st2) as [thrown st3].
  cbn [snd] in Hp', Ht', Hi', Hs' |- *.
  set (st4 := match thrown with Some _ => _ | None => _ end).
  assert (pendingRequests st4 = pendingRequests st3 /\ toTransport st4 = toTransport st3
          /\ timeoutCheckInterval st4 = timeoutCheckInterval st3 /\ sent st4 = sent st3)
    as (Hp4 & Ht4 & Hi4 & Hs4) by (subst st4; destruct thrown; repeat split).
  split; [|split].
  - intros Hinv. unfold checker_invariant. rewrite Hp4, Hi4, Hp', Hi', Hp.
    split; [intros _; apply JsMap_set_nonempty|]. intros _.
    destruct (JsMap.size (pendingRequests st1) =? 1)%nat eqn:Hsize; [auto|].
    rewrite Hkeep by reflexivity. apply Hinv.
    apply (JsMap_set_size _ k w). rewrite <- Hp1. apply Nat.eqb_neq, Hsize.
  - intros Hnone. rewrite Ht4, Ht', Ht. split; [exact Hnone|].
    rewrite Hs4, Hs', Ht, Hnone, app_nil_r. exact Hs.
  - intros body' Hempty _. rewrite Hi4, Hp4, Hi', Hp', Hp, Hempty. split; [|reflexivity].
    apply Hstart. rewrite Hp1, Hempty. reflexivity.
Qed.

Lemma fromTransport_facts (data : Uint8Array) (appData : AppDataType) st :
  (checker_invariant st -> checker_invariant (snd (fromTransport data appData st)))
  /\ (toTransport st = None ->
      toTransport (snd (fromTransport data appData st)) = None
      /\ sent (snd (fromTransport data appData st)) = sent st).
Proof.
  unfold fromTransport. destruct (decodeMessage data) as [e|msg].
  { pose proof (only_effects_callToTransport
                  (encodeErrorResponse (-1) (kind_code FB_RPC_ERRORS.PARSE_ERROR)
                                       (kind_message FB_RPC_ERRORS.PARSE_ERROR)) appData st) as H.
    split; [apply checker_invariant_only_effects, H|].
    destruct H as (_ & Ht & _ & _ & _ & _ & _ & _ & Hs). intros Hn. rewrite Ht. auto. }
  destruct (_ || _).
  { pose proof (only_effects_handleRequest msg appData st) as H.
    split; [apply checker_invariant_only_effects, H|].
    destruct H as (_ & Ht & _ & _ & _ & _ & _ & _ & Hs). intros Hn. rewrite Ht. auto. }
  destruct (_ =? _).
  { destruct (completion_facts (fun msg st => snd (handleResponse msg st)) msg st
                (handleResponse_shape msg st)) as (Hc & Ht & Hs & _).
    split; [exact Hc|]. intros Hn. rewrite Ht, Hs. auto. }
  destruct (_ =? _).
  { destruct (completion_facts handleErrorResponse msg st (handleErrorResponse_shape msg st))
      as (Hc & Ht & Hs & _).
    cbn [snd]. split; [exact Hc|]. intros Hn. rewrite Ht, Hs. auto. }
  auto.
Qed.

Lemma step_facts (op : Op AppDataType FBTable) st :
  (checker_invariant st -> checker_invariant (step op st))
  /\ (keeps_sink op -> toTransport st = None ->
      toTransport (step op st) = None /\ sent (step op st) = sent st).
Proof.
  destruct op as [cb | m handler | h f | h f | h f | m req appData now | m req appData
                 | data appData | reason | now | i | ]; cbn [step keeps_sink].
  - split; [apply checker_invariant_same; reflexivity | contradiction].
  - unfold registerHandler. destruct (schema st !! m); cbn [snd];
      (split; [apply checker_invariant_same; reflexivity | auto]).
  - unfold addGuard, push_guard. destruct (heap st !! entry h);
      (split; [apply checker_invariant_same; reflexivity | auto]).
  - unfold addRequestGuard, push_guard. destruct (heap st !! entry h);
      (split; [apply checker_invariant_same; reflexivity | auto]).
  - unfold addAppDataGuard, push_guard. destruct (heap st !! entry h);
      (split; [apply checker_invariant_same; reflexivity | auto]).
  - destruct (request_facts m req appData now st) as (Hc & Hs & _). auto.
  - pose proof (only_effects_notify m req appData st) as H.
    split; [apply checker_invariant_only_effects, H|].
    destruct H as (_ & Ht & _ & _ & _ & _ & _ & _ & Hs). intros _ Hn. rewrite Ht. auto.
  - destruct (fromTransport_facts data appData st). auto.
  - destruct (clean_eq reason st) as (_ & Hp & _ & Hi & Ht & Hs & _).
    cbv zeta in *. split; [|auto].
    intros _. unfold checker_invariant. rewrite Hp, Hi. tauto.
  - destruct (tick_facts now st) as (Hc & Ht & Hs & _).
    split; [exact Hc|]. intros _ Hn. rewrite Ht, Hs. auto.
  - pose proof (only_effects_run_job i st) as H.
    split; [apply checker_invariant_only_effects, H|].
    destruct H as (_ & Ht & _ & _ & _ & _ & _ & _ & Hs). intros _ Hn. rewrite Ht. auto.
  - split; [apply checker_invariant_same; reflexivity | auto].
Qed.

Lemma run_facts (ops : list (Op AppDataType FBTable)) st :
  (checker_invariant st -> checker_invariant (run ops st))
  /\ (Forall keeps_sink ops -> toTransport st = None ->
      toTransport (run ops st) = None /\ sent (run ops st) = sent st).
Proof.
  revert st. induction ops as [|op ops IH]; intros st; [cbn; auto|].
  change (run (op :: ops) st) with (run ops (step op st)). destruct (step_facts op st) as (Hc & Hs).
  destruct (IH (step op st)) as (Hc' & Hs').
  split; [auto|]. intros Hall Hn. apply Forall_cons in Hall as [Hop Hall].
  destruct (Hs Hop Hn) as [Hn1 Hs1].
  destruct (Hs' Hall Hn1) as [Hn2 Hs2]. split; congruence.
Qed.

End StepFacts.


(** * Properties of the codec and of the peer *)

(** C1 (as amended).  For every message type, every correlation id below
    2^32, every method id below 2^16 and every body shorter than 2^32
    bytes, [decodeMessage] of the encoded frame returns exactly the type,
    the id, the method and the body; and for such a body, whatever the
    other arguments, encoding the four decoded fields of the frame that
    [encodeMessage] produced gives that frame again, byte for byte. *)
Theorem codec_roundtrip (t : MessageType) (id method : Z) (body : Uint8Array) :
  0 <= id < 4294967296 ->
  0 <= method < 65536 ->
  Z.of_nat (length body) < 4294967296 ->
  decodeMessage (encodeMessage (MessageType_value t) id method body)
  = inr (mkDecodedMessage (MessageType_value t) id method body)
  /\ (forall type' id' method' : Z,
        exists d, decodeMessage (encodeMessage type' id' method' body) = inr d
          /\ encodeMessage (msg_type d) (msg_id d) (msg_method d) (msg_body d)
             = encodeMessage type' id' method' body).
Proof.
  intros Hid Hm Hlen.
  assert (take (Z.to_nat (Z.of_nat (length body) mod 4294967296)) body = body) as Htake.
  { apply take_ge. zlia. }
  split.
  - rewrite decode_encode, Htake.
    rewrite (Z.mod_small id), (Z.mod_small method) by lia.
    replace (byte.wrap (MessageType_value t)) with (MessageType_value t)
      by (destruct t; reflexivity).
    reflexivity.
  - intros type' id' method'. eexists. split; [apply decode_encode|].
    cbn [msg_type msg_id msg_method msg_body]. rewrite Htake.
    rewrite !encodeMessage_header.
    rewrite header_normal.
    reflexivity.
Qed.

Lemma decode_encode_wrapped_length (n : nat) (body : Uint8Array) :
  Z.of_nat n = 4294967296 -> length body = n ->
  decodeMessage (encodeMessage 0 1 0 body) = inr (mkDecodedMessage 0 1 0 [])
  /\ decodeMessage (encodeMessage 0 1 0 body) <> inr (mkDecodedMessage 0 1 0 body).
Proof.
  intros Hn Hlen.
  assert (decodeMessage (encodeMessage 0 1 0 body) = inr (mkDecodedMessage 0 1 0 [])) as E.
  { rewrite decode_encode, Hlen, Hn. reflexivity. }
  split; [exact E|].
  rewrite E. intros [= Hb]. rewrite <- Hb in Hlen. simpl in Hlen. lia.
Qed.

(** C1 as stated fails on a body of 2^32 bytes: the length field wraps to
    0 and the decoded body is empty. *)
Lemma codec_roundtrip_long_body :
  let body := replicate (Z.to_nat 4294967296) Byte.x00 in
  decodeMessage (encodeMessage 0 1 0 body) = inr (mkDecodedMessage 0 1 0 [])
  /\ decodeMessage (encodeMessage 0 1 0 body) <> inr (mkDecodedMessage 0 1 0 body).
Proof.
  intros body.
  apply (decode_encode_wrapped_length (Z.to_nat 4294967296)).
  - apply Z2Nat.id. discriminate.
  - apply length_replicate.
Qed.

Lemma codec_roundtrip_witness :
  decodeMessage (encodeMessage (MessageType_value Response) 7 513 [Byte.x01; Byte.xff])
  = inr (mkDecodedMessage 2 7 513 [Byte.x01; Byte.xff]).
Proof.
  apply (codec_roundtrip Response 7 513 [Byte.x01; Byte.xff]); simpl; lia.
Defined.

(** C8 (as amended).  For every signed 32-bit code and every message
    without unpaired surrogates that does not begin with U+FEFF, the frame
    of [encodeErrorResponse] has type 3 and method field 0, its body (the
    bytes after the header) has length 4 + the length of the message's
    UTF-8 encoding, and [decodeErrorResponse] of that body returns the
    code, read back as signed, and the message. *)
Theorem error_frame_roundtrip (id code : Z) (message : Js.JsString) :
  -2147483648 <= code < 2147483648 ->
  Encoding.well_formed message = true ->
  Encoding.starts_with_bom message = false ->
  let frame := encodeErrorResponse id code message in
  let body := subarray_from frame HEADER_SIZE in
  load frame 0 = MessageType_value ErrorResponse
  /\ read16 frame 2 = 0
  /\ length frame = (HEADER_SIZE + length body)%nat
  /\ length body = (4 + length (Encoding.encode message))%nat
  /\ decodeErrorResponse body = (code, message)
  /\ (Z.of_nat (length body) < 4294967296 ->
      decodeMessage frame
      = inr (mkDecodedMessage (MessageType_value ErrorResponse) (id mod 4294967296) 0 body)).
Proof.
  intros Hcode Hwf Hbom frame body.
  destruct (error_frame_fields id code message) as (Ht & Hm & _ & Hb).
  fold frame in Ht, Hm, Hb. fold body in Hb.
  repeat match goal with |- _ /\ _ => split end.
  - exact Ht.
  - exact Hm.
  - subst frame. rewrite Hb, encodeErrorResponse_eq, length_app. reflexivity.
  - rewrite Hb. unfold error_body. rewrite length_app. reflexivity.
  - rewrite Hb, decodeErrorResponse_error_body, text_roundtrip by assumption.
    rewrite ToInt32_small by exact Hcode. reflexivity.
  - intros Hlen. rewrite Hb in *. subst frame.
    rewrite encodeErrorResponse_eq, decodeMessage_header.
    rewrite (Z.mod_small (Z.of_nat _)) by lia.
    destruct (Z.ltb_spec (Z.of_nat (length (error_body code message)))
                         (Z.of_nat (length (error_body code message)))); [lia|].
    rewrite Nat2Z.id, take_ge by lia. reflexivity.
Qed.

Lemma error_frame_roundtrip_witness :
  decodeErrorResponse (subarray_from (encodeErrorResponse 7 (-5) (Js.lit "oops")) HEADER_SIZE)
  = (-5, Js.lit "oops").
Proof.
  apply (error_frame_roundtrip 7 (-5) (Js.lit "oops")); [lia | reflexivity | reflexivity].
Defined.

(** C8 as stated fails on a message that begins with U+FEFF: the decoder
    drops the byte order mark. *)
Lemma error_frame_bom_lost :
  decodeErrorResponse (subarray_from (encodeErrorResponse 1 1000 [0xFEFF; 0x41]) HEADER_SIZE)
  = (1000, [0x41])
  /\ decodeErrorResponse (subarray_from (encodeErrorResponse 1 1000 [0xFEFF; 0x41]) HEADER_SIZE)
     <> (1000, [0xFEFF; 0x41]).
Proof.
  assert (decodeErrorResponse
            (subarray_from (encodeErrorResponse 1 1000 [0xFEFF; 0x41]) HEADER_SIZE)
          = (1000, [0x41])) as E by (vm_compute; reflexivity).
  split; [exact E|]. rewrite E. discriminate.
Qed.

Section PeerProperties.

Context {AppDataType FBTable : Type}.
Local Abbreviation FbRpc := (FbRpc AppDataType FBTable).
Implicit Types st : FbRpc.

(** C10.  A frame that decodes but whose type byte is none of 0, 1, 2, 3
    changes nothing: no frame is emitted, and the pending table, the
    dispatcher, the sink and the timeout checker (the whole state) are as
    before. *)
Theorem fromTransport_unknown_type (data : Uint8Array) (appData : AppDataType) st
    (msg : DecodedMessage) :
  decodeMessage data = inr msg ->
  (forall t : MessageType, msg_type msg <> MessageType_value t) ->
  fromTransport data appData st = (None, st).
Proof.
  intros Hdec Htype. unfold fromTransport. rewrite Hdec.
  pose proof (Htype Request). pose proof (Htype Notification).
  pose proof (Htype Response). pose proof (Htype ErrorResponse).
  repeat match goal with
         | |- context [?a =? ?b] => destruct (Z.eqb_spec a b); [contradiction|]
         end.
  reflexivity.
Qed.

(** C7.  On an input shorter than 12 bytes, or whose declared body length
    exceeds the bytes after the header, [fromTransport] hands the sink,
    when one is set, exactly one frame: an ErrorResponse with code 1000,
    correlation id field 2^32 - 1 (-1 stored unsigned) and method field 0;
    the pending table and the dispatcher are unchanged. *)
Theorem fromTransport_parse_error (data : Uint8Array) (appData : AppDataType) st :
  (length data < HEADER_SIZE)%nat
  \/ Z.of_nat (length data) - Z.of_nat HEADER_SIZE < read32 data 8 ->
  let frame := encodeErrorResponse (-1) 1000 (Js.lit "Failed to parse message") in
  let st' := snd (fromTransport data appData st) in
  sent st' = sent st ++ match toTransport st with
                        | Some cb => [(cb, frame, appData)]
                        | None => []
                        end
  /\ pendingRequests st' = pendingRequests st
  /\ dispatcher st' = dispatcher st
  /\ heap st' = heap st
  /\ settlements st' = settlements st
  /\ decodeMessage frame
     = inr (mkDecodedMessage (MessageType_value ErrorResponse) 4294967295 0
                             (subarray_from frame HEADER_SIZE))
  /\ decodeErrorResponse (subarray_from frame HEADER_SIZE)
     = (1000, Js.lit "Failed to parse message").
Proof.
  intros Hbad frame st'.
  destruct (decodeMessage_inl data Hbad) as (e & He & _).
  assert (st' = snd (callToTransport frame appData st)) as ->.
  { subst st'. unfold fromTransport. rewrite He. reflexivity. }
  destruct (callToTransport_frame frame appData st) as (Hp & Hd & Hh & _ & _ & Hs & _).
  rewrite sent_callToTransport, Hp, Hd, Hh, Hs.
  repeat match goal with |- _ /\ _ => split end; vm_compute; reflexivity.
Qed.

(** C6 (as amended).  A Request whose method has no registered handler
    makes the peer hand the sink, when one is set, exactly one frame, an
    ErrorResponse with the request's correlation id and code 1002, and
    changes nothing when no sink is set; a Notification whose method has
    no registered handler emits nothing and leaves the state as it was. *)
Theorem unknown_method (data : Uint8Array) (appData : AppDataType) st (msg : DecodedMessage) :
  decodeMessage data = inr msg ->
  JsMap.get (dispatcher st) (msg_method msg) = None ->
  (msg_type msg = MessageType_value Request ->
   let frame := encodeErrorResponse (msg_id msg) 1002 (Js.lit "Method not found") in
   let st' := snd (fromTransport data appData st) in
   fromTransport data appData st = callToTransport frame appData st
   /\ (forall cb, toTransport st = Some cb -> sent st' = sent st ++ [(cb, frame, appData)])
   /\ (toTransport st = None -> st' = st)
   /\ load frame 0 = MessageType_value ErrorResponse
   /\ read32 frame 4 = msg_id msg
   /\ decodeErrorResponse (subarray_from frame HEADER_SIZE) = (1002, Js.lit "Method not found"))
  /\ (msg_type msg = MessageType_value Notification ->
      fromTransport data appData st = (None, st)).
Proof.
  intros Hdec Hget. split.
  - intros Htype frame st'.
    assert (fromTransport data appData st = callToTransport frame appData st) as Hft.
    { unfold fromTransport. rewrite Hdec, Htype. cbn [Z.eqb MessageType_value orb].
      unfold handleRequest. rewrite Hget, Htype. reflexivity. }
    assert (st' = snd (callToTransport frame appData st)) as Hst'.
    { subst st'. rewrite Hft. reflexivity. }
    destruct (error_frame_fields (msg_id msg) 1002 (Js.lit "Method not found"))
      as (Ht & _ & Hi & Hb).
    fold frame in Ht, Hi, Hb.
    repeat match goal with |- _ /\ _ => split end.
    + exact Hft.
    + intros cb Hcb. rewrite Hst', sent_callToTransport, Hcb. reflexivity.
    + intros Hnone. rewrite Hst'. unfold callToTransport. rewrite Hnone. reflexivity.
    + exact Ht.
    + rewrite Hi. apply Z.mod_small.
      apply decodeMessage_inr in Hdec as (_ & _ & ->). apply read32_range.
    + rewrite Hb, decodeErrorResponse_error_body. reflexivity.
  - intros Htype. unfold fromTransport. rewrite Hdec, Htype. cbn [Z.eqb MessageType_value orb].
    unfold handleRequest. rewrite Hget, Htype. reflexivity.
Qed.

(** What [handleResponse] does with an inbound Response.  A frame whose
    correlation id has no pending waiter changes nothing.  Otherwise the
    waiter leaves the pending table and nothing is emitted; the waiter is
    resolved with void when the body is empty or the schema's descriptor
    of its method has no response constructor, and resolved with the
    reader built from the body when the descriptor has one and the body is
    not empty.  When building the reader throws, the waiter is rejected
    with an error of code 1001 carrying the correlation id and the
    message of the caught value, unless the caught value is [undefined] or
    [null]: reading its message throws a TypeError inside the [catch]
    block, which leaves [fromTransport] with the waiter removed and never
    settled. *)
Theorem response_completion (data : Uint8Array) (appData : AppDataType) st
    (msg : DecodedMessage) :
  decodeMessage data = inr msg ->
  msg_type msg = MessageType_value Response ->
  let thrown := fst (fromTransport data appData st) in
  let st' := snd (fromTransport data appData st) in
  match JsMap.get (pendingRequests st) (msg_id msg) with
  | None => thrown = None /\ st' = st
  | Some w =>
      let resolved value :=
        thrown = None /\ settlements st' = settlements st ++ [Resolve (waiter w) value] in
      pendingRequests st' = JsMap.delete (pendingRequests st) (msg_id msg)
      /\ (JsMap.wf (pendingRequests st) -> JsMap.get (pendingRequests st') (msg_id msg) = None)
      /\ sent st' = sent st
      /\ (msg_body msg = [] -> resolved None)
      /\ (forall def, schema st !! method w = Some def -> def_Res def = None -> resolved None)
      /\ (forall def Res, msg_body msg <> [] ->
          schema st !! method w = Some def -> def_Res def = Some Res ->
          match unpackFB Res (msg_body msg) with
          | inr res => resolved (Some res)
          | inl e =>
              match message_of e with
              | inr message =>
                  thrown = None
                  /\ settlements st'
                     = settlements st
                       ++ [Reject (waiter w) (mkFbRpcError 1001 message (msg_id msg) [])]
              | inl typeError =>
                  thrown = Some (ThrownValue typeError)
                  /\ settlements st' = settlements st
              end
          end)
  end.
Proof.
  intros Hdec Htype thrown st'.
  assert (fromTransport data appData st = handleResponse msg st) as Hft.
  { unfold fromTransport. rewrite Hdec, Htype. reflexivity. }
  subst thrown st'. rewrite Hft. clear Hft. unfold handleResponse.
  destruct (JsMap.get (pendingRequests st) (msg_id msg)) as [w|] eqn:Hget;
    [|split; reflexivity].
  set (st1 := set_pendingRequests _ st).
  set (st2 := if (JsMap.size (pendingRequests st1) =? 0)%nat then stopTimeoutChecker st1 else st1).
  assert (pendingRequests st2 = JsMap.delete (pendingRequests st) (msg_id msg)
          /\ sent st2 = sent st /\ settlements st2 = settlements st
          /\ schema st2 = schema st) as (Hp & Hs & Hset & Hsch).
  { subst st2. destruct (_ =? _)%nat; [unfold stopTimeoutChecker; destruct (timeoutCheckInterval st1)|];
      repeat split. }
  assert (JsMap.wf (pendingRequests st) ->
          JsMap.get (JsMap.delete (pendingRequests st) (msg_id msg)) (msg_id msg) = None)
    as Hgone.
  { intros Hwf. apply JsMap_get_delete, Hwf. }
  clearbody st2. cbv zeta.
  destruct (msg_body msg) as [|b body] eqn:Hbody.
  - cbn [length Nat.eqb fst snd]. unfold do_resolve.
    cbn [pendingRequests sent settlements set_settlements]. rewrite Hp, Hs, Hset.
    split; [reflexivity|]. split; [exact Hgone|]. split; [reflexivity|].
    split; [split; reflexivity|]. split; [split; reflexivity|].
    intros ? ? Hne. contradiction.
  - cbn [length Nat.eqb]. unfold try_response. rewrite Hsch, Hbody.
    destruct (schema st !! method w) as [def|] eqn:Hdef.
    + destruct (def_Res def) as [Res|] eqn:HRes.
      * destruct (unpackFB Res (b :: body)) as [e|res] eqn:Hun.
        -- destruct (message_of e) as [typeError|message] eqn:Hmsg;
             cbn [fst snd]; unfold do_reject;
             cbn [pendingRequests sent settlements set_settlements kind_code
                  FB_RPC_ERRORS.INVALID_REQUEST]; rewrite Hp, Hs, ?Hset;
             (split; [reflexivity|]); (split; [exact Hgone|]); (split; [reflexivity|]);
             (split; [discriminate|]); (split; [congruence|]);
             intros def' Res' _ [= <-] HRes'; rewrite HRes in HRes'; injection HRes' as <-;
             rewrite Hun, Hmsg; split; reflexivity.
        -- cbn [fst snd]. unfold do_resolve.
           cbn [pendingRequests sent settlements set_settlements]. rewrite Hp, Hs, Hset.
           split; [reflexivity|]. split; [exact Hgone|]. split; [reflexivity|].
           split; [discriminate|]. split; [congruence|].
           intros def' Res' _ [= <-] HRes'. rewrite HRes in HRes'. injection HRes' as <-.
           rewrite Hun. split; reflexivity.
      * cbn [fst snd]. unfold do_resolve.
        cbn [pendingRequests sent settlements set_settlements]. rewrite Hp, Hs, Hset.
        split; [reflexivity|]. split; [exact Hgone|]. split; [reflexivity|].
        split; [discriminate|]. split; [split; reflexivity|]. congruence.
    + cbn [message_of fst snd]. unfold do_reject.
      cbn [pendingRequests sent settlements set_settlements]. rewrite Hp, Hs.
      split; [reflexivity|]. split; [exact Hgone|]. split; [reflexivity|].
      split; [discriminate|]. split; discriminate.
Qed.

(** C5 (as amended).  For an inbound Request or Notification whose method
    has a registered handler and whose body decodes, the guards are called
    in the order of the entry's guard list, to whose end each of
    [addGuard], [addRequestGuard] and [addAppDataGuard] appends, a [Guard]
    with (req, appData), a [RequestGuard] with (req), an [AppDataGuard]
    with (appData), and then the handler.  When a guard throws, whatever
    it throws, no later guard and not the handler is called.  For a
    Request, when the thrown value is neither [undefined] nor [null], the
    sink, when one is set, gets exactly one ErrorResponse with the
    request's id and code 1006, and nothing is emitted when no sink is
    set; for a Notification nothing is emitted. *)
Theorem guard_chain (data : Uint8Array) (appData : AppDataType) st (msg : DecodedMessage)
    (ref : nat) (handler : HandlerEntry AppDataType FBTable) (req : FBTable) :
  decodeMessage data = inr msg ->
  msg_type msg = MessageType_value Request \/ msg_type msg = MessageType_value Notification ->
  JsMap.get (dispatcher st) (msg_method msg) = Some ref ->
  heap st !! ref = Some handler ->
  unpackFB (Req handler) (msg_body msg) = inr req ->
  let st' := snd (fromTransport data appData st) in
  let invoked (g : GuardEntry AppDataType FBTable) :=
    (guard_fn g,
     match guard_type g with
     | Guard => [ArgReq req; ArgAppData appData]
     | RequestGuard => [ArgReq req]
     | AppDataGuard => [ArgAppData appData]
     end) in
  let passes (g : GuardEntry AppDataType FBTable) :=
    exists v, guard_fn g (snd (invoked g)) = Return v in
  (Forall passes (guards handler) ->
   calls st' = calls st ++ map invoked (guards handler)
                        ++ [(fn handler, [ArgReq req; ArgAppData appData])])
  /\ (forall pre g post e,
        guards handler = pre ++ g :: post ->
        Forall passes pre ->
        guard_fn g (snd (invoked g)) = Throw e ->
        calls st' = calls st ++ map invoked (pre ++ [g])
        /\ jobs st' = jobs st
        /\ (msg_type msg = MessageType_value Request ->
            forall text, toString_of e = inr text ->
            let frame := encodeErrorResponse (msg_id msg) 1006 text in
            (forall cb, toTransport st = Some cb -> sent st' = sent st ++ [(cb, frame, appData)])
            /\ (toTransport st = None -> sent st' = sent st)
            /\ load frame 0 = MessageType_value ErrorResponse
            /\ read32 frame 4 = msg_id msg
            /\ fst (decodeErrorResponse (subarray_from frame HEADER_SIZE)) = 1006)
        /\ (msg_type msg = MessageType_value Notification -> sent st' = sent st))
  /\ (forall (h : DispatcherHandler) (f : AnyFunction AppDataType FBTable)
             (e : HandlerEntry AppDataType FBTable),
        heap st !! entry h = Some e ->
        heap (addGuard h f st) !! entry h
        = Some (mkHandlerEntry (Req e) (Res e) (fn e) (guards e ++ [mkGuard Guard f]))
        /\ heap (addRequestGuard h f st) !! entry h
           = Some (mkHandlerEntry (Req e) (Res e) (fn e) (guards e ++ [mkGuard RequestGuard f]))
        /\ heap (addAppDataGuard h f st) !! entry h
           = Some (mkHandlerEntry (Req e) (Res e) (fn e) (guards e ++ [mkGuard AppDataGuard f]))).
Proof.
  intros Hdec Htype Hget Hheap Hreq st' invoked passes.
  assert (st' = snd (handleRequest msg appData st)) as Hst'.
  { subst st'. unfold fromTransport. rewrite Hdec.
    destruct Htype as [-> | ->]; reflexivity. }
  assert (forall g, invoked g = (guard_fn g, guard_args g req appData)) as Hinv by reflexivity.
  assert (forall gs, Forall passes gs ->
            Forall (fun g => exists v, guard_fn g (guard_args g req appData) = Return v) gs)
    as Hpasses.
  { intros gs Hgs. eapply Forall_impl; [exact Hgs|]. intros g [v Hv]. exists v. exact Hv. }
  unfold handleRequest in Hst'. rewrite Hget, Hheap, Hreq in Hst'.
  repeat match goal with |- _ /\ _ => split end.
  - intros Hall. rewrite (run_guards_return _ _ _ _ (Hpasses _ Hall)) in Hst'.
    change (map (fun g => (guard_fn g, guard_args g req appData)) (guards handler))
      with (map invoked (guards handler)) in Hst'.
    set (st1 := set_calls (calls st ++ map invoked (guards handler)) st) in Hst'.
    pose proof (try_handler_calls msg appData handler req st1) as Hcalls.
    destruct (try_handler msg appData handler req st1) as [[err|] st2];
      cbn [snd] in Hcalls; rewrite Hst'.
    + destruct (_ =? _); cbn [snd];
        [|rewrite (proj1 (proj2 (proj2 (proj2 (proj2 (proj2 (proj2
             (sendError_frame _ _ _ _ _))))))))];
        rewrite Hcalls; unfold st1; cbn [calls set_calls]; rewrite <- app_assoc; reflexivity.
    + cbn [snd]. rewrite Hcalls. unfold st1. cbn [calls set_calls].
      rewrite <- app_assoc. reflexivity.
  - intros pre g post e Hgs Hpre Hg.
    rewrite Hgs, (run_guards_throw _ _ _ e _ _ _ (Hpasses _ Hpre)) in Hst' by exact Hg.
    change (map (fun g => (guard_fn g, guard_args g req appData)) (pre ++ [g]))
      with (map invoked (pre ++ [g])) in Hst'.
    set (st1 := set_calls (calls st ++ map invoked (pre ++ [g])) st) in Hst'.
    split; [|split; [|split]].
    + rewrite Hst'. destruct (_ =? _); [reflexivity|].
      etransitivity; [apply sendError_frame | reflexivity].
    + rewrite Hst'. destruct (_ =? _); [reflexivity|].
      etransitivity; [apply sendError_frame | reflexivity].
    + intros Hrq text Htext frame.
      destruct (error_frame_fields (msg_id msg) 1006 text) as (Ht & _ & Hi & Hb).
      rewrite Hrq, Htext in Hst'. cbn [Z.eqb MessageType_value sendError] in Hst'.
      repeat match goal with |- _ /\ _ => split end.
      * intros cb Hcb. rewrite Hst'.
        rewrite sent_callToTransport. unfold st1; cbn [toTransport set_calls sent]. rewrite Hcb.
        reflexivity.
      * intros Hnone. rewrite Hst'.
        rewrite sent_callToTransport. unfold st1; cbn [toTransport set_calls sent]. rewrite Hnone.
        apply app_nil_r.
      * exact Ht.
      * subst frame. rewrite Hi. apply Z.mod_small.
        apply decodeMessage_inr in Hdec as (_ & _ & ->). apply read32_range.
      * subst frame. rewrite Hb, decodeErrorResponse_error_body. reflexivity.
    + intros Hn. rewrite Hst', Hn. reflexivity.
  - intros h f e He. repeat split; apply push_guard_lookup, He.
Qed.

(** C2.  A tick of the timeout checker walks the pending table in
    insertion order and marks the entries up to the first one that has not
    expired, an entry being expired when now - timestamp >= requestTimeout.
    Exactly the marked entries leave the table, and the waiter of each is
    rejected with an FbRpcError of code 1005.  When the timestamps do not
    decrease along the table, every expired entry is marked. *)
Theorem timeout_sweep (now : Z) st :
  timeoutCheckInterval st <> None ->
  let marked := expired_prefix now (requestTimeout st) (pendingRequests st) in
  let st' := tick now st in
  pendingRequests st = marked ++ pendingRequests st'
  /\ Forall (fun e => requestTimeout st <= now - timestamp (snd e)) marked
  /\ match pendingRequests st' with
     | e :: _ => now - timestamp (snd e) < requestTimeout st
     | [] => True
     end
  /\ settlements st'
     = settlements st
       ++ map (fun e => Reject (waiter (snd e))
                          (mkFbRpcError 1005 (Js.lit "Request has timed-out") (-1) []))
              marked
  /\ sent st' = sent st
  /\ (StronglySorted (fun a b => timestamp (snd a) <= timestamp (snd b)) (pendingRequests st) ->
      forall e, e ∈ pendingRequests st ->
                requestTimeout st <= now - timestamp (snd e) -> e ∈ marked).
Proof.
  intros Hrun marked st'.
  destruct (expired_prefix_split now (requestTimeout st) (pendingRequests st))
    as (rest & Hsplit & Hall & Hhead).
  fold marked in Hsplit, Hall.
  assert (pendingRequests st' = rest
          /\ settlements st'
             = settlements st
               ++ map (fun e => Reject (waiter (snd e))
                                  (mkFbRpcError 1005 (Js.lit "Request has timed-out") (-1) []))
                      marked
          /\ sent st' = sent st) as (Hp & Hs & Hsent).
  { subst st'. unfold tick. destruct (timeoutCheckInterval st) eqn:Hint; [|contradiction].
    unfold timeoutCheck, JsMap.entries.
    rewrite timedOutRequests_prefix. fold marked.
    rewrite (expire_fold marked rest st Hsplit).
    cbn [pendingRequests set_settlements set_pendingRequests].
    destruct (JsMap.size rest =? 0)%nat.
    - unfold stopTimeoutChecker. cbn [timeoutCheckInterval set_settlements set_pendingRequests].
      rewrite Hint. repeat split.
    - repeat split. }
  rewrite Hp, Hs, Hsent.
  repeat match goal with |- _ /\ _ => split end; auto.
  intros Hsorted e Hin Hexp.
  rewrite Hsplit in Hin. apply elem_of_app in Hin as [Hin|Hin]; [exact Hin|].
  exfalso. destruct rest as [|f rest']; [inversion Hin|].
  rewrite Hsplit in Hsorted.
  assert (StronglySorted (fun a b => timestamp (snd a) <= timestamp (snd b)) (f :: rest'))
    as Hsorted'.
  { clear -Hsorted. induction marked as [|m marked IH]; [exact Hsorted|].
    apply IH. inversion Hsorted; assumption. }
  apply elem_of_cons in Hin as [->|Hin]; [lia|].
  apply StronglySorted_inv in Hsorted' as [_ Hle].
  rewrite List.Forall_forall in Hle. apply list_elem_of_In in Hin.
  specialize (Hle e Hin). lia.
Qed.

(** C9.  After [clean reason]: every waiter that was pending has been
    rejected exactly once, with an FbRpcError of code 1004 whose detail
    message is the reason; the pending table and the dispatcher are empty;
    the guard list of every entry that was in the dispatcher is empty; the
    timeout checker is stopped; the sink is null, and as long as no sink is
    registered again no operation emits a frame. *)
Theorem teardown (reason : Js.JsString) st :
  let st' := clean reason st in
  let err := mkFbRpcError 1004 (Js.lit "Internal error") (-1) reason in
  settlements st'
  = settlements st ++ map (fun r => Reject (waiter r) err) (JsMap.values (pendingRequests st))
  /\ pendingRequests st' = []
  /\ dispatcher st' = []
  /\ (forall method ref e,
        JsMap.get (dispatcher st) method = Some ref -> heap st !! ref = Some e ->
        heap st' !! ref = Some (mkHandlerEntry (Req e) (Res e) (fn e) []))
  /\ timeoutCheckInterval st' = None
  /\ toTransport st' = None
  /\ sent st' = sent st
  /\ (forall ops, Forall keeps_sink ops -> sent (run ops st') = sent st).
Proof.
  intros st' err.
  destruct (clean_eq reason st) as (Hs & Hp & Hd & Hi & Ht & Hsent & _ & Hheap).
  cbv zeta in *. fold st' in Hs, Hp, Hd, Hi, Ht, Hsent, Hheap.
  repeat match goal with |- _ /\ _ => split end; try assumption.
  - intros m ref e Hget He.
    destruct (Hheap ref e He) as (e' & He' & HReq & HRes & Hfn & Hin & _).
    rewrite He'. f_equal. destruct e' as [R1 R2 f1 g1]. cbn in *.
    rewrite HReq, HRes, Hfn, (Hin (JsMap_get_values _ _ _ Hget)). reflexivity.
  - intros ops Hops. destruct (run_facts ops st') as (_ & Hrun).
    destruct (Hrun Hops Ht) as (_ & ->). exact Hsent.
Qed.

(** C3.  In every state that a fresh peer reaches by its operations and
    the ticks of its timer, the timeout checker's interval handle is
    non-null exactly when the pending table is non-empty, and this still
    holds after one more operation.  In particular [request] on an empty
    table starts the checker, and the completion of the only pending
    request, by a Response, an ErrorResponse, the timeout sweep or
    [clean], stops it. *)
Theorem checker_liveness (schema : SchemaDef FBTable) (options_requestTimeout : option Z)
    (counter : Z) (ops : list (Op AppDataType FBTable)) :
  let st := run ops (new_FbRpc schema options_requestTimeout counter) in
  checker_invariant st
  /\ (forall op, checker_invariant (step op st))
  /\ (forall method req appData now body,
        pendingRequests st = [] -> packFB req = inr body ->
        let st' := snd (request method req appData now st) in
        timeoutCheckInterval st' <> None /\ JsMap.size (pendingRequests st') = 1%nat)
  /\ (forall k w,
        pendingRequests st = [(k, w)] ->
        (forall data appData msg,
           decodeMessage data = inr msg -> msg_id msg = k ->
           msg_type msg = MessageType_value Response
           \/ msg_type msg = MessageType_value ErrorResponse ->
           timeoutCheckInterval (snd (fromTransport data appData st)) = None
           /\ pendingRequests (snd (fromTransport data appData st)) = [])
        /\ (forall now,
              requestTimeout st <= now - timestamp w ->
              timeoutCheckInterval (tick now st) = None /\ pendingRequests (tick now st) = [])
        /\ (forall reason,
              timeoutCheckInterval (clean reason st) = None
              /\ pendingRequests (clean reason st) = [])).
Proof.
  intros st.
  assert (checker_invariant st) as Hinv.
  { apply run_facts. unfold checker_invariant, new_FbRpc. cbn. tauto. }
  split; [exact Hinv|]. split; [|split].
  - intros op. apply step_facts, Hinv.
  - intros m req appData now body Hempty Hpack.
    destruct (request_facts m req appData now st) as (_ & _ & H).
    exact (H body Hempty Hpack).
  - intros k w Hp. split; [|split].
    + intros data appData msg Hdec Hid Htype. unfold fromTransport. rewrite Hdec.
      subst k.
      destruct Htype as [-> | ->]; cbn [Z.eqb MessageType_value orb].
      * destruct (completion_facts (fun msg st => snd (handleResponse msg st)) msg st
                    (handleResponse_shape msg st)) as (_ & _ & _ & H).
        exact (H w Hp).
      * destruct (completion_facts handleErrorResponse msg st
                    (handleErrorResponse_shape msg st)) as (_ & _ & _ & H).
        exact (H w Hp).
    + intros now Hexp. destruct (tick_facts now st) as (_ & _ & _ & H). apply H.
      * apply Hinv. rewrite Hp. discriminate.
      * rewrite Hp. repeat constructor. exact Hexp.
    + intros reason. destruct (clean_eq reason st) as (_ & Hp' & _ & Hi & _). auto.
Qed.

End PeerProperties.


(** * The properties on the small configuration *)

Lemma fromTransport_unknown_type_witness :
  fromTransport (encodeMessage 9 1 0 []) true Demo.server = (None, Demo.server).
Proof.
  apply (fromTransport_unknown_type (encodeMessage 9 1 0 []) true Demo.server
           (mkDecodedMessage 9 1 0 [])).
  - reflexivity.
  - intros t. destruct t; discriminate.
Defined.

Lemma fromTransport_parse_error_witness :
  sent (snd (fromTransport [Byte.x02; Byte.x00; Byte.x00] true Demo.server))
  = [(Demo.sink, encodeErrorResponse (-1) 1000 (Js.lit "Failed to parse message"), true)].
Proof.
  apply (fromTransport_parse_error [Byte.x02; Byte.x00; Byte.x00] true Demo.server).
  left. unfold HEADER_SIZE. simpl. lia.
Defined.

Lemma unknown_method_witness :
  fromTransport (encodeMessage 0 4 99 []) true Demo.server
  = callToTransport (encodeErrorResponse 4 1002 (Js.lit "Method not found")) true Demo.server.
Proof.
  apply (unknown_method (encodeMessage 0 4 99 []) true Demo.server (mkDecodedMessage 0 4 99 []));
    reflexivity.
Defined.

Lemma response_completion_witness :
  pendingRequests (snd (fromTransport (encodeMessage 2 1 0 [Byte.x07]) true Demo.client))
  = [(2, mkPendingRequest 2 3 1 150)].
Proof.
  pose proof (response_completion (encodeMessage 2 1 0 [Byte.x07]) true Demo.client
                (mkDecodedMessage 2 1 0 [Byte.x07]) eq_refl eq_refl) as H.
  cbv zeta in H.
  change (JsMap.get (pendingRequests Demo.client) (msg_id (mkDecodedMessage 2 1 0 [Byte.x07])))
    with (Some (mkPendingRequest 1 0 0 100)) in H.
  cbv iota beta in H.
  destruct H as (H & _). rewrite H. reflexivity.
Defined.

Lemma guard_chain_witness :
  calls (snd (fromTransport (encodeMessage 0 5 0 [Byte.x01]) false Demo.server))
  = [(Demo.authenticated, [ArgAppData false])].
Proof.
  refine (proj1 (proj1 (proj2
            (guard_chain (encodeMessage 0 5 0 [Byte.x01]) false Demo.server
               (mkDecodedMessage 0 5 0 [Byte.x01]) 0%nat
               (mkHandlerEntry Demo.reader (Some Demo.reader) Demo.add_handler
                  [mkGuard AppDataGuard Demo.authenticated;
                   mkGuard RequestGuard Demo.small_operand])
               1 _ _ _ _ _))
            [] (mkGuard AppDataGuard Demo.authenticated)
            [mkGuard RequestGuard Demo.small_operand]
            (ThrownValue (mkJsError (Js.lit "Unauthorized") (Js.lit "Error: Unauthorized")))
            _ _ _)).
  - reflexivity.
  - left. reflexivity.
  - reflexivity.
  - reflexivity.
  - reflexivity.
  - reflexivity.
  - constructor.
  - reflexivity.
Defined.

Lemma timeout_sweep_witness :
  pendingRequests Demo.client
  = [(1, mkPendingRequest 1 0 0 100)] ++ pendingRequests (tick 5120 Demo.client).
Proof.
  pose proof (timeout_sweep 5120 Demo.client) as H.
  cbv zeta in H. exact (proj1 (H ltac:(discriminate))).
Defined.

Lemma teardown_witness :
  heap (clean (Js.lit "closed") Demo.server) !! 0%nat
  = Some (mkHandlerEntry Demo.reader (Some Demo.reader) Demo.add_handler []).
Proof.
  refine (proj1 (proj2 (proj2 (proj2 (teardown (Js.lit "closed") Demo.server))))
            0 0%nat
            (mkHandlerEntry Demo.reader (Some Demo.reader) Demo.add_handler
               [mkGuard AppDataGuard Demo.authenticated;
                mkGuard RequestGuard Demo.small_operand]) _ _); reflexivity.
Defined.

Lemma checker_liveness_witness :
  timeoutCheckInterval (clean (Js.lit "closed") Demo.swept_client) = None
  /\ pendingRequests (clean (Js.lit "closed") Demo.swept_client) = [].
Proof.
  pose proof (checker_liveness Demo.demo_schema None 0
                [OpRegisterToTransportCallback Demo.sink;
                 OpRequest 0 (mkPackable (inr [Byte.x2a])) true 100;
                 OpRequest 3 (mkPackable (inr [])) true 150;
                 OpTick 5120]) as H.
  cbv zeta in H. destruct H as (_ & _ & _ & H).
  destruct (H 2 (mkPendingRequest 2 3 1 150) eq_refl) as (_ & _ & Hclean).
  exact (Hclean (Js.lit "closed")).
Defined.

(** C6 as stated fails on a peer without a sink: the Request for the
    unknown method 99 is answered by no frame. *)
Lemma unknown_method_no_sink :
  decodeMessage (encodeMessage 0 4 99 []) = inr (mkDecodedMessage 0 4 99 [])
  /\ JsMap.get (dispatcher Demo.silent_server) 99 = None
  /\ sent (snd (fromTransport (encodeMessage 0 4 99 []) true Demo.silent_server)) = [].
Proof. repeat split. Qed.

(** C5 as stated fails on a peer without a sink: the first guard throws
    on the Request, and no ErrorResponse is emitted. *)
Lemma guard_chain_no_sink :
  decodeMessage (encodeMessage 0 5 0 [Byte.x01]) = inr (mkDecodedMessage 0 5 0 [Byte.x01])
  /\ calls (snd (fromTransport (encodeMessage 0 5 0 [Byte.x01]) false Demo.silent_server))
     = [(Demo.authenticated, [ArgAppData false])]
  /\ Demo.authenticated [ArgAppData false]
     = Throw (ThrownValue (mkJsError (Js.lit "Unauthorized") (Js.lit "Error: Unauthorized")))
  /\ sent (snd (fromTransport (encodeMessage 0 5 0 [Byte.x01]) false Demo.silent_server)) = [].
Proof. repeat split. Qed.

(** C4.  The claim fails on a Response for a pending request whose
    response class throws [null] from its constructor: the [catch] block
    of [handleResponse] reads the message of the caught value, the read
    throws a TypeError, [fromTransport] throws it on, and the waiter, which
    has left the pending table, is neither resolved nor rejected. *)
Lemma response_completion_null_throw :
  let frame := encodeMessage 2 1 0 [Byte.x07] in
  pendingRequests Demo.unlucky_client = [(1, mkPendingRequest 1 0 0 100)]
  /\ decodeMessage frame = inr (mkDecodedMessage 2 1 0 [Byte.x07])
  /\ schema Demo.unlucky_client !! 0
     = Some (mkMethodDef Demo.reader (Some Demo.throwing_reader))
  /\ unpackFB Demo.throwing_reader [Byte.x07] = inl ThrownNull
  /\ fst (fromTransport frame true Demo.unlucky_client)
     = Some (ThrownValue (TypeError_null "message"))
  /\ pendingRequests (snd (fromTransport frame true Demo.unlucky_client)) = []
  /\ settlements (snd (fromTransport frame true Demo.unlucky_client)) = []
  /\ rejected_by_runtime (snd (fromTransport frame true Demo.unlucky_client)) = [].
Proof. repeat split. Qed.


(** * Further properties of the codec *)

Lemma load_range (buf : Uint8Array) (i : nat) : 0 <= load buf i < 256.
Proof.
  unfold load. destruct (buf !! i) as [b|]; [|lia].
  pose proof (byte.unsigned_range b) as H. change (2 ^ 8) with 256 in H. exact H.
Qed.

Lemma load_store_eq (buf : Uint8Array) (i : nat) (v : Z) :
  (i < length buf)%nat -> load (store buf i v) i = byte.wrap v.
Proof.
  intros Hi. unfold load, store, Uint8Array in *. rewrite list_lookup_insert_eq by exact Hi.
  apply byte.unsigned_of_Z.
Qed.

Lemma load_store_ne (buf : Uint8Array) (i j : nat) (v : Z) :
  i <> j -> load (store buf i v) j = load buf j.
Proof.
  intros Hne. unfold load, store, Uint8Array in *.
  rewrite list_lookup_insert_ne by exact Hne. reflexivity.
Qed.

Lemma length_store (buf : Uint8Array) (i : nat) (v : Z) : length (store buf i v) = length buf.
Proof. apply length_insert. Qed.

Lemma lookup_store_ne (buf : Uint8Array) (i j : nat) (v : Z) :
  i <> j -> store buf i v !! j = buf !! j.
Proof. intros Hne. unfold store, Uint8Array in *. apply list_lookup_insert_ne, Hne. Qed.

(** X1.  [write32] followed by [read32] at the same in-range offset gives
    the value modulo 2^32, [readI32] gives it as a signed 32-bit integer;
    the write keeps the length of the buffer and every byte outside the
    four it addresses. *)
Theorem write32_read32 (buf : Uint8Array) (offset : nat) (val : Z) :
  (offset + 3 < length buf)%nat ->
  read32 (write32 buf offset val) offset = val mod 4294967296
  /\ readI32 (write32 buf offset val) offset = Js.ToInt32 val
  /\ length (write32 buf offset val) = length buf
  /\ (forall i, (i < offset \/ offset + 4 <= i)%nat ->
                write32 buf offset val !! i = buf !! i).
Proof.
  intros Hin.
  assert (readI32 (write32 buf offset val) offset = Js.ToInt32 val) as HI.
  { unfold readI32, write32.
    rewrite (load_store_ne _ (offset + 3) offset), (load_store_ne _ (offset + 2) offset),
            (load_store_ne _ (offset + 1) offset) by lia.
    rewrite (load_store_ne _ (offset + 3) (offset + 1)),
            (load_store_ne _ (offset + 2) (offset + 1)) by lia.
    rewrite (load_store_ne _ (offset + 3) (offset + 2)) by lia.
    rewrite !load_store_eq by (rewrite ?length_store; lia).
    apply combine_split_I32. }
  split; [|split; [exact HI|split]].
  - change (read32 (write32 buf offset val) offset)
      with (Js.ushr0 (readI32 (write32 buf offset val) offset)).
    rewrite HI. apply ToUint32_ToInt32.
  - unfold write32. rewrite !length_store. reflexivity.
  - intros i Hi. unfold write32. rewrite !lookup_store_ne by lia. reflexivity.
Qed.

Lemma write32_read32_witness :
  read32 (write32 (replicate 6 Byte.xff) 1 (-2)) 1 = 4294967294.
Proof.
  pose proof (write32_read32 (replicate 6 Byte.xff) 1 (-2)) as H.
  exact (proj1 (H ltac:(simpl; lia))).
Defined.

(** X2.  [write16] followed by [read16] at the same in-range offset gives
    the value modulo 2^16; the write keeps the length of the buffer and
    every byte outside the two it addresses. *)
Theorem write16_read16 (buf : Uint8Array) (offset : nat) (val : Z) :
  (offset + 1 < length buf)%nat ->
  read16 (write16 buf offset val) offset = val mod 65536
  /\ length (write16 buf offset val) = length buf
  /\ (forall i, (i < offset \/ offset + 2 <= i)%nat ->
                write16 buf offset val !! i = buf !! i).
Proof.
  intros Hin. split; [|split].
  - unfold read16, write16.
    rewrite (load_store_ne _ (offset + 1) offset) by lia.
    rewrite !load_store_eq by (rewrite ?length_store; lia).
    apply combine_bytes16.
  - unfold write16. rewrite !length_store. reflexivity.
  - intros i Hi. unfold write16. rewrite !lookup_store_ne by lia. reflexivity.
Qed.

Lemma write16_read16_witness :
  read16 (write16 (replicate 4 Byte.x00) 2 65537) 2 = 1.
Proof.
  pose proof (write16_read16 (replicate 4 Byte.x00) 2 65537) as H.
  exact (proj1 (H ltac:(simpl; lia))).
Defined.

Lemma read16_value (buf : Uint8Array) (offset : nat) :
  read16 buf offset = load buf offset + 256 * load buf (offset + 1).
Proof.
  unfold read16.
  pose proof (load_range buf offset) as H0. pose proof (load_range buf (offset + 1)) as H1.
  set (b0 := load buf offset) in *. set (b1 := load buf (offset + 1)) in *.
  rewrite shl_mul by lia. change (2 ^ 8) with 256.
  rewrite (ToInt32_small b1), (ToInt32_small (b1 * 256)) by lia.
  unfold Js.bor. rewrite (ToInt32_small b0), (ToInt32_small (b1 * 256)) by lia.
  rewrite (lor_shifted b0 b1 256 8) by (reflexivity || lia). lia.
Qed.

(** X3.  [decodeMessage] succeeds exactly on inputs of at least 12 bytes
    that hold the declared body.  A failure is an error of code 1000 with
    id -1.  On success the type is a byte, the method a 16-bit and the id
    a 32-bit unsigned value, and the body is the declared number of bytes
    that follow the header. *)
Theorem decodeMessage_spec (data : Uint8Array) :
  match decodeMessage data with
  | inl e =>
      ((length data < HEADER_SIZE)%nat
       \/ Z.of_nat (length data) - Z.of_nat HEADER_SIZE < read32 data 8)
      /\ err_code e = 1000 /\ err_id e = -1
      /\ err_message e = Js.lit "Failed to parse message"
  | inr msg =>
      (HEADER_SIZE <= length data)%nat
      /\ 0 <= msg_type msg < 256
      /\ 0 <= msg_method msg < 65536
      /\ 0 <= msg_id msg < 4294967296
      /\ Z.of_nat (length (msg_body msg)) = read32 data 8
      /\ data = take HEADER_SIZE data ++ msg_body msg
                ++ drop (HEADER_SIZE + length (msg_body msg)) data
  end.
Proof.
  unfold decodeMessage.
  destruct (Nat.ltb_spec (length data) HEADER_SIZE) as [Hshort|Hlong].
  { split; [left; exact Hshort|]. repeat split. }
  destruct (Z.ltb_spec (Z.of_nat (length data)) (Z.of_nat HEADER_SIZE + read32 data 8))
    as [Hinc|Hfull].
  { split; [right; lia|]. repeat split. }
  cbn [msg_type msg_method msg_id msg_body].
  pose proof (read32_range data 8) as Hlen.
  assert (length (subarray data HEADER_SIZE (HEADER_SIZE + Z.to_nat (read32 data 8)))
          = Z.to_nat (read32 data 8)) as Hbody.
  { unfold subarray. rewrite length_take, length_drop. lia. }
  split; [exact Hlong|]. split; [apply load_range|]. split.
  { rewrite read16_value. pose proof (load_range data 2). pose proof (load_range data (2 + 1)).
    lia. }
  split; [apply read32_range|]. split; [rewrite Hbody; lia|].
  rewrite Hbody. unfold subarray.
  replace (HEADER_SIZE + Z.to_nat (read32 data 8) - HEADER_SIZE)%nat
    with (Z.to_nat (read32 data 8)) by lia.
  rewrite <- (drop_drop data), take_drop, take_drop. reflexivity.
Qed.

(** X4.  [decodeMessage] reads neither the reserved byte nor anything
    after the declared body: changing byte 1 of a frame that decodes and
    appending bytes to it leaves the decoded message the same. *)
Theorem decodeMessage_ignores (data extra : Uint8Array) (reserved : byte)
    (msg : DecodedMessage) :
  decodeMessage data = inr msg ->
  decodeMessage (<[1%nat := reserved]> data ++ extra) = inr msg.
Proof.
  intros Hdec. apply decodeMessage_inr in Hdec as (Hlong & Hfull & ->).
  unfold HEADER_SIZE in *.
  assert (forall i, (i <> 1)%nat -> (i < 12)%nat ->
            load (<[1%nat := reserved]> data ++ extra) i = load data i) as Hload.
  { intros i Hne Hi. unfold load, Uint8Array in *.
    rewrite lookup_app_l by (rewrite length_insert; lia).
    rewrite list_lookup_insert_ne by lia. reflexivity. }
  assert (read32 (<[1%nat := reserved]> data ++ extra) 8 = read32 data 8) as H8.
  { unfold read32. rewrite !Hload by lia. reflexivity. }
  assert (read32 (<[1%nat := reserved]> data ++ extra) 4 = read32 data 4) as H4.
  { unfold read32. rewrite !Hload by lia. reflexivity. }
  assert (read16 (<[1%nat := reserved]> data ++ extra) 2 = read16 data 2) as H2.
  { unfold read16. rewrite !Hload by lia. reflexivity. }
  unfold decodeMessage, HEADER_SIZE. rewrite H8, H4, H2, Hload by lia.
  rewrite length_app, (length_insert data).
  destruct (Nat.ltb_spec (length data + length extra) 12); [lia|].
  destruct (Z.ltb_spec (Z.of_nat (length data + length extra)) (Z.of_nat 12 + read32 data 8));
    [lia|].
  do 2 f_equal. unfold subarray, Uint8Array in *.
  pose proof (read32_range data 8) as Hlen.
  replace (12 + Z.to_nat (read32 data 8) - 12)%nat with (Z.to_nat (read32 data 8)) by lia.
  rewrite drop_app_le by (rewrite length_insert; lia).
  rewrite take_app_le by (rewrite length_drop, length_insert; lia).
  f_equal. rewrite drop_insert_lt by lia. reflexivity.
Qed.

Lemma decodeMessage_ignores_witness :
  decodeMessage (<[1%nat := Byte.xff]> (encodeMessage 1 0 3 [Byte.x2a]) ++ [Byte.x2b])
  = inr (mkDecodedMessage 1 0 3 [Byte.x2a]).
Proof.
  exact (decodeMessage_ignores (encodeMessage 1 0 3 [Byte.x2a]) [Byte.x2b] Byte.xff
           (mkDecodedMessage 1 0 3 [Byte.x2a]) eq_refl).
Defined.

Lemma encodeVoidResponse_eq (id method : Z) :
  encodeVoidResponse id method = encodeMessage (MessageType_value Response) id method [].
Proof. rewrite encodeMessage_header. reflexivity. Qed.

(** X5.  [encodeVoidResponse] builds the frame that [encodeMessage] builds
    for a Response with an empty body; it decodes to a Response with the
    id and method as unsigned 32-bit and 16-bit values and no body. *)
Theorem encodeVoidResponse_encodeMessage (id method : Z) :
  encodeVoidResponse id method = encodeMessage (MessageType_value Response) id method []
  /\ decodeMessage (encodeVoidResponse id method)
     = inr (mkDecodedMessage (MessageType_value Response) (id mod 4294967296)
                             (method mod 65536) []).
Proof.
  pose proof (encodeVoidResponse_eq id method) as E.
  split; [exact E|]. rewrite E, decode_encode. reflexivity.
Qed.

(** X6.  [decodeErrorResponse] does not fail on a body shorter than four
    bytes: the code is the little-endian value of the bytes present and
    the message is empty. *)
Theorem decodeErrorResponse_short (body : Uint8Array) :
  (length body < 4)%nat ->
  decodeErrorResponse body
  = (load body 0 + 256 * load body 1 + 65536 * load body 2, []).
Proof.
  intros Hlen. unfold decodeErrorResponse, readI32, subarray_from.
  cbn [Nat.add].
  assert (load body 3 = 0) as ->.
  { unfold load, Uint8Array in *. rewrite lookup_ge_None_2 by lia. reflexivity. }
  pose proof (load_range body 0). pose proof (load_range body 1).
  pose proof (load_range body 2).
  rewrite combine_bytes by lia. rewrite ToInt32_small by lia.
  unfold Uint8Array in *. rewrite drop_ge by lia.
  f_equal. lia.
Qed.

Lemma decodeErrorResponse_short_witness :
  decodeErrorResponse [Byte.xe8; Byte.x03] = (1000, []).
Proof.
  exact (decodeErrorResponse_short [Byte.xe8; Byte.x03] ltac:(simpl; lia)).
Defined.

Lemma decodeMessage_encodeErrorResponse (id code : Z) (message : Js.JsString) :
  Z.of_nat (length (error_body code message)) < 4294967296 ->
  decodeMessage (encodeErrorResponse id code message)
  = inr (mkDecodedMessage 3 (id mod 4294967296) 0 (error_body code message)).
Proof.
  intros Hlen. rewrite encodeErrorResponse_eq, decodeMessage_header.
  rewrite (Z.mod_small (Z.of_nat _)) by lia.
  destruct (Z.ltb_spec (Z.of_nat (length (error_body code message)))
                       (Z.of_nat (length (error_body code message)))); [lia|].
  rewrite Nat2Z.id, take_ge by lia. reflexivity.
Qed.

Lemma JsMap_get_set_eq {V} (m : JsMap.t V) (k : Z) (v : V) :
  JsMap.get (JsMap.set m k v) k = Some v.
Proof.
  induction m as [|[k' v'] m IH]; cbn [JsMap.set JsMap.get].
  - rewrite Z.eqb_refl. reflexivity.
  - destruct (Z.eqb_spec k' k) as [->|Hne]; cbn [JsMap.get].
    + rewrite Z.eqb_refl. reflexivity.
    + destruct (Z.eqb_spec k' k); [contradiction|]. exact IH.
Qed.

Lemma JsMap_get_set_ne {V} (m : JsMap.t V) (k k' : Z) (v : V) :
  k <> k' -> JsMap.get (JsMap.set m k v) k' = JsMap.get m k'.
Proof.
  intros Hne. induction m as [|[k2 v2] m IH]; cbn [JsMap.set JsMap.get].
  - destruct (Z.eqb_spec k k'); [contradiction|]. reflexivity.
  - destruct (Z.eqb_spec k2 k) as [->|Hne2]; cbn [JsMap.get].
    + destruct (Z.eqb_spec k k'); [contradiction|]. reflexivity.
    + destruct (Z.eqb_spec k2 k'); [reflexivity|]. exact IH.
Qed.

Lemma JsMap_set_fresh {V} (m : JsMap.t V) (k : Z) (v : V) :
  JsMap.get m k = None -> JsMap.set m k v = m ++ [(k, v)].
Proof.
  induction m as [|[k' v'] m IH]; [reflexivity|].
  cbn [JsMap.get JsMap.set]. destruct (k' =? k); [discriminate|].
  intros H. cbn [app]. rewrite IH by exact H. reflexivity.
Qed.

(** * Further properties of the peer *)

Section EffectsOf.

Context {AppDataType FBTable : Type}.
Local Abbreviation FbRpc := (FbRpc AppDataType FBTable).
Implicit Types st : FbRpc.

Lemma effects_of_refl st : effects_of st st.
Proof. exists (sent st), (jobs st), (calls st). destruct st. reflexivity. Qed.

Lemma effects_of_trans st1 st2 st3 :
  effects_of st1 st2 -> effects_of st2 st3 -> effects_of st1 st3.
Proof.
  intros (s & j & c & ->) (s' & j' & c' & ->). exists s', j', c'. reflexivity.
Qed.

Lemma effects_of_callToTransport (data : Uint8Array) (appData : AppDataType) st :
  effects_of st (snd (callToTransport data appData st)).
Proof.
  unfold callToTransport. destruct (toTransport st); [|apply effects_of_refl].
  eexists _, (jobs st), (calls st). destruct st. reflexivity.
Qed.

Lemma effects_of_set_calls c st : effects_of st (set_calls c st).
Proof. exists (sent st), (jobs st), c. destruct st. reflexivity. Qed.

Lemma effects_of_set_jobs j st : effects_of st (set_jobs j st).
Proof. exists (sent st), j, (calls st). destruct st. reflexivity. Qed.

Lemma effects_of_sendError (id code : Z) (text : JsError + Js.JsString)
    (appData : AppDataType) st :
  effects_of st (snd (sendError id code text appData st)).
Proof.
  unfold sendError. destruct text;
    [apply effects_of_refl | apply effects_of_callToTransport].
Qed.

Lemma effects_of_respond (id method : Z) (hasRes : bool) (res : option FBPackable)
    (appData : AppDataType) st :
  effects_of st (snd (respond id method hasRes res appData st)).
Proof.
  unfold respond. destruct res as [obj|]; [destruct (negb hasRes); [|destruct (packFB obj)]|];
    try apply effects_of_callToTransport. apply effects_of_refl.
Qed.

Lemma effects_of_run_guards (gs : list (GuardEntry AppDataType FBTable)) (req : FBTable)
    (appData : AppDataType) st :
  effects_of st (snd (run_guards gs req appData st)).
Proof.
  revert st. induction gs as [|g gs IH]; intros st; [apply effects_of_refl|].
  cbn [run_guards call]. destruct (guard_fn g _).
  - eapply effects_of_trans; [|apply IH]. apply effects_of_set_calls.
  - apply effects_of_set_calls.
Qed.

Lemma effects_of_try_handler (msg : DecodedMessage) (appData : AppDataType)
    (handler : HandlerEntry AppDataType FBTable) (req : FBTable) st :
  effects_of st (snd (try_handler msg appData handler req st)).
Proof.
  unfold try_handler. cbn [call].
  eapply effects_of_trans; [apply (effects_of_set_calls
      (calls st ++ [(fn handler, [ArgReq req; ArgAppData appData])]))|].
  destruct (fn handler [ArgReq req; ArgAppData appData]) as [[|p|obj]|err];
    try destruct (_ =? _); try apply effects_of_refl;
    first [apply effects_of_respond | apply effects_of_set_jobs].
Qed.

Lemma effects_of_handleRequest (msg : DecodedMessage) (appData : AppDataType) st :
  effects_of st (snd (handleRequest msg appData st)).
Proof.
  unfold handleRequest.
  destruct (JsMap.get (dispatcher st) (msg_method msg)) as [ref|].
  2:{ destruct (negb _); [apply effects_of_callToTransport | apply effects_of_refl]. }
  destruct (heap st !! ref) as [handler|]; [|apply effects_of_refl].
  destruct (unpackFB (Req handler) (msg_body msg)) as [e|req].
  { destruct (negb _); [apply effects_of_sendError | apply effects_of_refl]. }
  pose proof (effects_of_run_guards (guards handler) req appData st) as Hg.
  destruct (run_guards (guards handler) req appData st) as [[err|] st1]; cbn [snd] in Hg.
  { destruct (_ =? _); [exact Hg|].
    eapply effects_of_trans; [exact Hg | apply effects_of_sendError]. }
  eapply effects_of_trans; [exact Hg|].
  pose proof (effects_of_try_handler msg appData handler req st1) as Hh.
  destruct (try_handler msg appData handler req st1) as [[err|] st2]; cbn [snd] in Hh |- *;
    [|exact Hh].
  destruct (_ =? _); [exact Hh|].
  eapply effects_of_trans; [exact Hh | apply effects_of_sendError].
Qed.

Lemma effects_of_run_job (i : nat) st : effects_of st (snd (run_job i st)).
Proof.
  unfold run_job. destruct (jobs st !! i) as [j|]; [|apply effects_of_refl].
  destruct (job_result j) as [res|e].
  - pose proof (effects_of_respond (job_id j) (job_method j) (job_hasRes j) res
                  (job_appData j) st) as Hr.
    destruct (respond _ _ _ _ _ st) as [[e|] st1]; cbn [snd] in Hr |- *;
      (eapply effects_of_trans; [exact Hr | apply effects_of_set_jobs]).
  - eapply effects_of_trans; [apply (effects_of_set_jobs (delete i (jobs st)))|].
    apply effects_of_sendError.
Qed.

Lemma effects_of_notify (method : Z) (req : FBPackable) (appData : AppDataType) st :
  effects_of st (snd (notify method req appData st)).
Proof.
  unfold notify. destruct (packFB req);
    [apply effects_of_refl | apply effects_of_callToTransport].
Qed.

(** What [effects_of] leaves alone. *)
Lemma effects_of_fields st st' :
  effects_of st st' ->
  requestTimeout st' = requestTimeout st
  /\ toTransport st' = toTransport st
  /\ dispatcher st' = dispatcher st
  /\ pendingRequests st' = pendingRequests st
  /\ schema st' = schema st
  /\ timeoutCheckInterval st' = timeoutCheckInterval st
  /\ requestIdCounter st' = requestIdCounter st
  /\ heap st' = heap st
  /\ timers st' = timers st
  /\ promises st' = promises st
  /\ settlements st' = settlements st
  /\ rejected_by_runtime st' = rejected_by_runtime st.
Proof. intros (s & j & c & ->). repeat split. Qed.

End EffectsOf.


Section PeerMore.

Context {AppDataType FBTable : Type}.
Local Abbreviation FbRpc := (FbRpc AppDataType FBTable).
Implicit Types st : FbRpc.

(** X7.  An inbound ErrorResponse whose correlation id has no pending
    waiter changes nothing.  Otherwise the waiter leaves the pending table
    and is rejected once, with the code and the message decoded from the
    body and the frame's id; nothing is emitted, and the method field of
    the frame plays no part. *)
Theorem error_completion (data : Uint8Array) (appData : AppDataType) st
    (msg : DecodedMessage) :
  decodeMessage data = inr msg ->
  msg_type msg = MessageType_value ErrorResponse ->
  let st' := snd (fromTransport data appData st) in
  match JsMap.get (pendingRequests st) (msg_id msg) with
  | None => st' = st
  | Some w =>
      pendingRequests st' = JsMap.delete (pendingRequests st) (msg_id msg)
      /\ settlements st'
         = settlements st
           ++ [Reject (waiter w)
                 (mkFbRpcError (fst (decodeErrorResponse (msg_body msg)))
                               (snd (decodeErrorResponse (msg_body msg)))
                               (msg_id msg) [])]
      /\ sent st' = sent st
      /\ jobs st' = jobs st
      /\ calls st' = calls st
  end.
Proof.
  intros Hdec Htype st'.
  assert (st' = handleErrorResponse msg st) as ->.
  { subst st'. unfold fromTransport. rewrite Hdec, Htype. reflexivity. }
  unfold handleErrorResponse.
  destruct (JsMap.get (pendingRequests st) (msg_id msg)) as [w|]; [|reflexivity].
  destruct (decodeErrorResponse (msg_body msg)) as [code message]. cbn [fst snd].
  destruct (_ =? 0)%nat; [rewrite stopTimeoutChecker_eq|]; repeat split.
Qed.

(** X8.  The ErrorResponse that a peer builds with [encodeErrorResponse]
    for a correlation id, delivered to the peer where a waiter is pending
    under that id, rejects that waiter with exactly the code and the
    message given (for a signed 32-bit code and a message that the text
    codec gives back). *)
Theorem error_reply_reaches_caller (k code : Z) (message : Js.JsString)
    (appData : AppDataType) st (w : PendingRequest) :
  0 <= k < 4294967296 ->
  -2147483648 <= code < 2147483648 ->
  Encoding.well_formed message = true ->
  Encoding.starts_with_bom message = false ->
  Z.of_nat (length (Encoding.encode message)) + 4 < 4294967296 ->
  JsMap.get (pendingRequests st) k = Some w ->
  let st' := snd (fromTransport (encodeErrorResponse k code message) appData st) in
  settlements st' = settlements st ++ [Reject (waiter w) (mkFbRpcError code message k [])]
  /\ pendingRequests st' = JsMap.delete (pendingRequests st) k
  /\ sent st' = sent st.
Proof.
  intros Hk Hcode Hwf Hbom Hlen Hget st'.
  assert (decodeMessage (encodeErrorResponse k code message)
          = inr (mkDecodedMessage 3 k 0 (error_body code message))) as Hdec.
  { rewrite decodeMessage_encodeErrorResponse.
    - rewrite Z.mod_small by exact Hk. reflexivity.
    - unfold error_body. rewrite length_app. cbn [length]. lia. }
  assert (st' = handleErrorResponse (mkDecodedMessage 3 k 0 (error_body code message)) st) as ->.
  { subst st'. unfold fromTransport. rewrite Hdec. reflexivity. }
  unfold handleErrorResponse. cbn [msg_id msg_body]. rewrite Hget.
  rewrite decodeErrorResponse_error_body, text_roundtrip by assumption.
  rewrite ToInt32_small by exact Hcode.
  destruct (_ =? 0)%nat; [rewrite stopTimeoutChecker_eq|]; repeat split.
Qed.

End PeerMore.

Lemma error_completion_witness :
  settlements (snd (fromTransport (encodeErrorResponse 1 1002 (Js.lit "Method not found"))
                                  true Demo.client))
  = [Reject 0 (mkFbRpcError 1002 (Js.lit "Method not found") 1 [])].
Proof.
  pose proof (error_completion (encodeErrorResponse 1 1002 (Js.lit "Method not found"))
                true Demo.client
                (mkDecodedMessage 3 1 0 (error_body 1002 (Js.lit "Method not found")))
                eq_refl eq_refl) as H.
  cbv zeta in H.
  change (JsMap.get (pendingRequests Demo.client)
            (msg_id (mkDecodedMessage 3 1 0 (error_body 1002 (Js.lit "Method not found")))))
    with (Some (mkPendingRequest 1 0 0 100)) in H.
  cbv iota beta in H. destruct H as (_ & H & _). rewrite H. reflexivity.
Defined.

Lemma error_reply_reaches_caller_witness :
  settlements (snd (fromTransport (encodeErrorResponse 2 1007 (Js.lit "boom")) true
                                  Demo.client))
  = settlements Demo.client ++ [Reject 1 (mkFbRpcError 1007 (Js.lit "boom") 2 [])].
Proof.
  pose proof (error_reply_reaches_caller 2 1007 (Js.lit "boom") true Demo.client
                (mkPendingRequest 2 3 1 150)) as H.
  cbv zeta in H.
  exact (proj1 (H ltac:(lia) ltac:(lia) eq_refl eq_refl ltac:(vm_compute; reflexivity) eq_refl)).
Defined.


Section PeerOutbound.

Context {AppDataType FBTable : Type}.
Local Abbreviation FbRpc := (FbRpc AppDataType FBTable).
Implicit Types st : FbRpc.

(** The state that a [request] whose body packs leaves. *)
Lemma request_state (method : Z) (req : FBPackable) (appData : AppDataType) (now : Z) st
    (body : Uint8Array) :
  packFB req = inr body ->
  let k := (requestIdCounter st + 1) mod 4294967296 in
  let w := mkPendingRequest k method (promises st) now in
  let frame := encodeMessage (MessageType_value Request) k method body in
  exists t n,
    request method req appData now st
    = (inr (promises st),
       set_rejected_by_runtime
         (rejected_by_runtime st
          ++ match toTransport st with
             | Some cb => match cb frame appData with
                          | Some e => [(promises st, e)]
                          | None => []
                          end
             | None => []
             end)
         (set_sent
            (sent st ++ match toTransport st with
                        | Some cb => [(cb, frame, appData)]
                        | None => []
                        end)
            (set_timers n
               (set_timeoutCheckInterval t
                  (set_pendingRequests (JsMap.set (pendingRequests st) k w)
                     (set_promises (S (promises st)) (set_requestIdCounter k st))))))).
Proof.
  intros Hpack k w frame. unfold request, generateRequestId. rewrite Hpack.
  change (Js.ushr0 (requestIdCounter st + 1)) with k.
  cbn [promises set_requestIdCounter pendingRequests set_promises set_pendingRequests].
  fold w. fold frame. unfold callToTransport.
  destruct (_ =? 1)%nat;
    [unfold startTimeoutChecker;
     cbn [timeoutCheckInterval set_pendingRequests set_promises set_requestIdCounter];
     destruct (timeoutCheckInterval st) as [t|] eqn:Ht|];
    cbn [toTransport set_timers set_timeoutCheckInterval set_pendingRequests set_promises
         set_requestIdCounter timers];
    [exists (Some t), (timers st) | exists (Some (timers st)), (S (timers st))
     | exists (timeoutCheckInterval st), (timers st)];
    (destruct (toTransport st) as [cb|] eqn:Hcb;
     [destruct (cb frame appData)|]); f_equal; destruct st; cbn in *; subst;
    rewrite ?app_nil_r; reflexivity.
Qed.

(** X9.  A [request] whose body packs takes the next id modulo 2^32,
    makes the waiter pending under that id with the clock reading as its
    timestamp (at the end of the table when the id was not pending), and
    hands the sink, when one is set, one frame, which decodes to a Request
    with that same id, the method and the packed body. *)
Theorem request_registers_waiter (method : Z) (req : FBPackable) (appData : AppDataType)
    (now : Z) st (body : Uint8Array) :
  packFB req = inr body ->
  0 <= method < 65536 ->
  Z.of_nat (length body) < 4294967296 ->
  let k := (requestIdCounter st + 1) mod 4294967296 in
  let w := mkPendingRequest k method (promises st) now in
  let frame := encodeMessage (MessageType_value Request) k method body in
  let st' := snd (request method req appData now st) in
  fst (request method req appData now st) = inr (promises st)
  /\ JsMap.get (pendingRequests st') k = Some w
  /\ (forall k', k' <> k ->
        JsMap.get (pendingRequests st') k' = JsMap.get (pendingRequests st) k')
  /\ (JsMap.get (pendingRequests st) k = None ->
      pendingRequests st' = pendingRequests st ++ [(k, w)])
  /\ sent st' = sent st ++ match toTransport st with
                           | Some cb => [(cb, frame, appData)]
                           | None => []
                           end
  /\ decodeMessage frame
     = inr (mkDecodedMessage (MessageType_value Request) k method body)
  /\ settlements st' = settlements st
  /\ dispatcher st' = dispatcher st.
Proof.
  intros Hpack Hm Hlen k w frame st'.
  destruct (request_state method req appData now st body Hpack) as (t & n & Hreq).
  fold k w frame in Hreq. subst st'. rewrite Hreq.
  cbn [fst snd pendingRequests sent settlements dispatcher set_rejected_by_runtime set_sent
       set_timers set_timeoutCheckInterval set_pendingRequests set_promises
       set_requestIdCounter].
  split; [reflexivity|]. split; [apply JsMap_get_set_eq|].
  split; [intros k' Hne; apply JsMap_get_set_ne; congruence|].
  split; [apply JsMap_set_fresh|]. split; [reflexivity|]. split; [|split; reflexivity].
  subst frame. rewrite decode_encode.
  assert (0 <= k < 4294967296) by (subst k; zlia).
  rewrite (Z.mod_small k), (Z.mod_small method), (Z.mod_small (Z.of_nat _)) by lia.
  rewrite Nat2Z.id, take_ge by lia. reflexivity.
Qed.

(** A [request] whose body does not pack throws the exception of [pack]:
    no waiter is made pending and nothing is sent, but the id is taken. *)
Lemma request_pack_throws (method : Z) (req : FBPackable) (appData : AppDataType)
    (now : Z) st (e : Thrown) :
  packFB req = inl e ->
  request method req appData now st
  = (inl e, set_requestIdCounter ((requestIdCounter st + 1) mod 4294967296) st).
Proof. intros Hpack. unfold request, generateRequestId. rewrite Hpack. reflexivity. Qed.

(** X10.  [notify] hands the sink, when one is set, the one frame that
    [encodeNotification] returns, a Notification with correlation id 0;
    it makes no waiter pending, takes no id and leaves the checker alone.
    When the body does not pack, both throw and nothing changes. *)
Theorem notify_sends_notification (method : Z) (req : FBPackable) (appData : AppDataType) st :
  match packFB req with
  | inr body =>
      let frame := encodeMessage (MessageType_value Notification) 0 method body in
      encodeNotification method req = inr frame
      /\ notify method req appData st = callToTransport frame appData st
      /\ sent (snd (notify method req appData st))
         = sent st ++ match toTransport st with
                      | Some cb => [(cb, frame, appData)]
                      | None => []
                      end
      /\ (Z.of_nat (length body) < 4294967296 ->
          decodeMessage frame
          = inr (mkDecodedMessage (MessageType_value Notification) 0 (method mod 65536) body))
  | inl e =>
      encodeNotification method req = inl e
      /\ notify method req appData st = (Some e, st)
  end
  /\ pendingRequests (snd (notify method req appData st)) = pendingRequests st
  /\ requestIdCounter (snd (notify method req appData st)) = requestIdCounter st
  /\ timeoutCheckInterval (snd (notify method req appData st)) = timeoutCheckInterval st
  /\ settlements (snd (notify method req appData st)) = settlements st.
Proof.
  split.
  - unfold notify, encodeNotification. destruct (packFB req) as [e|body]; [split; reflexivity|].
    cbn [fst snd]. rewrite sent_callToTransport.
    repeat match goal with |- _ /\ _ => split end; try reflexivity.
    intros Hlen. rewrite decode_encode.
    rewrite (Z.mod_small (Z.of_nat _)) by lia. rewrite Nat2Z.id, take_ge by lia. reflexivity.
  - destruct (effects_of_fields _ _ (effects_of_notify method req appData st))
      as (_ & _ & _ & Hp & _ & Hi & Hc & _ & _ & _ & Hs & _).
    auto.
Qed.

End PeerOutbound.

Lemma request_registers_waiter_witness :
  JsMap.get (pendingRequests (snd (request 3 (mkPackable (inr [Byte.x09])) true 200 Demo.client))) 3
  = Some (mkPendingRequest 3 3 2 200).
Proof.
  pose proof (request_registers_waiter 3 (mkPackable (inr [Byte.x09])) true 200 Demo.client
                [Byte.x09] eq_refl ltac:(lia) ltac:(simpl; lia)) as H.
  cbv zeta in H. exact (proj1 (proj2 H)).
Defined.


Section PeerInbound.

Context {AppDataType FBTable : Type}.
Local Abbreviation FbRpc := (FbRpc AppDataType FBTable).
Implicit Types st : FbRpc.

Lemma run_guards_calls_only (gs : list (GuardEntry AppDataType FBTable)) (req : FBTable)
    (appData : AppDataType) st :
  exists c, snd (run_guards gs req appData st) = set_calls c st.
Proof.
  revert st. induction gs as [|g gs IH]; intros st.
  - exists (calls st). cbn. destruct st. reflexivity.
  - cbn [run_guards call]. destruct (guard_fn g _).
    + destruct (IH (set_calls (calls st ++ [(guard_fn g, guard_args g req appData)]) st))
        as (c & ->). exists c. reflexivity.
    + eexists. reflexivity.
Qed.

(** X11.  An inbound Notification never produces output, whatever the
    dispatcher, the guards and the handler do or throw: no frame is sent,
    no continuation is scheduled for a returned promise, the pending
    table, the settled promises and the checker are as before, and
    [fromTransport] throws nothing. *)
Theorem notification_is_silent (data : Uint8Array) (appData : AppDataType) st
    (msg : DecodedMessage) :
  decodeMessage data = inr msg ->
  msg_type msg = MessageType_value Notification ->
  let st' := snd (fromTransport data appData st) in
  sent st' = sent st
  /\ jobs st' = jobs st
  /\ pendingRequests st' = pendingRequests st
  /\ settlements st' = settlements st
  /\ timeoutCheckInterval st' = timeoutCheckInterval st
  /\ dispatcher st' = dispatcher st
  /\ heap st' = heap st
  /\ fst (fromTransport data appData st) = None.
Proof.
  intros Hdec Htype st'.
  assert (exists c, fromTransport data appData st = (None, set_calls c st)) as (c & Hft).
  2:{ subst st'. rewrite Hft. repeat split. }
  unfold fromTransport. rewrite Hdec, Htype. cbn [Z.eqb MessageType_value orb].
  unfold handleRequest. rewrite Htype. cbn [Z.eqb MessageType_value negb].
  assert (exists c, (None : option Thrown, st) = (None, set_calls c st)) as Hsame
    by (exists (calls st); destruct st; reflexivity).
  destruct (JsMap.get (dispatcher st) (msg_method msg)) as [ref|]; [|exact Hsame].
  destruct (heap st !! ref) as [handler|]; [|exact Hsame].
  destruct (unpackFB (Req handler) (msg_body msg)) as [e|req]; [exact Hsame|].
  destruct (run_guards_calls_only (guards handler) req appData st) as (c & Hc).
  destruct (run_guards (guards handler) req appData st) as [[err|] st1]; cbn [snd] in Hc;
    subst st1; [eexists; reflexivity|].
  unfold try_handler. rewrite Htype. cbn [call Z.eqb MessageType_value].
  destruct (fn handler _); eexists; reflexivity.
Qed.

(** X12.  A Request whose body the handler's request constructor rejects
    by throwing a value other than [undefined] and [null] is answered,
    when a sink is set, by exactly one ErrorResponse with the request's
    id, code 1001 and the message of the thrown value.  When the
    constructor throws [undefined] or [null], reading the message in the
    [catch] block throws: [fromTransport] throws that TypeError, nothing is
    sent and the state is as before.  In both cases neither a guard nor the
    handler is called.  A Notification with such a body changes nothing and
    throws nothing. *)
Theorem invalid_request_body (data : Uint8Array) (appData : AppDataType) st
    (msg : DecodedMessage) (ref : nat) (handler : HandlerEntry AppDataType FBTable)
    (e : Thrown) :
  decodeMessage data = inr msg ->
  JsMap.get (dispatcher st) (msg_method msg) = Some ref ->
  heap st !! ref = Some handler ->
  unpackFB (Req handler) (msg_body msg) = inl e ->
  (msg_type msg = MessageType_value Request ->
   calls (snd (fromTransport data appData st)) = calls st
   /\ match message_of e with
      | inr text =>
          let frame := encodeErrorResponse (msg_id msg) 1001 text in
          fromTransport data appData st = callToTransport frame appData st
          /\ sent (snd (fromTransport data appData st))
             = sent st ++ match toTransport st with
                          | Some cb => [(cb, frame, appData)]
                          | None => []
                          end
          /\ load frame 0 = MessageType_value ErrorResponse
          /\ read32 frame 4 = msg_id msg
          /\ fst (decodeErrorResponse (subarray_from frame HEADER_SIZE)) = 1001
      | inl typeError =>
          fromTransport data appData st = (Some (ThrownValue typeError), st)
      end)
  /\ (msg_type msg = MessageType_value Notification ->
      fromTransport data appData st = (None, st)).
Proof.
  intros Hdec Hget Hheap Hun. split.
  - intros Htype.
    assert (fromTransport data appData st
            = sendError (msg_id msg) 1001 (message_of e) appData st) as ->.
    { unfold fromTransport. rewrite Hdec, Htype. cbn [Z.eqb MessageType_value orb].
      unfold handleRequest. rewrite Hget, Hheap, Hun, Htype. reflexivity. }
    split; [apply sendError_frame|].
    destruct (message_of e) as [typeError|text]; [reflexivity|].
    cbn [sendError]. cbv zeta.
    destruct (error_frame_fields (msg_id msg) 1001 text) as (Ht & _ & Hi & Hb).
    split; [reflexivity|]. split; [apply sent_callToTransport|].
    split; [exact Ht|]. split.
    + rewrite Hi. apply Z.mod_small.
      apply decodeMessage_inr in Hdec as (_ & _ & ->). apply read32_range.
    + rewrite Hb, decodeErrorResponse_error_body. reflexivity.
  - intros Htype. unfold fromTransport. rewrite Hdec, Htype. cbn [Z.eqb MessageType_value orb].
    unfold handleRequest. rewrite Hget, Hheap, Hun, Htype. reflexivity.
Qed.

End PeerInbound.


Lemma notification_is_silent_witness :
  sent (snd (fromTransport (encodeMessage 1 0 0 [Byte.x07]) true Answering.server))
  = sent Answering.server.
Proof.
  pose proof (notification_is_silent (encodeMessage 1 0 0 [Byte.x07]) true Answering.server
                (mkDecodedMessage 1 0 0 [Byte.x07]) eq_refl eq_refl) as H.
  cbv zeta in H. exact (proj1 H).
Defined.

Lemma invalid_request_body_witness :
  fromTransport (encodeMessage 0 9 0 []) true Answering.server
  = callToTransport (encodeErrorResponse 9 1001 (Js.lit "empty buffer")) true Answering.server.
Proof.
  pose proof (invalid_request_body (encodeMessage 0 9 0 []) true Answering.server
                (mkDecodedMessage 0 9 0 []) 0%nat
                (mkHandlerEntry Answering.picky (Some Answering.picky) Answering.succ_handler [])
                (ThrownValue (mkJsError (Js.lit "empty buffer") (Js.lit "Error: empty buffer")))
                eq_refl eq_refl eq_refl eq_refl) as H.
  cbv zeta in H. exact (proj1 (proj2 (proj1 H eq_refl))).
Defined.

Lemma id_field_of_header (type id method len : Z) (rest : Uint8Array) :
  read32 (header type id method len ++ rest) 4 = id mod 4294967296.
Proof. apply (load_header_body type id method len rest). Qed.

Section PeerReplies.

Context {AppDataType FBTable : Type}.
Local Abbreviation FbRpc := (FbRpc AppDataType FBTable).
Implicit Types st : FbRpc.

Lemma void_carries_id (k method : Z) :
  0 <= k < 4294967296 -> read32 (encodeVoidResponse k method) 4 = k.
Proof.
  intros Hk. rewrite encodeVoidResponse_eq.
  rewrite encodeMessage_header, id_field_of_header. apply Z.mod_small, Hk.
Qed.

Lemma response_carries_id (type k method : Z) (body : Uint8Array) :
  0 <= k < 4294967296 -> read32 (encodeMessage type k method body) 4 = k.
Proof.
  intros Hk. rewrite encodeMessage_header, id_field_of_header. apply Z.mod_small, Hk.
Qed.

Lemma error_carries_id (k code : Z) (message : Js.JsString) :
  0 <= k < 4294967296 -> read32 (encodeErrorResponse k code message) 4 = k.
Proof.
  intros Hk. rewrite encodeErrorResponse_eq, id_field_of_header. apply Z.mod_small, Hk.
Qed.

Lemma effects_of_fields_jobs_respond (id method : Z) (hasRes : bool) (res : option FBPackable)
    (appData : AppDataType) st :
  jobs (snd (respond id method hasRes res appData st)) = jobs st.
Proof.
  unfold respond. destruct res as [obj|]; [destruct (negb hasRes); [|destruct (packFB obj)]|];
    try apply callToTransport_frame. reflexivity.
Qed.

(** X13.  A Request that passes the guards of its handler, on a peer with
    a sink.  When the handler returns nothing or the schema declares no
    response, the sink gets the body-less Response; when it returns an
    object that packs, the Response with the packed value.  If the sink
    returns, that is the one frame sent.  Whatever the handler, the packing
    or the sink throws is caught: when it is neither [undefined] nor
    [null], the sink gets the ErrorResponse with code 1007 and its message
    (a second frame, when it was the sink that threw on the first), and
    what the sink throws on that frame leaves [fromTransport]; when it is
    [undefined] or [null], reading its message throws, no ErrorResponse is
    sent and [fromTransport] throws the TypeError.  Every frame carries the
    request's id.  When the handler returns a promise, nothing is sent and
    one pair of reactions is scheduled. *)
Theorem handler_reply (data : Uint8Array) (appData : AppDataType) st (msg : DecodedMessage)
    (ref : nat) (handler : HandlerEntry AppDataType FBTable) (req : FBTable)
    (cb : TransportCallback AppDataType) :
  decodeMessage data = inr msg ->
  msg_type msg = MessageType_value Request ->
  JsMap.get (dispatcher st) (msg_method msg) = Some ref ->
  heap st !! ref = Some handler ->
  unpackFB (Req handler) (msg_body msg) = inr req ->
  Forall (fun g => exists v, guard_fn g (guard_args g req appData) = Return v) (guards handler) ->
  toTransport st = Some cb ->
  let thrown := fst (fromTransport data appData st) in
  let st' := snd (fromTransport data appData st) in
  let handed frames :=
    sent st' = sent st ++ map (fun frame => (cb, frame, appData)) frames
    /\ jobs st' = jobs st
    /\ Forall (fun frame => read32 frame 4 = msg_id msg) frames in
  let caught first e :=
    match message_of e with
    | inr text =>
        handed (first ++ [encodeErrorResponse (msg_id msg) 1007 text])
        /\ thrown = cb (encodeErrorResponse (msg_id msg) 1007 text) appData
    | inl typeError => handed first /\ thrown = Some (ThrownValue typeError)
    end in
  let reply frame :=
    match cb frame appData with
    | None => handed [frame] /\ thrown = None
    | Some e => caught [frame] e
    end in
  match fn handler [ArgReq req; ArgAppData appData] with
  | Return VUndefined => reply (encodeVoidResponse (msg_id msg) (msg_method msg))
  | Return (VObject obj) =>
      match Res handler, packFB obj with
      | None, _ => reply (encodeVoidResponse (msg_id msg) (msg_method msg))
      | Some _, inr body =>
          reply (encodeMessage (MessageType_value Response) (msg_id msg) (msg_method msg) body)
      | Some _, inl e => caught [] e
      end
  | Throw e => caught [] e
  | Return (VThenable p) =>
      thrown = None
      /\ sent st' = sent st
      /\ jobs st' = jobs st ++ [mkJob (msg_id msg) (msg_method msg) appData
                                      (match Res handler with Some _ => true | None => false end)
                                      p]
  end.
Proof.
  intros Hdec Htype Hget Hheap Hreq Hpass Hcb thrown st' handed caught reply.
  assert (0 <= msg_id msg < 4294967296) as Hid.
  { apply decodeMessage_inr in Hdec as (_ & _ & ->). apply read32_range. }
  assert (fromTransport data appData st = handleRequest msg appData st) as Hft.
  { unfold fromTransport. rewrite Hdec, Htype. reflexivity. }
  unfold handleRequest in Hft.
  rewrite Hget, Hheap, Hreq, (run_guards_return _ _ _ _ Hpass), Htype in Hft.
  unfold try_handler in Hft. rewrite Htype in Hft.
  cbn [call Z.eqb MessageType_value] in Hft.
  set (st1 := set_calls _ (set_calls _ st)) in Hft.
  assert (toTransport st1 = Some cb /\ sent st1 = sent st /\ jobs st1 = jobs st)
    as (Hcb1 & Hsent1 & Hjobs1) by (unfold st1; cbn; auto).
  clearbody st1.
  assert (forall first e s,
            fromTransport data appData st
            = sendError (msg_id msg) 1007 (message_of e) appData s ->
            toTransport s = Some cb -> jobs s = jobs st ->
            sent s = sent st ++ map (fun frame => (cb, frame, appData)) first ->
            Forall (fun frame => read32 frame 4 = msg_id msg) first ->
            caught first e) as Hcaught.
  { intros first e s E Hcbs Hjobss Hsents Hfirst. unfold caught, handed, thrown, st'.
    rewrite E. destruct (message_of e) as [typeError|text]; cbn [sendError fst snd].
    - repeat split; assumption.
    - rewrite sent_callToTransport, thrown_callToTransport, Hcbs, Hsents, map_app, <- app_assoc.
      rewrite (proj2 (proj2 (proj2 (proj2 (proj2 (proj2 (proj2
                 (callToTransport_frame _ _ s)))))))), Hjobss.
      repeat split. apply List.Forall_app. split; [exact Hfirst|].
      repeat constructor. apply error_carries_id, Hid. }
  assert (forall frame,
            read32 frame 4 = msg_id msg ->
            fromTransport data appData st
            = match callToTransport frame appData st1 with
              | (Some err, s) => sendError (msg_id msg) 1007 (message_of err) appData s
              | (None, s) => (None, s)
              end ->
            reply frame) as Hreply.
  { intros frame Hfield E. unfold reply.
    pose proof (sent_callToTransport frame appData st1) as Hs.
    pose proof (thrown_callToTransport frame appData st1) as Ht.
    pose proof (callToTransport_frame frame appData st1) as (_ & _ & _ & Hc & _ & _ & _ & Hj).
    rewrite Hcb1 in Hs, Ht.
    destruct (callToTransport frame appData st1) as [o s]. cbn [fst snd] in Hs, Ht, Hc, Hj.
    subst o. destruct (cb frame appData) as [e|].
    - apply (Hcaught [frame] e s E).
      + rewrite Hc. exact Hcb1.
      + rewrite Hj. exact Hjobs1.
      + rewrite Hs, Hsent1. reflexivity.
      + repeat constructor. exact Hfield.
    - unfold handed, thrown, st'. rewrite E. cbn [fst snd].
      rewrite Hs, Hsent1, Hj, Hjobs1. repeat split. repeat constructor. exact Hfield. }
  pose proof (void_carries_id (msg_id msg) (msg_method msg) Hid) as Hvoid.
  destruct (fn handler [ArgReq req; ArgAppData appData]) as [[|p|obj]|err].
  - apply Hreply; [exact Hvoid|]. rewrite Hft. unfold respond.
    destruct (callToTransport _ _ st1) as [[e|] s]; reflexivity.
  - unfold thrown, st'. rewrite Hft. cbn [fst snd jobs sent set_jobs].
    rewrite Hsent1, Hjobs1. repeat split.
  - unfold respond in Hft. destruct (Res handler) as [R|]; cbn [negb] in Hft.
    + destruct (packFB obj) as [e|body].
      * apply (Hcaught [] e st1); [exact Hft | exact Hcb1 | exact Hjobs1 | |constructor].
        rewrite Hsent1. symmetry. apply app_nil_r.
      * apply Hreply; [apply response_carries_id, Hid|]. rewrite Hft.
        destruct (callToTransport _ _ st1) as [[e|] s]; reflexivity.
    + apply Hreply; [exact Hvoid|]. rewrite Hft.
      destruct (callToTransport _ _ st1) as [[e|] s]; reflexivity.
  - apply (Hcaught [] err st1); [exact Hft | exact Hcb1 | exact Hjobs1 | |constructor].
    rewrite Hsent1. symmetry. apply app_nil_r.
Qed.

(** One reaction on a handler's promise. *)
Lemma run_job_reaction (i : nat) st (j : Job AppDataType) (cb : TransportCallback AppDataType) :
  jobs st !! i = Some j ->
  toTransport st = Some cb ->
  let thrown := fst (run_job i st) in
  let st' := snd (run_job i st) in
  let error text := encodeErrorResponse (job_id j) 1007 text in
  let rejected e :=
    mkJob (job_id j) (job_method j) (job_appData j) (job_hasRes j) (Rejected e) in
  let reply frame :=
    thrown = None
    /\ sent st' = sent st ++ [(cb, frame, job_appData j)]
    /\ jobs st' = match cb frame (job_appData j) with
                  | None => delete i (jobs st)
                  | Some e => <[i := rejected e]> (jobs st)
                  end in
  match job_result j with
  | Fulfilled res =>
      match res, job_hasRes j with
      | Some obj, true =>
          match packFB obj with
          | inr body =>
              reply (encodeMessage (MessageType_value Response) (job_id j) (job_method j) body)
          | inl e =>
              thrown = None /\ sent st' = sent st /\ jobs st' = <[i := rejected e]> (jobs st)
          end
      | _, _ => reply (encodeVoidResponse (job_id j) (job_method j))
      end
  | Rejected e =>
      jobs st' = delete i (jobs st)
      /\ match message_of e with
         | inr text =>
             sent st' = sent st ++ [(cb, error text, job_appData j)]
             /\ thrown = cb (error text) (job_appData j)
         | inl typeError => sent st' = sent st /\ thrown = Some (ThrownValue typeError)
         end
  end.
Proof.
  intros Hj Hcb thrown st' error rejected reply.
  unfold reply, thrown, st', error, rejected, run_job, respond, sendError. rewrite Hj.
  destruct (job_result j) as [[obj|]|e]; [destruct (job_hasRes j); [destruct (packFB obj)|]| |];
    cbn [negb]; try destruct (message_of e) as [typeError|text];
    unfold callToTransport; cbn [toTransport set_jobs]; rewrite ?Hcb;
    change (kind_code FB_RPC_ERRORS.APPLICATION_ERROR) with 1007;
    try match goal with |- context [cb ?f ?a] => destruct (cb f a) end;
    cbn [fst snd sent jobs set_sent set_jobs]; repeat split.
Qed.

(** X14.  A handler that returns a promise, on a Request that passes the
    guards.  [fromTransport] sends nothing, throws nothing and schedules
    the reactions behind those already waiting.  The reactions run when
    the promise has settled, in whatever order the promises of the peer
    settle.  On a fulfilled promise the sink gets the Response with the
    request's id (body-less when the promise fulfils with nothing or the
    schema declares no response); if the packing or the sink throws, the
    catch reaction is left to run on what was thrown.  On a rejected
    promise, and on what the first reaction threw, the sink gets the
    ErrorResponse with code 1007 and the message of the value, unless the
    value is [undefined] or [null]: then nothing is sent and the TypeError
    of the read is an unhandled rejection. *)
Theorem promise_reply (data : Uint8Array) (appData : AppDataType) st (msg : DecodedMessage)
    (ref : nat) (handler : HandlerEntry AppDataType FBTable) (req : FBTable)
    (cb : TransportCallback AppDataType) (p : Settled) :
  decodeMessage data = inr msg ->
  msg_type msg = MessageType_value Request ->
  JsMap.get (dispatcher st) (msg_method msg) = Some ref ->
  heap st !! ref = Some handler ->
  unpackFB (Req handler) (msg_body msg) = inr req ->
  Forall (fun g => exists v, guard_fn g (guard_args g req appData) = Return v) (guards handler) ->
  fn handler [ArgReq req; ArgAppData appData] = Return (VThenable p) ->
  let hasRes := match Res handler with Some _ => true | None => false end in
  let reactions r := mkJob (msg_id msg) (msg_method msg) appData hasRes r in
  let error text := encodeErrorResponse (msg_id msg) 1007 text in
  fromTransport data appData st
  = (None, set_jobs (jobs st ++ [reactions p])
             (set_calls (calls st
                         ++ map (fun g => (guard_fn g, guard_args g req appData))
                                (guards handler)
                         ++ [(fn handler, [ArgReq req; ArgAppData appData])]) st))
  /\ read32 (encodeVoidResponse (msg_id msg) (msg_method msg)) 4 = msg_id msg
  /\ (forall body,
        read32 (encodeMessage (MessageType_value Response) (msg_id msg) (msg_method msg) body) 4
        = msg_id msg)
  /\ (forall text, read32 (error text) 4 = msg_id msg)
  /\ forall (s : FbRpc) (i : nat) (r : Settled),
       jobs s !! i = Some (reactions r) ->
       toTransport s = Some cb ->
       let thrown := fst (run_job i s) in
       let s' := snd (run_job i s) in
       let reply frame :=
         thrown = None
         /\ sent s' = sent s ++ [(cb, frame, appData)]
         /\ jobs s' = match cb frame appData with
                      | None => delete i (jobs s)
                      | Some e => <[i := reactions (Rejected e)]> (jobs s)
                      end in
       match r with
       | Fulfilled (Some obj) =>
           match Res handler, packFB obj with
           | None, _ => reply (encodeVoidResponse (msg_id msg) (msg_method msg))
           | Some _, inr body =>
               reply (encodeMessage (MessageType_value Response) (msg_id msg)
                                    (msg_method msg) body)
           | Some _, inl e =>
               thrown = None /\ sent s' = sent s
               /\ jobs s' = <[i := reactions (Rejected e)]> (jobs s)
           end
       | Fulfilled None => reply (encodeVoidResponse (msg_id msg) (msg_method msg))
       | Rejected e =>
           jobs s' = delete i (jobs s)
           /\ match message_of e with
              | inr text =>
                  sent s' = sent s ++ [(cb, error text, appData)]
                  /\ thrown = cb (error text) appData
              | inl typeError => sent s' = sent s /\ thrown = Some (ThrownValue typeError)
              end
       end.
Proof.
  intros Hdec Htype Hget Hheap Hreq Hpass Hfn hasRes reactions error.
  assert (0 <= msg_id msg < 4294967296) as Hid.
  { apply decodeMessage_inr in Hdec as (_ & _ & ->). apply read32_range. }
  split.
  { unfold fromTransport. rewrite Hdec, Htype. cbn [Z.eqb MessageType_value orb].
    unfold handleRequest.
    rewrite Hget, Hheap, Hreq, (run_guards_return _ _ _ _ Hpass).
    unfold try_handler. rewrite Htype. cbn [call Z.eqb MessageType_value]. rewrite Hfn.
    cbn [jobs calls set_calls set_jobs]. rewrite <- app_assoc. reflexivity. }
  split; [apply void_carries_id, Hid|].
  split; [intros body; apply response_carries_id, Hid|].
  split; [intros text; apply error_carries_id, Hid|].
  intros s i r Hj Hcb.
  pose proof (run_job_reaction i s (reactions r) cb Hj Hcb) as H.
  cbv zeta in H |- *. cbn [job_id job_method job_appData job_hasRes job_result reactions] in H.
  destruct r as [[obj|]|e]; [|exact H|exact H].
  unfold hasRes in H. destruct (Res handler); exact H.
Qed.

End PeerReplies.

Lemma handler_reply_witness :
  sent (snd (fromTransport (encodeMessage 0 9 0 [Byte.x07]) true Answering.server))
  = sent Answering.server ++ [(Answering.sink, encodeMessage 2 9 0 [Byte.x08], true)].
Proof.
  pose proof (handler_reply (encodeMessage 0 9 0 [Byte.x07]) true Answering.server
                (mkDecodedMessage 0 9 0 [Byte.x07]) 0%nat
                (mkHandlerEntry Answering.picky (Some Answering.picky) Answering.succ_handler [])
                7 Answering.sink eq_refl eq_refl eq_refl eq_refl eq_refl (List.Forall_nil _)
                eq_refl) as H.
  cbv beta iota zeta delta [fn Res Answering.succ_handler Answering.successor packFB
                            packFBWithBuilder pack Answering.sink] in H.
  exact (proj1 (proj1 H)).
Defined.

Lemma promise_reply_witness :
  let st1 := snd (fromTransport (encodeMessage 0 9 0 [Byte.x07]) true Answering.later_server) in
  sent (snd (run_job 0 st1))
  = sent st1 ++ [(Answering.sink, encodeMessage 2 9 0 [Byte.x08], true)].
Proof.
  pose proof (promise_reply (encodeMessage 0 9 0 [Byte.x07]) true Answering.later_server
                (mkDecodedMessage 0 9 0 [Byte.x07]) 0%nat
                (mkHandlerEntry Answering.picky (Some Answering.picky) Answering.later_handler [])
                7 Answering.sink (Fulfilled (Some (Answering.successor 7)))
                eq_refl eq_refl eq_refl eq_refl eq_refl (List.Forall_nil _) eq_refl)
    as H.
  cbv zeta in H. destruct H as (_ & _ & _ & _ & H).
  specialize (H (snd (fromTransport (encodeMessage 0 9 0 [Byte.x07]) true
                                    Answering.later_server))
                0%nat (Fulfilled (Some (Answering.successor 7))) eq_refl eq_refl).
  cbv beta iota zeta delta [Res Answering.successor packFB packFBWithBuilder pack] in H.
  exact (proj1 (proj2 H)).
Defined.


Section PeerRegistration.

Context {AppDataType FBTable : Type}.
Local Abbreviation FbRpc := (FbRpc AppDataType FBTable).
Implicit Types st : FbRpc.

(** X15.  [registerHandler] for a method outside the schema throws and
    changes nothing.  For a method of the schema it installs a new entry
    without guards, leaving the other methods' entries; registering the
    method again replaces the entry, and a guard added afterwards through
    the first handle lands on the replaced entry only: the dispatcher still
    maps the method to the second entry, whose guard list stays empty. *)
Theorem registerHandler_replaces (m : Z) (f1 f2 : AnyFunction AppDataType FBTable)
    (g : GuardEntry AppDataType FBTable) st :
  match schema st !! m with
  | None => registerHandler m f1 st = (inl (TypeError_undefined "Req"), st)
  | Some def =>
      let h1 := mkDispatcherHandler (length (heap st)) in
      let h2 := mkDispatcherHandler (S (length (heap st))) in
      let st1 := snd (registerHandler m f1 st) in
      let st2 := snd (registerHandler m f2 st1) in
      let st3 := push_guard h1 g st2 in
      fst (registerHandler m f1 st) = inr h1
      /\ JsMap.get (dispatcher st1) m = Some (entry h1)
      /\ heap st1 !! entry h1 = Some (mkHandlerEntry (def_Req def) (def_Res def) f1 [])
      /\ (forall m', m' <> m -> JsMap.get (dispatcher st1) m' = JsMap.get (dispatcher st) m')
      /\ (forall ref e, heap st !! ref = Some e -> heap st1 !! ref = Some e)
      /\ fst (registerHandler m f2 st1) = inr h2
      /\ JsMap.get (dispatcher st3) m = Some (entry h2)
      /\ heap st3 !! entry h2 = Some (mkHandlerEntry (def_Req def) (def_Res def) f2 [])
      /\ heap st3 !! entry h1 = Some (mkHandlerEntry (def_Req def) (def_Res def) f1 [g])
  end.
Proof.
  destruct (schema st !! m) as [def|] eqn:Hdef.
  2:{ unfold registerHandler. rewrite Hdef. reflexivity. }
  intros h1 h2 st1 st2 st3.
  assert (registerHandler m f1 st
          = (inr h1, set_dispatcher (JsMap.set (dispatcher st) m (length (heap st)))
                       (set_heap (heap st ++ [mkHandlerEntry (def_Req def) (def_Res def) f1 []])
                                 st))) as E1.
  { unfold registerHandler. rewrite Hdef. reflexivity. }
  assert (heap st1 = heap st ++ [mkHandlerEntry (def_Req def) (def_Res def) f1 []]
          /\ dispatcher st1 = JsMap.set (dispatcher st) m (length (heap st))
          /\ schema st1 = schema st) as (Hh1 & Hd1 & Hs1).
  { subst st1. rewrite E1. repeat split. }
  assert (registerHandler m f2 st1
          = (inr h2, set_dispatcher (JsMap.set (dispatcher st1) m (length (heap st1)))
                       (set_heap (heap st1 ++ [mkHandlerEntry (def_Req def) (def_Res def) f2 []])
                                 st1))) as E2.
  { unfold registerHandler. rewrite Hs1, Hdef. subst h2. rewrite Hh1, length_app.
    cbn [length]. replace (length (heap st) + 1)%nat with (S (length (heap st))) by lia.
    reflexivity. }
  assert (heap st2 = (heap st ++ [mkHandlerEntry (def_Req def) (def_Res def) f1 []])
                     ++ [mkHandlerEntry (def_Req def) (def_Res def) f2 []]
          /\ dispatcher st2 = JsMap.set (dispatcher st1) m (S (length (heap st))))
    as (Hh2 & Hd2).
  { subst st2. rewrite E2. cbn [snd heap dispatcher set_dispatcher set_heap].
    rewrite Hh1, length_app. cbn [length].
    replace (length (heap st) + 1)%nat with (S (length (heap st))) by lia. split; reflexivity. }
  assert (heap st2 !! entry h1 = Some (mkHandlerEntry (def_Req def) (def_Res def) f1 []))
    as Hl1.
  { rewrite Hh2. cbn [entry h1]. rewrite lookup_app_l by (rewrite length_app; simpl; lia).
    rewrite lookup_app_r by lia. rewrite Nat.sub_diag. reflexivity. }
  assert (heap st3 = <[entry h1 := mkHandlerEntry (def_Req def) (def_Res def) f1 [g]]> (heap st2)
          /\ dispatcher st3 = dispatcher st2) as (Hh3 & Hd3).
  { subst st3. unfold push_guard. rewrite Hl1. split; reflexivity. }
  split; [rewrite E1; reflexivity|].
  split; [rewrite Hd1; apply JsMap_get_set_eq|].
  split.
  { rewrite Hh1. cbn [entry h1]. rewrite lookup_app_r by lia. rewrite Nat.sub_diag.
    reflexivity. }
  split; [intros m' Hne; rewrite Hd1; apply JsMap_get_set_ne; congruence|].
  split.
  { intros ref e He. rewrite Hh1. rewrite lookup_app_l by (eapply lookup_lt_Some, He).
    exact He. }
  split; [rewrite E2; reflexivity|].
  split; [rewrite Hd3, Hd2; apply JsMap_get_set_eq|].
  split.
  - rewrite Hh3, list_lookup_insert_ne by (cbn; lia).
    rewrite Hh2. cbn [entry h2]. rewrite lookup_app_r by (rewrite length_app; simpl; lia).
    rewrite length_app. cbn [length].
    replace (S (length (heap st)) - (length (heap st) + 1))%nat with 0%nat by lia. reflexivity.
  - rewrite Hh3. apply list_lookup_insert_eq. eapply lookup_lt_Some, Hl1.
Qed.

(** X16.  While the oldest pending request has not expired a tick of the
    checker changes nothing at all, whatever the age of the entries behind
    it. *)
Theorem tick_before_deadline (now : Z) st (e : Z * PendingRequest)
    (rest : list (Z * PendingRequest)) :
  pendingRequests st = e :: rest ->
  now - timestamp (snd e) < requestTimeout st ->
  tick now st = st.
Proof.
  intros Hp Hyoung. unfold tick. destruct (timeoutCheckInterval st); [|reflexivity].
  unfold timeoutCheck, JsMap.entries. rewrite Hp. destruct e as [k r]. cbn [snd] in Hyoung.
  cbn [timedOutRequests]. destruct (Z.geb_spec (now - timestamp r) (requestTimeout st)); [lia|].
  cbn [fold_left]. rewrite Hp. reflexivity.
Qed.

Lemma request_shape (method : Z) (req : FBPackable) (appData : AppDataType) (now : Z) st
    (body : Uint8Array) :
  packFB req = inr body ->
  let k := (requestIdCounter st + 1) mod 4294967296 in
  let w := mkPendingRequest k method (promises st) now in
  let st' := snd (request method req appData now st) in
  pendingRequests st' = JsMap.set (pendingRequests st) k w
  /\ requestTimeout st' = requestTimeout st
  /\ settlements st' = settlements st
  /\ promises st' = S (promises st)
  /\ requestIdCounter st' = k
  /\ schema st' = schema st.
Proof.
  intros Hpack k w st'. subst st'.
  destruct (request_state method req appData now st body Hpack) as (t & n & ->).
  repeat split.
Qed.

(** X17.  A request made on an empty pending table and never answered is
    left alone by every tick before its deadline and is completed by the
    first tick at or after it: the waiter is rejected once with code 1005,
    the table is empty again and the checker is stopped. *)
Theorem request_times_out (method : Z) (req : FBPackable) (appData : AppDataType)
    (now0 now1 : Z) st (body : Uint8Array) :
  pendingRequests st = [] ->
  packFB req = inr body ->
  let st1 := snd (request method req appData now0 st) in
  (now1 - now0 < requestTimeout st -> tick now1 st1 = st1)
  /\ (requestTimeout st <= now1 - now0 ->
      settlements (tick now1 st1)
      = settlements st ++ [Reject (promises st)
                             (mkFbRpcError 1005 (Js.lit "Request has timed-out") (-1) [])]
      /\ pendingRequests (tick now1 st1) = []
      /\ timeoutCheckInterval (tick now1 st1) = None
      /\ sent (tick now1 st1) = sent st1).
Proof.
  intros Hempty Hpack st1.
  set (k := Js.ushr0 (requestIdCounter st + 1)).
  set (w := mkPendingRequest k method (promises st) now0).
  assert (pendingRequests st1 = [(k, w)] /\ requestTimeout st1 = requestTimeout st
          /\ settlements st1 = settlements st /\ timeoutCheckInterval st1 <> None)
    as (Hp & Ht & Hs & Hi).
  { destruct (request_shape method req appData now0 st body Hpack)
      as (Hp & Ht & Hs & _).
    destruct (request_facts method req appData now0 st) as (_ & _ & Hstart).
    fold st1 in Hp, Ht, Hs. rewrite Hempty in Hp.
    split; [exact Hp|]. split; [exact Ht|]. split; [exact Hs|].
    apply (Hstart body Hempty Hpack). }
  split.
  - intros Hyoung. apply (tick_before_deadline now1 st1 (k, w) []); [exact Hp|].
    cbn [snd timestamp w]. lia.
  - intros Hold. unfold tick. destruct (timeoutCheckInterval st1); [|contradiction].
    destruct (timeoutCheck_eq now1 st1) as (rest & Hsplit & _ & ->).
    rewrite Hp, Ht in *. cbn [expired_prefix] in *. cbn [timestamp w] in *.
    destruct (Z.geb_spec (now1 - now0) (requestTimeout st)); [|lia].
    cbn [expired_prefix app] in Hsplit. injection Hsplit as <-.
    cbv zeta. cbn [map snd waiter w]. rewrite Hs. repeat split.
Qed.

End PeerRegistration.

Lemma registerHandler_replaces_witness :
  let st := new_FbRpc Demo.demo_schema None 0 in
  let st2 := snd (registerHandler 0 Demo.small_operand
                    (snd (registerHandler 0 Demo.add_handler st))) in
  JsMap.get (dispatcher (push_guard (mkDispatcherHandler 0)
                                    (mkGuard RequestGuard Demo.small_operand) st2)) 0
  = Some 1%nat.
Proof.
  pose proof (registerHandler_replaces 0 Demo.add_handler Demo.small_operand
                (mkGuard RequestGuard Demo.small_operand)
                (new_FbRpc Demo.demo_schema None 0)) as H.
  change (schema (new_FbRpc Demo.demo_schema None 0) !! 0)
    with (Some (mkMethodDef Demo.reader (Some Demo.reader))) in H.
  cbv beta iota zeta in H.
  exact (proj1 (proj2 (proj2 (proj2 (proj2 (proj2 (proj2 H))))))).
Defined.

Lemma tick_before_deadline_witness : tick 5000 Demo.client = Demo.client.
Proof.
  exact (tick_before_deadline 5000 Demo.client (1, mkPendingRequest 1 0 0 100)
           [(2, mkPendingRequest 2 3 1 150)] eq_refl ltac:(vm_compute; reflexivity)).
Defined.

Lemma request_times_out_witness :
  pendingRequests
    (tick 5100 (snd (request 0 (mkPackable (inr [Byte.x2a])) true 100 Demo.server))) = [].
Proof.
  pose proof (request_times_out 0 (mkPackable (inr [Byte.x2a])) true 100 5100 Demo.server
                [Byte.x2a] eq_refl eq_refl) as H.
  cbv zeta in H.
  exact (proj1 (proj2 (proj2 H ltac:(vm_compute; discriminate)))).
Defined.


(** * Invariants of the pending table *)

Lemma JsMap_keys_set {V} (m : JsMap.t V) (k k' : Z) (v : V) :
  k' ∈ JsMap.keys (JsMap.set m k v) -> k' = k \/ k' ∈ JsMap.keys m.
Proof.
  unfold JsMap.keys. induction m as [|[k2 v2] m IH]; cbn [JsMap.set map fst].
  - intros Hin. apply list_elem_of_singleton in Hin. left. exact Hin.
  - destruct (Z.eqb_spec k2 k) as [->|Hne]; cbn [map fst]; intros Hin;
      apply elem_of_cons in Hin as [Hin|Hin].
    + left. exact Hin.
    + right. apply elem_of_cons. right. exact Hin.
    + right. apply elem_of_cons. left. exact Hin.
    + destruct (IH Hin) as [E|E]; [left; exact E | right; apply elem_of_cons; right; exact E].
Qed.

Lemma JsMap_wf_set {V} (m : JsMap.t V) (k : Z) (v : V) :
  JsMap.wf m -> JsMap.wf (JsMap.set m k v).
Proof.
  unfold JsMap.wf. induction m as [|[k' v'] m IH]; intros Hwf.
  - cbn. apply NoDup_singleton.
  - cbn [JsMap.set]. unfold JsMap.keys in Hwf. cbn [map fst] in Hwf.
    apply NoDup_cons in Hwf as [Hnotin Hwf].
    destruct (Z.eqb_spec k' k) as [->|Hne]; unfold JsMap.keys; cbn [map fst].
    + apply NoDup_cons. split; assumption.
    + apply NoDup_cons. split; [|apply IH, Hwf].
      intros Hin. apply JsMap_keys_set in Hin as [E|Hin]; [congruence | exact (Hnotin Hin)].
Qed.

(** The values after [set]: the new value, and old values. *)
Lemma JsMap_values_set {V} (m : JsMap.t V) (k : Z) (v : V) :
  exists old, JsMap.values (JsMap.set m k v) ≡ₚ v :: old /\ old `sublist_of` JsMap.values m.
Proof.
  unfold JsMap.values. induction m as [|[k' v'] m (old & Hperm & Hsub)].
  - exists []. split; [reflexivity | constructor].
  - cbn [JsMap.set]. destruct (k' =? k); cbn [map snd].
    + exists (map snd m). split; [reflexivity|]. apply sublist_cons; reflexivity.
    + exists (v' :: old). split.
      * rewrite Hperm. apply Permutation_swap.
      * apply sublist_skip, Hsub.
Qed.

Lemma StronglySorted_snoc {A} (R : A -> A -> Prop) (l : list A) (x : A) :
  StronglySorted R l -> Forall (fun a => R a x) l -> StronglySorted R (l ++ [x]).
Proof.
  induction 1 as [|a l Hs IH Hall]; intros Hx.
  - repeat constructor.
  - apply Forall_cons in Hx as [Hax Hx]. cbn [app]. constructor; [apply IH, Hx|].
    apply List.Forall_app. split; [exact Hall | repeat constructor; exact Hax].
Qed.

Section Shapes.

Context {AppDataType FBTable : Type}.
Local Abbreviation FbRpc := (FbRpc AppDataType FBTable).
Implicit Types st : FbRpc.

(** The state that a completion path leaves: the waiter is out of the
    table and settled at most once. *)
Lemma completion_state (handle : DecodedMessage -> FbRpc -> FbRpc) (msg : DecodedMessage) st :
  handle = (fun msg st => snd (handleResponse msg st)) \/ handle = handleErrorResponse ->
  match JsMap.get (pendingRequests st) (msg_id msg) with
  | None => handle msg st = st
  | Some w =>
      exists outcomes t,
        map settled_waiter outcomes `sublist_of` [waiter w]
        /\ handle msg st
           = set_settlements (settlements st ++ outcomes)
               (set_timeoutCheckInterval t
                  (set_pendingRequests (JsMap.delete (pendingRequests st) (msg_id msg)) st))
  end.
Proof.
  assert (forall p, exists t,
            (if (JsMap.size (pendingRequests (set_pendingRequests p st)) =? 0)%nat
             then stopTimeoutChecker (set_pendingRequests p st)
             else set_pendingRequests p st)
            = set_timeoutCheckInterval t (set_pendingRequests p st)) as Hstop.
  { intros p. destruct (_ =? 0)%nat.
    - exists None. apply stopTimeoutChecker_eq.
    - exists (timeoutCheckInterval st). destruct st. reflexivity. }
  assert (forall (o : Settlement FBTable) (w : PendingRequest),
            settled_waiter o = waiter w ->
            map settled_waiter [o] `sublist_of` [waiter w]) as Hone
    by (intros o w Ho; cbn [map]; rewrite Ho; reflexivity).
  intros [-> | ->].
  - unfold handleResponse.
    destruct (JsMap.get (pendingRequests st) (msg_id msg)) as [w|]; [|reflexivity].
    cbv zeta. destruct (Hstop (JsMap.delete (pendingRequests st) (msg_id msg))) as (t & ->).
    unfold do_resolve, do_reject.
    destruct (length (msg_body msg) =? 0)%nat;
      [eexists [_], t; split; [|reflexivity]; apply Hone; reflexivity|].
    destruct (try_response w msg _) as [e|value];
      [|eexists [_], t; split; [|reflexivity]; apply Hone; reflexivity].
    destruct (message_of e); [|eexists [_], t; split; [|reflexivity]; apply Hone; reflexivity].
    exists [], t. split; [apply sublist_nil_l|]. cbn [snd settlements set_timeoutCheckInterval
      set_pendingRequests]. rewrite app_nil_r.
    reflexivity.
  - unfold handleErrorResponse.
    destruct (JsMap.get (pendingRequests st) (msg_id msg)) as [w|]; [|reflexivity].
    cbv zeta. destruct (Hstop (JsMap.delete (pendingRequests st) (msg_id msg))) as (t & ->).
    destruct (decodeErrorResponse (msg_body msg)). unfold do_reject.
    eexists [_], t. split; [|reflexivity]; apply Hone; reflexivity.
Qed.

Lemma clear_guards_fold_heap_only (refs : list nat) st :
  exists h, fold_left (fun st handler => clear_guards handler st) refs st = set_heap h st.
Proof.
  revert st. induction refs as [|r refs IH]; intros st.
  - exists (heap st). destruct st. reflexivity.
  - cbn [fold_left]. destruct (IH (clear_guards r st)) as (h & ->).
    unfold clear_guards. destruct (heap st !! r); exists h; reflexivity.
Qed.

(** The state that [clean] leaves. *)
Lemma clean_state (reason : Js.JsString) st :
  exists h,
    clean reason st
    = set_toTransport None
        (set_timeoutCheckInterval None
           (set_dispatcher []
              (set_heap h
                 (set_pendingRequests []
                    (set_settlements
                       (settlements st
                        ++ map (fun r => Reject (waiter r)
                                           (mkFbRpcError 1004 (Js.lit "Internal error") (-1)
                                                         reason))
                               (JsMap.values (pendingRequests st)))
                       st))))).
Proof.
  unfold clean, rejectPendingRequests, resetDispatcher.
  rewrite reject_all, !stopTimeoutChecker_eq.
  match goal with |- context [fold_left ?f ?l ?s] =>
    destruct (clear_guards_fold_heap_only l s) as (h & ->) end.
  exists h. reflexivity.
Qed.

(** The state that the interval callback leaves. *)
Lemma tick_state (now : Z) st :
  tick now st = st
  \/ exists rest t,
       pendingRequests st = expired_prefix now (requestTimeout st) (pendingRequests st) ++ rest
       /\ tick now st
          = set_timeoutCheckInterval t
              (set_settlements
                 (settlements st
                  ++ map (fun e => Reject (waiter (snd e))
                                     (mkFbRpcError 1005 (Js.lit "Request has timed-out") (-1) []))
                         (expired_prefix now (requestTimeout st) (pendingRequests st)))
                 (set_pendingRequests rest st)).
Proof.
  unfold tick. destruct (timeoutCheckInterval st) as [t|] eqn:Hint; [|left; reflexivity].
  right. destruct (timeoutCheck_eq now st) as (rest & Hsplit & _ & ->).
  exists rest. destruct rest.
  - exists None. split; [exact Hsplit | reflexivity].
  - exists (Some t). split; [exact Hsplit|]. cbv zeta. rewrite <- Hint.
    destruct st. reflexivity.
Qed.

End Shapes.

Lemma JsMap_delete_sublist {V} (m : JsMap.t V) (k : Z) : JsMap.delete m k `sublist_of` m.
Proof.
  induction m as [|[k' v] m IH]; [constructor|].
  cbn [JsMap.delete]. destruct (k' =? k).
  - apply sublist_cons; reflexivity.
  - apply sublist_skip, IH.
Qed.

Lemma JsMap_delete_perm {V} (m : JsMap.t V) (k : Z) (v : V) :
  JsMap.get m k = Some v -> exists k', m ≡ₚ [(k', v)] ++ JsMap.delete m k.
Proof.
  induction m as [|[k2 v2] m IH]; [discriminate|].
  cbn [JsMap.get JsMap.delete]. destruct (k2 =? k).
  - intros [= ->]. exists k2. reflexivity.
  - intros H. destruct (IH H) as (k' & Hp). exists k'.
    rewrite Hp at 1. apply Permutation_swap.
Qed.

Lemma StronglySorted_sublist {A} (R : A -> A -> Prop) (l k : list A) :
  l `sublist_of` k -> StronglySorted R k -> StronglySorted R l.
Proof.
  induction 1 as [|x l k Hsub IH|x l k Hsub IH]; intros Hs.
  - constructor.
  - inversion Hs as [|? ? Hs' Hall]; subst. constructor; [apply IH, Hs'|].
    apply List.Forall_forall. intros y Hy. rewrite List.Forall_forall in Hall.
    apply Hall. apply list_elem_of_In. eapply elem_of_sublist; [|exact Hsub].
    apply list_elem_of_In, Hy.
  - inversion Hs; subst. apply IH. assumption.
Qed.

Lemma sublist_map {A B} (f : A -> B) (l k : list A) :
  l `sublist_of` k -> map f l `sublist_of` map f k.
Proof.
  induction 1; cbn [map]; [constructor | apply sublist_skip | apply sublist_cons]; assumption.
Qed.

Section Tables.

Context {AppDataType FBTable : Type}.
Local Abbreviation FbRpc := (FbRpc AppDataType FBTable).
Implicit Types st : FbRpc.

Lemma settles_quiet st st' :
  pendingRequests st' = pendingRequests st -> settlements st' = settlements st ->
  promises st' = promises st -> requestIdCounter st' = requestIdCounter st ->
  settles st st'.
Proof.
  intros Hp Hs Hpr Hc. exists [], []. rewrite Hp, Hs, app_nil_r.
  repeat split; auto.
Qed.

Lemma settles_effects_of st st' : effects_of st st' -> settles st st'.
Proof.
  intros H. apply effects_of_fields in H.
  apply settles_quiet; intuition congruence.
Qed.

Lemma settles_completion (handle : DecodedMessage -> FbRpc -> FbRpc) (msg : DecodedMessage) st :
  handle = (fun msg st => snd (handleResponse msg st)) \/ handle = handleErrorResponse ->
  settles st (handle msg st).
Proof.
  intros H. pose proof (completion_state handle msg st H) as Hc.
  destruct (JsMap.get (pendingRequests st) (msg_id msg)) as [w|] eqn:Hget.
  - destruct Hc as (outcomes & t & Hw & ->).
    destruct (JsMap_delete_perm _ _ _ Hget) as (k' & Hperm).
    exists [(k', w)], outcomes. cbn [pendingRequests settlements promises requestIdCounter
      set_settlements set_timeoutCheckInterval set_pendingRequests map snd].
    repeat split; [exact Hperm | apply JsMap_delete_sublist | exact Hw].
  - rewrite Hc. apply settles_quiet; reflexivity.
Qed.

Lemma settles_fromTransport (data : Uint8Array) (appData : AppDataType) st :
  settles st (snd (fromTransport data appData st)).
Proof.
  unfold fromTransport. destruct (decodeMessage data) as [e|msg].
  - apply settles_effects_of, effects_of_callToTransport.
  - destruct (_ || _); [apply settles_effects_of, effects_of_handleRequest|].
    destruct (_ =? _);
      [apply (settles_completion (fun msg st => snd (handleResponse msg st))); auto|].
    destruct (_ =? _); [apply (settles_completion handleErrorResponse); auto|].
    apply settles_quiet; reflexivity.
Qed.

Lemma settles_tick (now : Z) st : settles st (tick now st).
Proof.
  destruct (tick_state now st) as [-> | (rest & t & Hsplit & ->)];
    [apply settles_quiet; reflexivity|].
  eexists (expired_prefix now (requestTimeout st) (pendingRequests st)), _.
  cbn [pendingRequests settlements promises requestIdCounter
       set_settlements set_timeoutCheckInterval set_pendingRequests].
  split; [rewrite <- Hsplit; reflexivity|].
  split.
  { pose proof (sublist_inserts_l
                  (expired_prefix now (requestTimeout st) (pendingRequests st)) rest rest
                  ltac:(reflexivity)) as Hsub.
    rewrite <- Hsplit in Hsub. exact Hsub. }
  split; [reflexivity|]. split; [|split; reflexivity].
  rewrite map_map. reflexivity.
Qed.

Lemma settles_clean (reason : Js.JsString) st : settles st (clean reason st).
Proof.
  destruct (clean_state reason st) as (h & ->).
  eexists (pendingRequests st), _.
  cbn [pendingRequests settlements promises requestIdCounter set_toTransport
       set_settlements set_timeoutCheckInterval set_pendingRequests set_dispatcher set_heap].
  split; [rewrite app_nil_r; reflexivity|].
  split; [apply sublist_nil_l|].
  split; [reflexivity|]. split; [|split; reflexivity].
  unfold JsMap.values. rewrite !map_map. reflexivity.
Qed.

Lemma settles_push_guard (h : DispatcherHandler) (g : GuardEntry AppDataType FBTable) st :
  settles st (push_guard h g st).
Proof.
  unfold push_guard. destruct (heap st !! entry h); apply settles_quiet; reflexivity.
Qed.

(** What a [request] call does to the table of pending requests. *)
Lemma request_table (method : Z) (req : FBPackable) (appData : AppDataType) (now : Z) st :
  let k := (requestIdCounter st + 1) mod 4294967296 in
  let st' := snd (request method req appData now st) in
  requestIdCounter st' = k
  /\ settlements st' = settlements st
  /\ (promises st' = promises st /\ pendingRequests st' = pendingRequests st
      \/ promises st' = S (promises st)
         /\ pendingRequests st'
            = JsMap.set (pendingRequests st) k (mkPendingRequest k method (promises st) now)).
Proof.
  intros k st'. destruct (packFB req) as [e|body] eqn:Hpack.
  - subst st'. unfold request, generateRequestId. rewrite Hpack. cbn [snd].
    repeat split. left. split; reflexivity.
  - destruct (request_shape method req appData now st body Hpack)
      as (Hp & _ & Hs & Hpr & Hc & _).
    fold st' in Hp, Hs, Hpr, Hc. fold k in Hp, Hc.
    repeat split; auto.
Qed.

(** Every operation that takes no id only lets entries leave the table,
    each with at most one settlement. *)
Lemma step_settles (op : Op AppDataType FBTable) st :
  match op with
  | OpRequest _ _ _ _ => True
  | OpGenerateRequestId => True
  | _ => settles st (step op st)
  end.
Proof.
  destruct op as [cb|m handler|h fn|h fn|h fn|m req appData now|m req appData|data appData|reason|now|i|];
    cbn [step]; try exact I.
  - apply settles_quiet; reflexivity.
  - unfold registerHandler. destruct (schema st !! m); apply settles_quiet; reflexivity.
  - apply settles_push_guard.
  - apply settles_push_guard.
  - apply settles_push_guard.
  - apply settles_effects_of, effects_of_notify.
  - apply settles_fromTransport.
  - apply settles_clean.
  - apply settles_tick.
  - apply settles_effects_of, effects_of_run_job.
Qed.

Lemma settles_sorted st st' : settles st st' -> timestamps_sorted st -> timestamps_sorted st'.
Proof.
  intros (gone & new & _ & Hsub & _). apply StronglySorted_sublist, Hsub.
Qed.

Lemma settles_waiters_ok st st' : settles st st' -> waiters_ok st -> waiters_ok st'.
Proof.
  intros (gone & new & Hperm & Hsub & Hs & Hnew & Hpr & _) (Hwf & Hnd & Hlt).
  assert (waiters st' ⊆+ waiters st) as Hw.
  { unfold waiters, JsMap.values. rewrite Hs, Hperm, !map_app, !map_map.
    rewrite (Permutation_app_comm (map _ gone)), <- !app_assoc.
    apply submseteq_skips_l. rewrite (Permutation_app_comm (map _ gone)).
    apply submseteq_skips_l, sublist_submseteq. exact Hnew. }
  apply submseteq_sublist_l in Hw as (mid & Hsubw & Hpermw).
  split; [|split].
  - unfold JsMap.wf, JsMap.keys in *. eapply sublist_NoDup; [exact Hwf|].
    apply sublist_map, Hsub.
  - eapply sublist_NoDup; [|exact Hsubw]. rewrite Hpermw. exact Hnd.
  - rewrite Hpr. rewrite <- Hpermw in Hlt. rewrite Forall_forall in *.
    intros x Hin. apply Hlt. eapply elem_of_sublist; eassumption.
Qed.

Lemma request_waiters_ok (method : Z) (req : FBPackable) (appData : AppDataType) (now : Z) st :
  waiters_ok st -> waiters_ok (snd (request method req appData now st)).
Proof.
  intros (Hwf & Hnd & Hlt).
  destruct (request_table method req appData now st) as (_ & Hs & [[Hpr Hp] | [Hpr Hp]]).
  - unfold waiters_ok, waiters. rewrite Hs, Hp, Hpr. auto.
  - unfold waiters_ok, waiters in *. rewrite Hs, Hp, Hpr.
    set (k := (requestIdCounter st + 1) mod 4294967296) in *.
    set (w := mkPendingRequest k method (promises st) now) in *.
    destruct (JsMap_values_set (pendingRequests st) k w) as (old & Hperm & Hsub).
    assert ((map waiter old ++ map settled_waiter (settlements st))
              `sublist_of` (map waiter (JsMap.values (pendingRequests st))
                            ++ map settled_waiter (settlements st))) as Hsub'.
    { apply sublist_app; [apply sublist_map, Hsub | reflexivity]. }
    split; [apply JsMap_wf_set, Hwf|].
    rewrite Hperm. cbn [map app waiter]. split.
    + apply NoDup_cons. split; [|eapply sublist_NoDup; eassumption].
      intros Hin. eapply elem_of_sublist in Hin; [|exact Hsub'].
      rewrite Forall_forall in Hlt. specialize (Hlt _ Hin).
      unfold w in Hlt. cbn [waiter] in Hlt. lia.
    + apply Forall_cons. split; [unfold w; cbn [waiter]; lia|].
      rewrite Forall_forall in *. intros x Hin.
      eapply elem_of_sublist in Hin; [|exact Hsub'].
      specialize (Hlt _ Hin). lia.
Qed.

Lemma step_waiters_ok (op : Op AppDataType FBTable) st :
  waiters_ok st -> waiters_ok (step op st).
Proof.
  intros H. pose proof (step_settles op st) as Hs.
  destruct op as [cb|m handler|h fn|h fn|h fn|m req appData now|m req appData|data appData|reason|now|i|];
    try (eapply settles_waiters_ok; eassumption).
  - apply request_waiters_ok, H.
  - exact H.
Qed.

End Tables.

Section TableProperties.

Context {AppDataType FBTable : Type}.
Local Abbreviation FbRpc := (FbRpc AppDataType FBTable).
Implicit Types st : FbRpc.

(** X18.  The pending table stays ordered by enqueue time, which is what
    lets the timeout sweep stop at the first entry that has not expired:
    every operation other than [request] keeps the order, and [request]
    keeps it when the clock reading is not below the timestamps already
    in the table and the new id is not pending. *)
Theorem timestamps_stay_sorted (op : Op AppDataType FBTable) st :
  timestamps_sorted st ->
  match op with
  | OpRequest _ _ _ now =>
      JsMap.get (pendingRequests st) ((requestIdCounter st + 1) mod 4294967296) = None
      /\ Forall (fun e => timestamp (snd e) <= now) (pendingRequests st)
  | _ => True
  end ->
  timestamps_sorted (step op st).
Proof.
  intros Hs Hop. pose proof (step_settles op st) as Hstep.
  destruct op as [cb|m handler|h fn|h fn|h fn|m req appData now|m req appData|data appData|reason|now|i|];
    try (eapply settles_sorted; eassumption); [|exact Hs].
  destruct Hop as (Hfresh & Hclock). cbn [step].
  destruct (request_table m req appData now st) as (_ & _ & [[_ Hp] | [_ Hp]]);
    unfold timestamps_sorted in *; rewrite Hp; [exact Hs|].
  rewrite JsMap_set_fresh by exact Hfresh.
  apply StronglySorted_snoc; [exact Hs|].
  eapply Forall_impl; [exact Hclock|]. intros e He. exact He.
Qed.

(** X19.  In every state that a peer reaches from its construction, the
    ids of the pending table are distinct, the promises of pending
    entries and the promises on which the peer has called [resolve] or
    [reject] are pairwise distinct, and all of them were created by
    [request]: the peer settles no promise twice, and none while its entry
    is still pending. *)
Theorem promises_settle_once (schema : SchemaDef FBTable) (options_requestTimeout : option Z)
    (counter : Z) (ops : list (Op AppDataType FBTable)) :
  let st := run ops (new_FbRpc schema options_requestTimeout counter) in
  waiters_ok st
  /\ NoDup (map settled_waiter (settlements st))
  /\ forall id w, JsMap.get (pendingRequests st) id = Some w ->
                  waiter w ∉ map settled_waiter (settlements st).
Proof.
  intros st.
  assert (waiters_ok st) as Hok.
  { subst st. unfold run.
    assert (waiters_ok (new_FbRpc schema options_requestTimeout counter : FbRpc)) as H0.
    { unfold waiters_ok, waiters, JsMap.wf. cbn. repeat split; constructor. }
    revert H0. generalize (new_FbRpc schema options_requestTimeout counter : FbRpc).
    induction ops as [|op ops IH]; intros s Hs; [exact Hs|].
    cbn [fold_left]. apply IH, step_waiters_ok, Hs. }
  split; [exact Hok|]. destruct Hok as (_ & Hnd & _). unfold waiters in Hnd.
  apply NoDup_app in Hnd as (_ & Hdisj & Hnd). split; [exact Hnd|].
  intros id w Hget. apply Hdisj.
  apply list_elem_of_In, in_map, list_elem_of_In, (JsMap_get_values _ _ _ Hget).
Qed.


(** A Response or ErrorResponse whose id is not pending is dropped. *)
Lemma fromTransport_dropped (data : Uint8Array) (msg : DecodedMessage) (appData : AppDataType)
    st :
  decodeMessage data = inr msg ->
  msg_type msg = 2 \/ msg_type msg = 3 ->
  JsMap.get (pendingRequests st) (msg_id msg) = None ->
  fromTransport data appData st = (None, st).
Proof.
  intros Hd Ht Hget. unfold fromTransport. rewrite Hd.
  destruct Ht as [-> | ->]; cbn [Z.eqb MessageType_value orb];
    unfold handleResponse, handleErrorResponse; rewrite Hget; reflexivity.
Qed.

Lemma fromTransport_completion (data : Uint8Array) (msg : DecodedMessage) :
  decodeMessage data = inr msg ->
  msg_type msg = 2 \/ msg_type msg = 3 ->
  exists handle : DecodedMessage -> FbRpc -> FbRpc,
    (handle = (fun msg st => snd (handleResponse msg st)) \/ handle = handleErrorResponse)
    /\ forall appData st, snd (fromTransport data appData st) = handle msg st.
Proof.
  intros Hd [Ht | Ht].
  - exists (fun msg st => snd (handleResponse msg st)). split; [auto|]. intros appData st.
    unfold fromTransport. rewrite Hd, Ht. reflexivity.
  - exists handleErrorResponse. split; [auto|]. intros appData st.
    unfold fromTransport. rewrite Hd, Ht. reflexivity.
Qed.

(** X21.  The first Response or ErrorResponse for an id wins: once a
    frame of either type has been processed, a second one with the same
    id, whatever its type, method and body, leaves the peer as it is and
    throws nothing. *)
Theorem first_reply_wins (d1 d2 : Uint8Array) (m1 m2 : DecodedMessage)
    (a1 a2 : AppDataType) st :
  JsMap.wf (pendingRequests st) ->
  decodeMessage d1 = inr m1 -> msg_type m1 = 2 \/ msg_type m1 = 3 ->
  decodeMessage d2 = inr m2 -> msg_type m2 = 2 \/ msg_type m2 = 3 ->
  msg_id m2 = msg_id m1 ->
  fromTransport d2 a2 (snd (fromTransport d1 a1 st)) = (None, snd (fromTransport d1 a1 st)).
Proof.
  intros Hwf Hd1 Ht1 Hd2 Ht2 Hid.
  apply (fromTransport_dropped d2 m2 a2 _ Hd2 Ht2).
  destruct (fromTransport_completion d1 m1 Hd1 Ht1) as (h1 & Hh1 & ->).
  pose proof (completion_state h1 m1 st Hh1) as H1.
  destruct (JsMap.get (pendingRequests st) (msg_id m1)) as [w|] eqn:Hget.
  - destruct H1 as (outcomes & t & _ & ->).
    cbn [pendingRequests set_settlements set_timeoutCheckInterval set_pendingRequests].
    rewrite Hid. apply JsMap_get_delete, Hwf.
  - rewrite H1, Hid. exact Hget.
Qed.

End TableProperties.

Lemma timestamps_stay_sorted_witness :
  timestamps_sorted (step (OpRequest 0 (mkPackable (inr [Byte.x2a])) true 200) Demo.client).
Proof.
  assert (pendingRequests Demo.client
          = [(1, mkPendingRequest 1 0 0 100); (2, mkPendingRequest 2 3 1 150)]) as Hp
    by reflexivity.
  apply (timestamps_stay_sorted (OpRequest 0 (mkPackable (inr [Byte.x2a])) true 200)
           Demo.client).
  - unfold timestamps_sorted. rewrite Hp. repeat constructor; cbn; lia.
  - split; [vm_compute; reflexivity|]. rewrite Hp. repeat constructor; cbn; lia.
Defined.


Lemma first_reply_wins_witness :
  let response := encodeMessage 2 1 0 [Byte.x07] in
  let error := encodeErrorResponse 1 1001 (Js.lit "late") in
  fromTransport error false (snd (fromTransport response true Demo.client))
  = (None, snd (fromTransport response true Demo.client)).
Proof.
  assert (JsMap.wf (pendingRequests Demo.client)) as Hwf.
  { unfold JsMap.wf. change (JsMap.keys (pendingRequests Demo.client)) with [1; 2].
    apply NoDup_ListNoDup. repeat constructor; cbn; intuition lia. }
  exact (first_reply_wins (encodeMessage 2 1 0 [Byte.x07])
           (encodeErrorResponse 1 1001 (Js.lit "late"))
           (mkDecodedMessage 2 1 0 [Byte.x07])
           (mkDecodedMessage 3 1 0 (error_body 1001 (Js.lit "late")))
           true false Demo.client Hwf
           ltac:(vm_compute; reflexivity) ltac:(left; reflexivity)
           ltac:(vm_compute; reflexivity) ltac:(right; reflexivity) eq_refl).
Defined.


(** * A call between two peers *)

Lemma JsMap_delete_snoc {V} (m : JsMap.t V) (k : Z) (v : V) :
  JsMap.get m k = None -> JsMap.delete (m ++ [(k, v)]) k = m.
Proof.
  induction m as [|[k' v'] m IH]; cbn [JsMap.get JsMap.delete app].
  - rewrite Z.eqb_refl. reflexivity.
  - destruct (k' =? k); [discriminate|]. intros H. rewrite IH by exact H. reflexivity.
Qed.

Lemma decode_encode_exact (type id method : Z) (body : Uint8Array) :
  0 <= type < 256 -> 0 <= id < 4294967296 -> 0 <= method < 65536 ->
  Z.of_nat (length body) < 4294967296 ->
  decodeMessage (encodeMessage type id method body) = inr (mkDecodedMessage type id method body).
Proof.
  intros Ht Hi Hm Hl. rewrite decode_encode. f_equal. f_equal.
  - unfold byte.wrap. zlia.
  - zlia.
  - zlia.
  - apply firstn_all2. rewrite Z.mod_small by lia. lia.
Qed.

Section RoundTrip.

Context {AppDataType FBTable : Type}.
Local Abbreviation FbRpc := (FbRpc AppDataType FBTable).
Implicit Types st : FbRpc.

Lemma request_sent (method : Z) (req : FBPackable) (appData : AppDataType) (now : Z) st
    (body : Uint8Array) :
  packFB req = inr body ->
  let k := (requestIdCounter st + 1) mod 4294967296 in
  fst (request method req appData now st) = inr (promises st)
  /\ sent (snd (request method req appData now st))
     = sent st ++ match toTransport st with
                  | Some cb => [(cb, encodeMessage (MessageType_value Request) k method body,
                                 appData)]
                  | None => []
                  end.
Proof.
  intros Hpack k.
  destruct (request_state method req appData now st body Hpack) as (t & n & ->).
  split; reflexivity.
Qed.

(** The state after a Response with a body that the schema's reader
    accepts. *)
Lemma handleResponse_resolves (msg : DecodedMessage) st (w : PendingRequest)
    (def : MethodDef FBTable) (R : Ctor FBTable) (res : FBTable) :
  JsMap.get (pendingRequests st) (msg_id msg) = Some w ->
  msg_body msg <> [] ->
  schema st !! method w = Some def -> def_Res def = Some R ->
  unpackFB R (msg_body msg) = inr res ->
  fst (handleResponse msg st) = None
  /\ settlements (snd (handleResponse msg st))
     = settlements st ++ [Resolve (waiter w) (Some res)]
  /\ pendingRequests (snd (handleResponse msg st))
     = JsMap.delete (pendingRequests st) (msg_id msg)
  /\ sent (snd (handleResponse msg st)) = sent st.
Proof.
  intros Hget Hbody Hdef HR Hres. unfold handleResponse. rewrite Hget. cbv zeta.
  assert ((length (msg_body msg) =? 0)%nat = false) as ->.
  { apply Nat.eqb_neq. destruct (msg_body msg); [contradiction | discriminate]. }
  match goal with |- context [if ?b then stopTimeoutChecker ?s else _] =>
    assert (exists t, (if b then stopTimeoutChecker s else s)
                      = set_timeoutCheckInterval t s) as (t & ->)
  end.
  { destruct (_ =? _)%nat.
    - exists None. apply stopTimeoutChecker_eq.
    - exists (timeoutCheckInterval st). destruct st. reflexivity. }
  unfold try_response. cbn [schema set_timeoutCheckInterval set_pendingRequests].
  rewrite Hdef, HR, Hres. repeat split.
Qed.

End RoundTrip.

Section Call.

Context {ClientData ClientTable ServerData ServerTable : Type}.

(** X22.  A call between two peers.  The client's [request] hands its
    sink one frame; the server, given that frame, runs the handler on the
    decoded request and hands its own sink one Response frame; the client,
    given that frame, resolves the promise that [request] returned with the
    decoded response and drops the pending entry.  The id must not be
    pending already, both peers have a sink, the guards pass, the handler
    returns an object for a method whose schema declares a response, and
    the bodies pack and unpack.  A server sink that throws on the Response
    is handed the ErrorResponse for what it threw as a second frame; what
    the client's sink throws inside [request] rejects the promise before
    the Response arrives. *)
Theorem call_round_trip
    (client : FbRpc ClientData ClientTable) (server : FbRpc ServerData ServerTable)
    (method now : Z) (req obj : FBPackable) (body rbody : Uint8Array)
    (clientData clientData' : ClientData) (serverData : ServerData)
    (cbC : TransportCallback ClientData) (cbS : TransportCallback ServerData) (ref : nat)
    (handler : HandlerEntry ServerData ServerTable) (rq : ServerTable)
    (R' : Ctor ServerTable)
    (def : MethodDef ClientTable) (R : Ctor ClientTable) (res : ClientTable) :
  0 <= method < 65536 ->
  packFB req = inr body -> Z.of_nat (length body) < 4294967296 ->
  toTransport client = Some cbC ->
  JsMap.get (pendingRequests client) ((requestIdCounter client + 1) mod 4294967296) = None ->
  schema client !! method = Some def -> def_Res def = Some R ->
  toTransport server = Some cbS ->
  JsMap.get (dispatcher server) method = Some ref ->
  heap server !! ref = Some handler ->
  unpackFB (Req handler) body = inr rq ->
  Forall (fun g => exists v, guard_fn g (guard_args g rq serverData) = Return v)
         (guards handler) ->
  fn handler [ArgReq rq; ArgAppData serverData] = Return (VObject obj) ->
  Res handler = Some R' ->
  packFB obj = inr rbody -> rbody <> [] -> Z.of_nat (length rbody) < 4294967296 ->
  unpackFB R rbody = inr res ->
  let k := (requestIdCounter client + 1) mod 4294967296 in
  let frame := encodeMessage (MessageType_value Request) k method body in
  let reply := encodeMessage (MessageType_value Response) k method rbody in
  let client1 := snd (request method req clientData now client) in
  let server1 := snd (fromTransport frame serverData server) in
  let client2 := snd (fromTransport reply clientData' client1) in
  fst (request method req clientData now client) = inr (promises client)
  /\ sent client1 = sent client ++ [(cbC, frame, clientData)]
  /\ sent server1
     = sent server
       ++ (cbS, reply, serverData)
          :: match cbS reply serverData with
             | None => []
             | Some e =>
                 match message_of e with
                 | inr text => [(cbS, encodeErrorResponse k 1007 text, serverData)]
                 | inl _ => []
                 end
             end
  /\ settlements client2 = settlements client ++ [Resolve (promises client) (Some res)]
  /\ pendingRequests client2 = pendingRequests client
  /\ sent client2 = sent client1
  /\ fst (fromTransport reply clientData' client1) = None
  /\ rejected_by_runtime client2
     = rejected_by_runtime client
       ++ match cbC frame clientData with
          | Some e => [(promises client, e)]
          | None => []
          end.
Proof.
  intros Hm Hpack Hlen HcbC Hfresh Hdef HR HcbS Hget Hheap Hrq Hpass Hfn HRes Hobj Hne Hrlen
         Hres k frame reply client1 server1 client2.
  assert (0 <= k < 4294967296) as Hk by (unfold k; zlia).
  destruct (request_sent method req clientData now client body Hpack) as (Hfst & Hsent).
  fold k frame client1 in Hsent. rewrite HcbC in Hsent.
  destruct (request_shape method req clientData now client body Hpack)
    as (Hp & _ & Hs & _ & _ & Hsch).
  fold k client1 in Hp, Hs, Hsch.
  assert (rejected_by_runtime client1
          = rejected_by_runtime client
            ++ match cbC frame clientData with
               | Some e => [(promises client, e)]
               | None => []
               end) as Hrt.
  { unfold client1. destruct (request_state method req clientData now client body Hpack)
      as (t & n & ->). cbn [snd rejected_by_runtime set_rejected_by_runtime].
    rewrite HcbC. reflexivity. }
  rewrite JsMap_set_fresh in Hp by exact Hfresh.
  split; [exact Hfst|]. split; [exact Hsent|]. split.
  - subst server1. unfold fromTransport, frame.
    rewrite decode_encode_exact by (cbn; lia).
    cbn [msg_type MessageType_value Z.eqb orb]. unfold handleRequest.
    cbn [msg_method msg_body msg_id msg_type].
    rewrite Hget, Hheap, Hrq, (run_guards_return _ _ _ _ Hpass).
    unfold try_handler. cbn [call Z.eqb MessageType_value msg_type msg_id msg_method].
    rewrite Hfn. unfold respond. rewrite HRes, Hobj. cbn [negb].
    unfold callToTransport at 1. cbn [toTransport set_calls sent]. rewrite HcbS. fold reply.
    destruct (cbS reply serverData) as [e|]; [|reflexivity].
    destruct (message_of e) as [typeError|text]; cbn [sendError snd]; [reflexivity|].
    rewrite sent_callToTransport. cbn [toTransport set_calls set_sent sent]. rewrite HcbS.
    rewrite <- app_assoc. reflexivity.
  - assert (fromTransport reply clientData' client1
            = handleResponse (mkDecodedMessage (MessageType_value Response) k method rbody)
                             client1) as Hft.
    { unfold fromTransport, reply.
      rewrite decode_encode_exact by (cbn; lia). reflexivity. }
    subst client2. rewrite Hft.
    assert (JsMap.get (pendingRequests client1) k
            = Some (mkPendingRequest k method (promises client) now)) as Hget1.
    { rewrite Hp. rewrite <- (JsMap_set_fresh _ _ _ Hfresh). apply JsMap_get_set_eq. }
    destruct (handleResponse_resolves
                (mkDecodedMessage (MessageType_value Response) k method rbody) client1
                (mkPendingRequest k method (promises client) now) def R res)
      as (Hthrown & Hset & Hpend & Hsent2); cbn [msg_id msg_body]; auto.
    { rewrite Hsch. exact Hdef. }
    cbn [msg_id waiter] in Hset, Hpend.
    split; [rewrite Hset, Hs; reflexivity|].
    split; [rewrite Hpend, Hp; apply JsMap_delete_snoc, Hfresh|].
    split; [exact Hsent2|]. split; [exact Hthrown|].
    rewrite <- Hrt.
    pose proof (completion_state (fun msg st => snd (handleResponse msg st))
                  (mkDecodedMessage (MessageType_value Response) k method rbody) client1
                  ltac:(left; reflexivity)) as Hc.
    cbn [msg_id] in Hc. rewrite Hget1 in Hc. destruct Hc as (o & t & _ & Hc).
    cbv beta in Hc. rewrite Hc. reflexivity.
Qed.

End Call.

(** A client of the answering server. *)
Lemma call_round_trip_witness :
  let client :=
    registerToTransportCallback Answering.sink (new_FbRpc Answering.picky_schema None 0) in
  let frame := encodeMessage 0 1 0 [Byte.x2a] in
  let reply := encodeMessage 2 1 0 [Byte.x2b] in
  let client1 := snd (request 0 (mkPackable (inr [Byte.x2a])) true 100 client) in
  settlements (snd (fromTransport reply false client1)) = [Resolve 0%nat (Some 43)]
  /\ sent (snd (fromTransport frame true Answering.server)) = [(Answering.sink, reply, true)].
Proof.
  pose proof (call_round_trip
                (registerToTransportCallback Answering.sink
                   (new_FbRpc Answering.picky_schema None 0))
                Answering.server 0 100 (mkPackable (inr [Byte.x2a])) (Answering.successor 42)
                [Byte.x2a] [Byte.x2b] true false true Answering.sink Answering.sink 0
                (mkHandlerEntry Answering.picky (Some Answering.picky)
                                Answering.succ_handler [])
                42 Answering.picky
                (mkMethodDef Answering.picky (Some Answering.picky)) Answering.picky 43
                ltac:(lia) eq_refl ltac:(cbn; lia) eq_refl eq_refl eq_refl eq_refl
                eq_refl eq_refl eq_refl eq_refl ltac:(constructor) eq_refl eq_refl
                eq_refl ltac:(discriminate) ltac:(cbn; lia) eq_refl) as H.
  cbv zeta in H. split.
  - exact (proj1 (proj2 (proj2 (proj2 H)))).
  - exact (proj1 (proj2 (proj2 H))).
Defined.


(** * Values thrown by the callbacks *)

Section Throwing.

Context {AppDataType FBTable : Type}.
Local Abbreviation FbRpc := (FbRpc AppDataType FBTable).
Implicit Types st : FbRpc.

(** X23.  A sink that throws inside [request].  The call of the sink is
    the last statement of the executor of [new Promise]: [request] still
    returns the promise, the runtime rejects it with what the sink threw,
    and the peer is as after any other [request]: the entry is pending
    under the new id and no [resolve] or [reject] has been called. *)
Theorem request_sink_throws (method : Z) (req : FBPackable) (appData : AppDataType)
    (now : Z) st (body : Uint8Array) (cb : TransportCallback AppDataType) (e : Thrown) :
  packFB req = inr body ->
  toTransport st = Some cb ->
  let k := (requestIdCounter st + 1) mod 4294967296 in
  let frame := encodeMessage (MessageType_value Request) k method body in
  cb frame appData = Some e ->
  let st' := snd (request method req appData now st) in
  fst (request method req appData now st) = inr (promises st)
  /\ rejected_by_runtime st' = rejected_by_runtime st ++ [(promises st, e)]
  /\ sent st' = sent st ++ [(cb, frame, appData)]
  /\ JsMap.get (pendingRequests st') k
     = Some (mkPendingRequest k method (promises st) now)
  /\ settlements st' = settlements st.
Proof.
  intros Hpack Hcb k frame He st'.
  destruct (request_state method req appData now st body Hpack) as (t & n & Hreq).
  fold k frame in Hreq. subst st'. rewrite Hreq.
  cbn [fst snd rejected_by_runtime sent pendingRequests settlements set_rejected_by_runtime
       set_sent set_timers set_timeoutCheckInterval set_pendingRequests set_promises
       set_requestIdCounter].
  rewrite Hcb, He.
  repeat split. apply JsMap_get_set_eq.
Qed.

(** X24.  A guard that throws [undefined] or [null] on a Request.  The
    [catch] block of the guard loop calls [toString] on the caught value:
    the call throws a TypeError, which leaves [fromTransport].  No frame is
    handed to the sink, neither a later guard nor the handler is called,
    and the rest of the state is as before. *)
Theorem guard_throws_nullish (data : Uint8Array) (appData : AppDataType) st
    (msg : DecodedMessage) (ref : nat) (handler : HandlerEntry AppDataType FBTable)
    (req : FBTable) (pre post : list (GuardEntry AppDataType FBTable))
    (g : GuardEntry AppDataType FBTable) (e : Thrown) :
  decodeMessage data = inr msg ->
  msg_type msg = MessageType_value Request ->
  JsMap.get (dispatcher st) (msg_method msg) = Some ref ->
  heap st !! ref = Some handler ->
  unpackFB (Req handler) (msg_body msg) = inr req ->
  guards handler = pre ++ g :: post ->
  Forall (fun g => exists v, guard_fn g (guard_args g req appData) = Return v) pre ->
  guard_fn g (guard_args g req appData) = Throw e ->
  e = ThrownUndefined \/ e = ThrownNull ->
  fromTransport data appData st
  = (Some (ThrownValue (match e with
                        | ThrownNull => TypeError_null "toString"
                        | _ => TypeError_undefined "toString"
                        end)),
     set_calls (calls st ++ map (fun g => (guard_fn g, guard_args g req appData))
                                (pre ++ [g])) st).
Proof.
  intros Hdec Htype Hget Hheap Hreq Hgs Hpre Hg Hnull.
  unfold fromTransport. rewrite Hdec, Htype. cbn [Z.eqb MessageType_value orb].
  unfold handleRequest.
  rewrite Hget, Hheap, Hreq, Hgs, (run_guards_throw _ _ _ e _ _ _ Hpre Hg), Htype.
  cbn [Z.eqb MessageType_value]. destruct Hnull as [-> | ->]; reflexivity.
Qed.

End Throwing.

Lemma request_sink_throws_witness :
  let broken : TransportCallback bool :=
    fun _ _ => Some (ThrownValue (mkJsError (Js.lit "closed") (Js.lit "Error: closed"))) in
  let st := registerToTransportCallback broken (new_FbRpc Demo.demo_schema None 0) in
  rejected_by_runtime (snd (request 0 (mkPackable (inr [Byte.x2a])) true 100 st))
  = [(0%nat, ThrownValue (mkJsError (Js.lit "closed") (Js.lit "Error: closed")))].
Proof.
  intros broken st.
  pose proof (request_sink_throws 0 (mkPackable (inr [Byte.x2a])) true 100 st [Byte.x2a]
                broken (ThrownValue (mkJsError (Js.lit "closed") (Js.lit "Error: closed")))
                eq_refl eq_refl eq_refl) as H.
  cbv zeta in H. exact (proj1 (proj2 H)).
Defined.

Lemma guard_throws_nullish_witness :
  let mute : AnyFunction bool Z := fun _ => Throw ThrownUndefined in
  let st := addGuard (mkDispatcherHandler 0) mute Demo.server in
  fromTransport (encodeMessage 0 5 0 [Byte.x01]) true st
  = (Some (ThrownValue (TypeError_undefined "toString")),
     set_calls [(Demo.authenticated, [ArgAppData true]);
                (Demo.small_operand, [ArgReq 1]);
                (mute, [ArgReq 1; ArgAppData true])] st).
Proof.
  intros mute st.
  exact (guard_throws_nullish (encodeMessage 0 5 0 [Byte.x01]) true st
           (mkDecodedMessage 0 5 0 [Byte.x01]) 0%nat
           (mkHandlerEntry Demo.reader (Some Demo.reader) Demo.add_handler
              [mkGuard AppDataGuard Demo.authenticated;
               mkGuard RequestGuard Demo.small_operand; mkGuard Guard mute])
           1 [mkGuard AppDataGuard Demo.authenticated; mkGuard RequestGuard Demo.small_operand]
           [] (mkGuard Guard mute) ThrownUndefined
           eq_refl eq_refl eq_refl eq_refl eq_refl eq_refl
           ltac:(repeat constructor; eexists; reflexivity) eq_refl
           ltac:(left; reflexivity)).
Defined.
